(** * RISC-V translation core of tlib: instruction translators, translation
      block driver and vector helpers, embedded from
      [arch/riscv/translate.c] and [arch/riscv/vector_helper.c].

    The translators of [translate.c] do not compute guest values: they append
    TCG micro-operations to a buffer.  The embedding therefore has two layers:
    the translators, written in a state monad over the emitter state exactly
    as the C functions are, and a small-step reading of the micro-operations
    they emit ([exec]).  A statement about an instruction is a statement about
    [exec] applied to the operations the translator emitted. *)

From Stdlib Require Import ZArith List Bool Lia String QArith Qround.
Import ListNotations.
Local Open Scope string_scope.
Local Open Scope list_scope.
Local Open Scope Z_scope.

(* ===================================================================== *)
(** * Fixed-width integers *)
(* ===================================================================== *)

(** Values of a [w]-bit C integer or TCG temporary are kept as their unsigned
    representative in [0, 2^w). *)
Definition wrap (w x : Z) : Z := x mod 2 ^ w.

(** Two's complement reading of the low [w] bits. *)
Definition signed (w x : Z) : Z :=
  let u := wrap w x in
  if u <? 2 ^ (w - 1) then u else u - 2 ^ w.

Definition b2z (b : bool) : Z := if b then 1 else 0.

(** [extract32] of translate.c: [(value >> start) & ((1 << length) - 1)].
    The C parameters are a [uint32_t] and two [uint8_t]; the shifts are
    defined for [start] and [length] below 32, which is where the decoders
    call it and where this definition is meant. *)
Definition extract32 (value start length : Z) : Z :=
  Z.land (Z.shiftr value start) (wrap 32 (Z.shiftl 1 length - 1)).

(** [sextract64] of translate.c; the result is a [uint64_t].  The shifts
    are defined for [start] below 64 and [length] from 1 to 30 ([1 << length]
    is a shift on [int]), which is where the decoders call it and where this
    definition is meant. *)
Definition sextract64 (value start length : Z) : Z :=
  let result := Z.land (Z.shiftr value start) (Z.shiftl 1 length - 1) in
  if negb (Z.shiftr result (length - 1) =? 0)
  then Z.lor result (wrap 64 (Z.lnot (Z.shiftl 1 length - 1)))
  else result.

(* ===================================================================== *)
(** * Guest state *)
(* ===================================================================== *)

(** The vector configuration and register file of [CPUState].  [vflmul] is
    a C floating-point field; it only ever holds a power of two between 1/16
    and 8, which is kept here as an exact rational.  [v] is the byte array of
    the 32 vector registers, [vlenb] bytes each. *)
Record VectorUnit := mkVec {
  vl : Z;
  vtype : Z;
  vsew : Z;
  vlmul : Z;
  vflmul : Q;
  vlmax : Z;
  vta : Z;
  vma : Z;
  vill : bool;
  vstart : Z;
  vlenb : Z;
  elen : Z;
  v : Z -> Z
}.

(** The part of [CPUState] (cpu.h) the translator, its generated code and
    the vector helpers touch.  Register files are total maps from the
    register index. *)
Record CPUState := mkCPUState {
  gpr : Z -> Z;
  fpr : Z -> Z;
  pc : Z;
  mstatus : Z;
  misa : Z;
  exception_index : Z;
  badaddr : Z;
  env_singlestep_enabled : bool;
  breakpoints : list Z;
  vec : VectorUnit
}.

Definition upd (f : Z -> Z) (k v : Z) : Z -> Z :=
  fun x => if x =? k then v else f x.

Definition set_gpr (e : CPUState) (r v : Z) : CPUState :=
  mkCPUState (upd (gpr e) r v) (fpr e) (pc e) (mstatus e) (misa e)
             (exception_index e) (badaddr e) (env_singlestep_enabled e)
             (breakpoints e) (vec e).

Definition set_fpr (e : CPUState) (r v : Z) : CPUState :=
  mkCPUState (gpr e) (upd (fpr e) r v) (pc e) (mstatus e) (misa e)
             (exception_index e) (badaddr e) (env_singlestep_enabled e)
             (breakpoints e) (vec e).

Definition set_pc (e : CPUState) (v : Z) : CPUState :=
  mkCPUState (gpr e) (fpr e) v (mstatus e) (misa e)
             (exception_index e) (badaddr e) (env_singlestep_enabled e)
             (breakpoints e) (vec e).

Definition set_exception_index (e : CPUState) (v : Z) : CPUState :=
  mkCPUState (gpr e) (fpr e) (pc e) (mstatus e) (misa e)
             v (badaddr e) (env_singlestep_enabled e) (breakpoints e) (vec e).

Definition set_badaddr (e : CPUState) (v : Z) : CPUState :=
  mkCPUState (gpr e) (fpr e) (pc e) (mstatus e) (misa e)
             (exception_index e) v (env_singlestep_enabled e) (breakpoints e)
             (vec e).

Definition set_vec (e : CPUState) (u : VectorUnit) : CPUState :=
  mkCPUState (gpr e) (fpr e) (pc e) (mstatus e) (misa e)
             (exception_index e) (badaddr e) (env_singlestep_enabled e)
             (breakpoints e) u.

(** Modelled from the spec: cpu.h is not among the sources.  The exception
    numbers are the standard RISC-V [mcause] codes; [EXCP_DEBUG] is the
    host-side debug exception of the runtime. *)
Definition RISCV_EXCP_INST_ADDR_MIS : Z := 0.
Definition RISCV_EXCP_ILLEGAL_INST : Z := 2.
Definition RISCV_EXCP_BREAKPOINT : Z := 3.
Definition RISCV_EXCP_U_ECALL : Z := 8.
Definition EXCP_DEBUG : Z := 0x10002.

(** Modelled from the spec: [mstatus.FS] is bits 14:13 of [mstatus]. *)
Definition MSTATUS_FS : Z := 0x6000.
(** Modelled from the spec: [mstatus.VS] is bits 10:9 of [mstatus]. *)
Definition MSTATUS_VS : Z := 0x600.

(** Modelled from the spec: [riscv_has_ext] (cpu.h) tests a letter bit of
    [misa]; the compressed extension is letter C, bit 2. *)
Definition RISCV_FEATURE_RVC : Z := 4.
Definition riscv_has_ext (env : CPUState) (ext : Z) : bool :=
  negb (Z.land (misa env) ext =? 0).

(** Modelled from the spec: guest pages are 4 KiB. *)
Definition TARGET_PAGE_SIZE : Z := 4096.
Definition TARGET_PAGE_MASK (w : Z) : Z := wrap w (Z.lnot (TARGET_PAGE_SIZE - 1)).

(* ===================================================================== *)
(** * Guest memory *)
(* ===================================================================== *)

(** Byte-addressed, little-endian guest memory.  The MMU (page faults,
    memory-mapped devices) lives outside the translator and is not modelled:
    every access succeeds. *)
Definition memory := Z -> Z.

Fixpoint load_bytes (n : nat) (m : memory) (a : Z) : Z :=
  match n with
  | O => 0
  | S k => wrap 8 (m a) + 256 * load_bytes k m (a + 1)
  end.

Fixpoint store_bytes (n : nat) (m : memory) (a v : Z) : memory :=
  match n with
  | O => m
  | S k => store_bytes k (upd m a (wrap 8 v)) (a + 1) (Z.shiftr v 8)
  end.

(* ===================================================================== *)
(** * TCG micro-operations *)
(* ===================================================================== *)

(** A TCG value: a temporary ([tcg_temp_new], [tcg_temp_local_new]) or one of
    the globals created by [translate_init].  [cpu_gpr 0] is declared
    [TCGV_UNUSED] there and must never appear in an operation. *)
Inductive TCGv :=
| Temp (local : bool) (n : nat)
| cpu_gpr (r : Z)
| cpu_fpr (r : Z)
| cpu_pc.

Inductive operand :=
| V (t : TCGv)
| I (c : Z).

Inductive binop :=
| ADD | SUB | AND | OR | XOR | SHL | SHR | SAR | MUL | DIV | DIVU | REM | REMU.

Inductive TCGCond :=
| TCG_COND_EQ | TCG_COND_NE | TCG_COND_LT | TCG_COND_GE
| TCG_COND_LTU | TCG_COND_GEU | TCG_COND_GT | TCG_COND_GTU.

(** Every operation carries the width in bits it works at: the [_tl] forms
    use [TARGET_LONG_BITS], the [_i64] forms 64. *)
Inductive tcg_op :=
| Mov (w : Z) (d : TCGv) (a : operand)
| Bin (w : Z) (o : binop) (d : TCGv) (a b : operand)
| Not (w : Z) (d : TCGv) (a : operand)
| Setcond (w : Z) (c : TCGCond) (d : TCGv) (a b : operand)
| Movcond (w : Z) (c : TCGCond) (d : TCGv) (c1 c2 v1 v2 : operand)
| Ext (w : Z) (sign : bool) (from : Z) (d : TCGv) (a : operand)
| Mul2 (w : Z) (sign : bool) (lo hi : TCGv) (a b : operand)
| LdMstatus (w : Z) (d : TCGv)
| QemuLd (w : Z) (size : nat) (sign : bool) (d : TCGv) (addr : operand) (mem_index : Z)
| QemuSt (size : nat) (v : operand) (addr : operand) (mem_index : Z)
| Brcond (w : Z) (c : TCGCond) (a b : operand) (l : nat)
| Br (l : nat)
| SetLabel (l : nat)
| GotoTb (n : Z)
| ExitTb (chained : bool) (n : Z)
| Call (helper : string) (ret : option TCGv) (args : list operand).

(** ** Meaning of the micro-operations *)

(** The values the generated code works on: the guest CPU state, guest
    memory and the TCG temporaries. *)
Record Machine := mkMachine {
  env : CPUState;
  mem : memory;
  temps : nat -> Z
}.

Definition read (m : Machine) (t : TCGv) : Z :=
  match t with
  | Temp _ n => temps m n
  | cpu_gpr r => gpr (env m) r
  | cpu_fpr r => fpr (env m) r
  | cpu_pc => pc (env m)
  end.

Definition write (m : Machine) (t : TCGv) (v : Z) : Machine :=
  match t with
  | Temp _ n => mkMachine (env m) (mem m)
                  (fun k => if Nat.eqb k n then v else temps m k)
  | cpu_gpr r => mkMachine (set_gpr (env m) r v) (mem m) (temps m)
  | cpu_fpr r => mkMachine (set_fpr (env m) r v) (mem m) (temps m)
  | cpu_pc => mkMachine (set_pc (env m) v) (mem m) (temps m)
  end.

Definition eval (m : Machine) (a : operand) : Z :=
  match a with
  | V t => read m t
  | I c => c
  end.

(** Shifts by a count outside [0, w) and the division of TCG by zero or with
    overflow have no specified result: [None]. *)
Definition eval_binop (w : Z) (o : binop) (a b : Z) : option Z :=
  match o with
  | ADD => Some (wrap w (a + b))
  | SUB => Some (wrap w (a - b))
  | AND => Some (wrap w (Z.land a b))
  | OR => Some (wrap w (Z.lor a b))
  | XOR => Some (wrap w (Z.lxor a b))
  | MUL => Some (wrap w (a * b))
  | SHL => if (0 <=? b) && (b <? w) then Some (wrap w (Z.shiftl (wrap w a) b)) else None
  | SHR => if (0 <=? b) && (b <? w) then Some (Z.shiftr (wrap w a) b) else None
  | SAR => if (0 <=? b) && (b <? w) then Some (wrap w (Z.shiftr (signed w a) b)) else None
  | DIV => if (signed w b =? 0) || ((signed w a =? - 2 ^ (w - 1)) && (signed w b =? -1))
           then None else Some (wrap w (Z.quot (signed w a) (signed w b)))
  | REM => if (signed w b =? 0) || ((signed w a =? - 2 ^ (w - 1)) && (signed w b =? -1))
           then None else Some (wrap w (Z.rem (signed w a) (signed w b)))
  | DIVU => if wrap w b =? 0 then None else Some (wrap w a / wrap w b)
  | REMU => if wrap w b =? 0 then None else Some (wrap w a mod wrap w b)
  end.

Definition eval_cond (w : Z) (c : TCGCond) (a b : Z) : bool :=
  match c with
  | TCG_COND_EQ => wrap w a =? wrap w b
  | TCG_COND_NE => negb (wrap w a =? wrap w b)
  | TCG_COND_LT => signed w a <? signed w b
  | TCG_COND_GE => signed w b <=? signed w a
  | TCG_COND_GT => signed w b <? signed w a
  | TCG_COND_LTU => wrap w a <? wrap w b
  | TCG_COND_GEU => wrap w b <=? wrap w a
  | TCG_COND_GTU => wrap w b <? wrap w a
  end.

(** What a helper called from generated code did: it returned a value, or it
    left the generated code through [cpu_loop_exit] with an exception. *)
Inductive helper_result :=
| HReturn (e : CPUState) (ret : Z)
| HRaise (e : CPUState).

(** How running the operations of one guest instruction ends. *)
Inductive outcome :=
| Fallthrough (m : Machine)
| Exit (m : Machine) (chained : bool)
| Raised (e : CPUState) (mm : memory)
| Unspecified.

Inductive step_result :=
| Next (m : Machine)
| Jump (m : Machine) (l : nat)
| Stop (o : outcome).

Section Semantics.

(** The runtime helpers other than the exception raisers (floating point
    kernel, CSR access, [sret], [mret], [wfi], TLB and icache flushes) are
    not part of the translator; generated code is read relative to what
    they do. *)
Variable helper_sem : string -> list Z -> CPUState -> helper_result.

(** Modelled from the spec: the bodies of [raise_exception(n)],
    [raise_exception_mbadaddr(n, addr)] and [raise_exception_debug()] are
    not among the sources.  Each records the exception number (and the bad
    address) in the CPU state and leaves the generated code; none returns. *)
Definition call_helper (h : string) (args : list Z) (e : CPUState) : helper_result :=
  if String.eqb h "raise_exception" then
    HRaise (set_exception_index e (nth 0 args 0))
  else if String.eqb h "raise_exception_mbadaddr" then
    HRaise (set_badaddr (set_exception_index e (nth 0 args 0)) (nth 1 args 0))
  else if String.eqb h "raise_exception_debug" then
    HRaise (set_exception_index e EXCP_DEBUG)
  else helper_sem h args e.

Definition step (o : tcg_op) (m : Machine) : step_result :=
  match o with
  | Mov w d a => Next (write m d (wrap w (eval m a)))
  | Bin w o d a b =>
      match eval_binop w o (eval m a) (eval m b) with
      | Some v => Next (write m d v)
      | None => Stop Unspecified
      end
  | Not w d a => Next (write m d (wrap w (Z.lnot (eval m a))))
  | Setcond w c d a b => Next (write m d (b2z (eval_cond w c (eval m a) (eval m b))))
  | Movcond w c d c1 c2 v1 v2 =>
      Next (write m d (wrap w (if eval_cond w c (eval m c1) (eval m c2)
                               then eval m v1 else eval m v2)))
  | Ext w sign from d a =>
      Next (write m d (wrap w (if sign then signed from (eval m a)
                               else wrap from (eval m a))))
  | Mul2 w sign lo hi a b =>
      let p := if sign then signed w (eval m a) * signed w (eval m b)
               else wrap w (eval m a) * wrap w (eval m b) in
      Next (write (write m lo (wrap w p)) hi (wrap w (p / 2 ^ w)))
  | LdMstatus w d => Next (write m d (wrap w (mstatus (env m))))
  | QemuLd w size sign d addr _ =>
      let v := load_bytes size (mem m) (eval m addr) in
      Next (write m d (wrap w (if sign then signed (8 * Z.of_nat size) v else v)))
  | QemuSt size v addr _ =>
      Next (mkMachine (env m) (store_bytes size (mem m) (eval m addr) (eval m v))
                      (temps m))
  | Brcond w c a b l =>
      if eval_cond w c (eval m a) (eval m b) then Jump m l else Next m
  | Br l => Jump m l
  | SetLabel _ => Next m
  | GotoTb _ => Next m
  | ExitTb chained _ => Stop (Exit m chained)
  | Call h ret args =>
      match call_helper h (map (eval m) args) (env m) with
      | HReturn e v =>
          let m' := mkMachine e (mem m) (temps m) in
          Next (match ret with Some d => write m' d v | None => m' end)
      | HRaise e => Stop (Raised e (mem m))
      end
  end.

(** Runs a list of operations.  All labels of the translators are forward
    labels, so a taken branch is a scan for its [SetLabel] in the rest of
    the list ([seek]); a label that is never set has no meaning. *)
Fixpoint exec (ops : list tcg_op) (seek : option nat) (m : Machine) : outcome :=
  match ops with
  | [] => match seek with None => Fallthrough m | Some _ => Unspecified end
  | o :: rest =>
      match seek with
      | Some l =>
          match o with
          | SetLabel l' => if Nat.eqb l l' then exec rest None m else exec rest seek m
          | _ => exec rest seek m
          end
      | None =>
          match step o m with
          | Next m' => exec rest None m'
          | Jump m' l => exec rest (Some l) m'
          | Stop r => r
          end
      end
  end.

Definition run (ops : list tcg_op) (m : Machine) : outcome := exec ops None m.

End Semantics.

(* ===================================================================== *)
(** * Emitter state and the translation monad *)
(* ===================================================================== *)

Record TranslationBlock := mkTB {
  tb_pc : Z;
  tb_size : Z;
  tb_icount : Z;
  tb_prev_size : Z;
  tb_original_size : Z;
  tb_search_pc : bool;
  tb_disas_flags : Z
}.

Record DisasContext := mkCtx {
  ctx_tb : TranslationBlock;
  ctx_pc : Z;
  ctx_next_pc : Z;
  ctx_opcode : Z;
  ctx_singlestep_enabled : bool;
  ctx_mem_idx : Z;
  ctx_bstate : Z
}.

Definition BS_NONE : Z := 0.
Definition BS_STOP : Z := 1.
Definition BS_BRANCH : Z := 2.

(** The emitter: the operation buffer, the temporaries handed out so far,
    the number of temporaries not yet freed (what [tcg_check_temp_count]
    looks at) and the labels handed out. *)
Record TCGContext := mkTCG {
  gen_opc_buf : list tcg_op;
  nb_temps : nat;
  temps_in_use : Z;
  nb_labels : nat
}.

Record TState := mkTState {
  ctx : DisasContext;
  tcg : TCGContext
}.

Definition M (A : Type) : Type := TState -> A * TState.

Definition ret {A} (a : A) : M A := fun s => (a, s).
Definition bind {A B} (m : M A) (f : A -> M B) : M B :=
  fun s => let (a, s') := m s in f a s'.

Declare Scope tr_scope.
Delimit Scope tr_scope with tr.
Notation "x <- m ;; k" := (bind m (fun x => k))
  (at level 61, m at next level, right associativity) : tr_scope.
Notation "m ;; k" := (bind m (fun _ => k))
  (at level 61, right associativity) : tr_scope.
Local Open Scope tr_scope.

Definition when (b : bool) (m : M unit) : M unit := if b then m else ret tt.

Definition get_ctx : M DisasContext := fun s => (ctx s, s).

Definition set_ctx (c : DisasContext) : M unit := fun s => (tt, mkTState c (tcg s)).

Definition set_bstate (v : Z) : M unit :=
  c <- get_ctx ;;
  set_ctx (mkCtx (ctx_tb c) (ctx_pc c) (ctx_next_pc c) (ctx_opcode c)
                 (ctx_singlestep_enabled c) (ctx_mem_idx c) v).

Definition emit (o : tcg_op) : M unit :=
  fun s => (tt, mkTState (ctx s)
                  (mkTCG (gen_opc_buf (tcg s) ++ [o]) (nb_temps (tcg s))
                         (temps_in_use (tcg s)) (nb_labels (tcg s)))).

Definition new_temp (local : bool) : M TCGv :=
  fun s => (Temp local (nb_temps (tcg s)),
            mkTState (ctx s)
              (mkTCG (gen_opc_buf (tcg s)) (S (nb_temps (tcg s)))
                     (temps_in_use (tcg s) + 1) (nb_labels (tcg s)))).

Definition tcg_temp_new : M TCGv := new_temp false.
Definition tcg_temp_new_i64 : M TCGv := new_temp false.
Definition tcg_temp_local_new : M TCGv := new_temp true.

Definition tcg_temp_free (t : TCGv) : M unit :=
  fun s => (tt, mkTState (ctx s)
                  (mkTCG (gen_opc_buf (tcg s)) (nb_temps (tcg s))
                         (temps_in_use (tcg s) - 1) (nb_labels (tcg s)))).
Definition tcg_temp_free_i64 := tcg_temp_free.
Definition tcg_temp_free_i32 := tcg_temp_free.

Definition gen_new_label : M nat :=
  fun s => (nb_labels (tcg s),
            mkTState (ctx s)
              (mkTCG (gen_opc_buf (tcg s)) (nb_temps (tcg s))
                     (temps_in_use (tcg s)) (S (nb_labels (tcg s))))).

Definition gen_set_label (l : nat) : M unit := emit (SetLabel l).
Definition tcg_gen_br (l : nat) : M unit := emit (Br l).
Definition tcg_gen_goto_tb (n : Z) : M unit := emit (GotoTb n).

(** [gen_exit_tb(val, tb)]: [val] is zero for an unchained exit and
    [(uintptr_t)tb + n] for a chained one. *)
Definition gen_exit_tb (chained : bool) (n : Z) : M unit := emit (ExitTb chained n).

Definition tcg_gen_mov_i64 (d a : TCGv) : M unit := emit (Mov 64 d (V a)).
Definition tcg_gen_movi_i64 (d : TCGv) (c : Z) : M unit := emit (Mov 64 d (I c)).
Definition tcg_gen_andi_i64 (d a : TCGv) (c : Z) : M unit := emit (Bin 64 AND d (V a) (I c)).
Definition tcg_gen_or_i64 (d a b : TCGv) : M unit := emit (Bin 64 OR d (V a) (V b)).
Definition tcg_gen_xor_i64 (d a b : TCGv) : M unit := emit (Bin 64 XOR d (V a) (V b)).
Definition tcg_gen_not_i64 (d a : TCGv) : M unit := emit (Not 64 d (V a)).

Definition tcg_const_i32 (c : Z) : M TCGv :=
  t <- new_temp false ;; emit (Mov 32 t (I c)) ;; ret t.

(** The operations emitted by a translator started on an emitter state. *)
Definition emitted {A} (m : M A) (s : TState) : list tcg_op :=
  gen_opc_buf (tcg (snd (m s))).

Definition tcg_empty : TCGContext := mkTCG [] 0 0 0.

(** The emitter at the start of a guest instruction: empty buffer, no
    temporary in use. *)
Definition start (c : DisasContext) : TState := mkTState c tcg_empty.

(* ===================================================================== *)
(** * Instruction encodings (instmap.h) *)
(* ===================================================================== *)

(** Modelled from the spec: instmap.h is not among the sources.  The masks
    and opcode constants below are the fields of the standard RISC-V
    encodings: major opcode in bits 6:0, funct3 in bits 14:12, funct7 in
    bits 31:25 (funct5 in bits 31:27 for the atomics, funct2 in bits 26:25
    for the fused multiply-adds). *)
Definition MASK_OP_MAJOR (op : Z) : Z := Z.land op 0x7F.

Definition OPC_RISC_LUI : Z := 0x37.
Definition OPC_RISC_AUIPC : Z := 0x17.
Definition OPC_RISC_JAL : Z := 0x6F.
Definition OPC_RISC_JALR : Z := 0x67.
Definition OPC_RISC_BRANCH : Z := 0x63.
Definition OPC_RISC_LOAD : Z := 0x03.
Definition OPC_RISC_STORE : Z := 0x23.
Definition OPC_RISC_ARITH_IMM : Z := 0x13.
Definition OPC_RISC_ARITH : Z := 0x33.
Definition OPC_RISC_FENCE : Z := 0x0F.
Definition OPC_RISC_SYSTEM : Z := 0x73.
Definition OPC_RISC_ARITH_IMM_W : Z := 0x1B.
Definition OPC_RISC_ARITH_W : Z := 0x3B.
Definition OPC_RISC_ATOMIC : Z := 0x2F.
Definition OPC_RISC_FP_LOAD : Z := 0x07.
Definition OPC_RISC_FP_STORE : Z := 0x27.
Definition OPC_RISC_FMADD : Z := 0x43.
Definition OPC_RISC_FMSUB : Z := 0x47.
Definition OPC_RISC_FNMSUB : Z := 0x4B.
Definition OPC_RISC_FNMADD : Z := 0x4F.
Definition OPC_RISC_FP_ARITH : Z := 0x53.

Definition f3 (n : Z) : Z := Z.shiftl n 12.
Definition f7 (n : Z) : Z := Z.shiftl n 25.
Definition f5 (n : Z) : Z := Z.shiftl n 27.

Definition MASK_OP_ARITH (op : Z) : Z :=
  Z.lor (MASK_OP_MAJOR op) (Z.land op (Z.lor (f3 0x7) (f7 0x7F))).
Definition OPC_RISC_ADD := Eval cbv in Z.lor OPC_RISC_ARITH (Z.lor (f3 0) (f7 0x00)).
Definition OPC_RISC_SUB := Eval cbv in Z.lor OPC_RISC_ARITH (Z.lor (f3 0) (f7 0x20)).
Definition OPC_RISC_SLL := Eval cbv in Z.lor OPC_RISC_ARITH (Z.lor (f3 1) (f7 0x00)).
Definition OPC_RISC_SLT := Eval cbv in Z.lor OPC_RISC_ARITH (Z.lor (f3 2) (f7 0x00)).
Definition OPC_RISC_SLTU := Eval cbv in Z.lor OPC_RISC_ARITH (Z.lor (f3 3) (f7 0x00)).
Definition OPC_RISC_XOR := Eval cbv in Z.lor OPC_RISC_ARITH (Z.lor (f3 4) (f7 0x00)).
Definition OPC_RISC_SRL := Eval cbv in Z.lor OPC_RISC_ARITH (Z.lor (f3 5) (f7 0x00)).
Definition OPC_RISC_SRA := Eval cbv in Z.lor OPC_RISC_ARITH (Z.lor (f3 5) (f7 0x20)).
Definition OPC_RISC_OR := Eval cbv in Z.lor OPC_RISC_ARITH (Z.lor (f3 6) (f7 0x00)).
Definition OPC_RISC_AND := Eval cbv in Z.lor OPC_RISC_ARITH (Z.lor (f3 7) (f7 0x00)).
Definition OPC_RISC_MUL := Eval cbv in Z.lor OPC_RISC_ARITH (Z.lor (f3 0) (f7 0x01)).
Definition OPC_RISC_MULH := Eval cbv in Z.lor OPC_RISC_ARITH (Z.lor (f3 1) (f7 0x01)).
Definition OPC_RISC_MULHSU := Eval cbv in Z.lor OPC_RISC_ARITH (Z.lor (f3 2) (f7 0x01)).
Definition OPC_RISC_MULHU := Eval cbv in Z.lor OPC_RISC_ARITH (Z.lor (f3 3) (f7 0x01)).
Definition OPC_RISC_DIV := Eval cbv in Z.lor OPC_RISC_ARITH (Z.lor (f3 4) (f7 0x01)).
Definition OPC_RISC_DIVU := Eval cbv in Z.lor OPC_RISC_ARITH (Z.lor (f3 5) (f7 0x01)).
Definition OPC_RISC_REM := Eval cbv in Z.lor OPC_RISC_ARITH (Z.lor (f3 6) (f7 0x01)).
Definition OPC_RISC_REMU := Eval cbv in Z.lor OPC_RISC_ARITH (Z.lor (f3 7) (f7 0x01)).

Definition OPC_RISC_ADDW := Eval cbv in Z.lor OPC_RISC_ARITH_W (Z.lor (f3 0) (f7 0x00)).
Definition OPC_RISC_SUBW := Eval cbv in Z.lor OPC_RISC_ARITH_W (Z.lor (f3 0) (f7 0x20)).
Definition OPC_RISC_SLLW := Eval cbv in Z.lor OPC_RISC_ARITH_W (Z.lor (f3 1) (f7 0x00)).
Definition OPC_RISC_SRLW := Eval cbv in Z.lor OPC_RISC_ARITH_W (Z.lor (f3 5) (f7 0x00)).
Definition OPC_RISC_SRAW := Eval cbv in Z.lor OPC_RISC_ARITH_W (Z.lor (f3 5) (f7 0x20)).
Definition OPC_RISC_MULW := Eval cbv in Z.lor OPC_RISC_ARITH_W (Z.lor (f3 0) (f7 0x01)).
Definition OPC_RISC_DIVW := Eval cbv in Z.lor OPC_RISC_ARITH_W (Z.lor (f3 4) (f7 0x01)).
Definition OPC_RISC_DIVUW := Eval cbv in Z.lor OPC_RISC_ARITH_W (Z.lor (f3 5) (f7 0x01)).
Definition OPC_RISC_REMW := Eval cbv in Z.lor OPC_RISC_ARITH_W (Z.lor (f3 6) (f7 0x01)).
Definition OPC_RISC_REMUW := Eval cbv in Z.lor OPC_RISC_ARITH_W (Z.lor (f3 7) (f7 0x01)).

Definition MASK_OP_ARITH_IMM (op : Z) : Z :=
  Z.lor (MASK_OP_MAJOR op) (Z.land op (f3 0x7)).
Definition OPC_RISC_ADDI := Eval cbv in Z.lor OPC_RISC_ARITH_IMM (f3 0).
Definition OPC_RISC_SLTI := Eval cbv in Z.lor OPC_RISC_ARITH_IMM (f3 2).
Definition OPC_RISC_SLTIU := Eval cbv in Z.lor OPC_RISC_ARITH_IMM (f3 3).
Definition OPC_RISC_XORI := Eval cbv in Z.lor OPC_RISC_ARITH_IMM (f3 4).
Definition OPC_RISC_ORI := Eval cbv in Z.lor OPC_RISC_ARITH_IMM (f3 6).
Definition OPC_RISC_ANDI := Eval cbv in Z.lor OPC_RISC_ARITH_IMM (f3 7).
Definition OPC_RISC_SLLI := Eval cbv in Z.lor OPC_RISC_ARITH_IMM (f3 1).
Definition OPC_RISC_SHIFT_RIGHT_I := Eval cbv in Z.lor OPC_RISC_ARITH_IMM (f3 5).
Definition OPC_RISC_ADDIW := Eval cbv in Z.lor OPC_RISC_ARITH_IMM_W (f3 0).
Definition OPC_RISC_SLLIW := Eval cbv in Z.lor OPC_RISC_ARITH_IMM_W (f3 1).
Definition OPC_RISC_SHIFT_RIGHT_IW := Eval cbv in Z.lor OPC_RISC_ARITH_IMM_W (f3 5).

Definition MASK_OP_JALR (op : Z) : Z := Z.lor (MASK_OP_MAJOR op) (Z.land op (f3 0x7)).

Definition MASK_OP_BRANCH (op : Z) : Z := Z.lor (MASK_OP_MAJOR op) (Z.land op (f3 0x7)).
Definition OPC_RISC_BEQ := Eval cbv in Z.lor OPC_RISC_BRANCH (f3 0).
Definition OPC_RISC_BNE := Eval cbv in Z.lor OPC_RISC_BRANCH (f3 1).
Definition OPC_RISC_BLT := Eval cbv in Z.lor OPC_RISC_BRANCH (f3 4).
Definition OPC_RISC_BGE := Eval cbv in Z.lor OPC_RISC_BRANCH (f3 5).
Definition OPC_RISC_BLTU := Eval cbv in Z.lor OPC_RISC_BRANCH (f3 6).
Definition OPC_RISC_BGEU := Eval cbv in Z.lor OPC_RISC_BRANCH (f3 7).

Definition MASK_OP_LOAD (op : Z) : Z := Z.lor (MASK_OP_MAJOR op) (Z.land op (f3 0x7)).
Definition OPC_RISC_LB := Eval cbv in Z.lor OPC_RISC_LOAD (f3 0).
Definition OPC_RISC_LH := Eval cbv in Z.lor OPC_RISC_LOAD (f3 1).
Definition OPC_RISC_LW := Eval cbv in Z.lor OPC_RISC_LOAD (f3 2).
Definition OPC_RISC_LD := Eval cbv in Z.lor OPC_RISC_LOAD (f3 3).
Definition OPC_RISC_LBU := Eval cbv in Z.lor OPC_RISC_LOAD (f3 4).
Definition OPC_RISC_LHU := Eval cbv in Z.lor OPC_RISC_LOAD (f3 5).
Definition OPC_RISC_LWU := Eval cbv in Z.lor OPC_RISC_LOAD (f3 6).

Definition MASK_OP_STORE (op : Z) : Z := Z.lor (MASK_OP_MAJOR op) (Z.land op (f3 0x7)).
Definition OPC_RISC_SB := Eval cbv in Z.lor OPC_RISC_STORE (f3 0).
Definition OPC_RISC_SH := Eval cbv in Z.lor OPC_RISC_STORE (f3 1).
Definition OPC_RISC_SW := Eval cbv in Z.lor OPC_RISC_STORE (f3 2).
Definition OPC_RISC_SD := Eval cbv in Z.lor OPC_RISC_STORE (f3 3).

Definition MASK_OP_FP_LOAD (op : Z) : Z := Z.lor (MASK_OP_MAJOR op) (Z.land op (f3 0x7)).
Definition OPC_RISC_FLW := Eval cbv in Z.lor OPC_RISC_FP_LOAD (f3 2).
Definition OPC_RISC_FLD := Eval cbv in Z.lor OPC_RISC_FP_LOAD (f3 3).
Definition MASK_OP_FP_STORE (op : Z) : Z := Z.lor (MASK_OP_MAJOR op) (Z.land op (f3 0x7)).
Definition OPC_RISC_FSW := Eval cbv in Z.lor OPC_RISC_FP_STORE (f3 2).
Definition OPC_RISC_FSD := Eval cbv in Z.lor OPC_RISC_FP_STORE (f3 3).

Definition MASK_OP_ATOMIC (op : Z) : Z :=
  Z.lor (MASK_OP_MAJOR op) (Z.land op (Z.lor (f3 0x7) (f7 0x7F))).
Definition MASK_OP_ATOMIC_NO_AQ_RL (op : Z) : Z :=
  Z.lor (MASK_OP_MAJOR op) (Z.land op (Z.lor (f3 0x7) (f5 0x1F))).
Definition OPC_RISC_LR_W := Eval cbv in Z.lor OPC_RISC_ATOMIC (Z.lor (f3 2) (f5 0x02)).
Definition OPC_RISC_SC_W := Eval cbv in Z.lor OPC_RISC_ATOMIC (Z.lor (f3 2) (f5 0x03)).
Definition OPC_RISC_AMOADD_W := Eval cbv in Z.lor OPC_RISC_ATOMIC (Z.lor (f3 2) (f5 0x00)).
Definition OPC_RISC_AMOSWAP_W := Eval cbv in Z.lor OPC_RISC_ATOMIC (Z.lor (f3 2) (f5 0x01)).
Definition OPC_RISC_AMOXOR_W := Eval cbv in Z.lor OPC_RISC_ATOMIC (Z.lor (f3 2) (f5 0x04)).
Definition OPC_RISC_AMOAND_W := Eval cbv in Z.lor OPC_RISC_ATOMIC (Z.lor (f3 2) (f5 0x0C)).
Definition OPC_RISC_AMOOR_W := Eval cbv in Z.lor OPC_RISC_ATOMIC (Z.lor (f3 2) (f5 0x08)).
Definition OPC_RISC_AMOMIN_W := Eval cbv in Z.lor OPC_RISC_ATOMIC (Z.lor (f3 2) (f5 0x10)).
Definition OPC_RISC_AMOMAX_W := Eval cbv in Z.lor OPC_RISC_ATOMIC (Z.lor (f3 2) (f5 0x14)).
Definition OPC_RISC_AMOMINU_W := Eval cbv in Z.lor OPC_RISC_ATOMIC (Z.lor (f3 2) (f5 0x18)).
Definition OPC_RISC_AMOMAXU_W := Eval cbv in Z.lor OPC_RISC_ATOMIC (Z.lor (f3 2) (f5 0x1C)).
Definition OPC_RISC_LR_D := Eval cbv in Z.lor OPC_RISC_ATOMIC (Z.lor (f3 3) (f5 0x02)).
Definition OPC_RISC_SC_D := Eval cbv in Z.lor OPC_RISC_ATOMIC (Z.lor (f3 3) (f5 0x03)).
Definition OPC_RISC_AMOADD_D := Eval cbv in Z.lor OPC_RISC_ATOMIC (Z.lor (f3 3) (f5 0x00)).
Definition OPC_RISC_AMOSWAP_D := Eval cbv in Z.lor OPC_RISC_ATOMIC (Z.lor (f3 3) (f5 0x01)).
Definition OPC_RISC_AMOXOR_D := Eval cbv in Z.lor OPC_RISC_ATOMIC (Z.lor (f3 3) (f5 0x04)).
Definition OPC_RISC_AMOAND_D := Eval cbv in Z.lor OPC_RISC_ATOMIC (Z.lor (f3 3) (f5 0x0C)).
Definition OPC_RISC_AMOOR_D := Eval cbv in Z.lor OPC_RISC_ATOMIC (Z.lor (f3 3) (f5 0x08)).
Definition OPC_RISC_AMOMIN_D := Eval cbv in Z.lor OPC_RISC_ATOMIC (Z.lor (f3 3) (f5 0x10)).
Definition OPC_RISC_AMOMAX_D := Eval cbv in Z.lor OPC_RISC_ATOMIC (Z.lor (f3 3) (f5 0x14)).
Definition OPC_RISC_AMOMINU_D := Eval cbv in Z.lor OPC_RISC_ATOMIC (Z.lor (f3 3) (f5 0x18)).
Definition OPC_RISC_AMOMAXU_D := Eval cbv in Z.lor OPC_RISC_ATOMIC (Z.lor (f3 3) (f5 0x1C)).

Definition MASK_OP_FP_FMADD (op : Z) : Z := Z.lor (MASK_OP_MAJOR op) (Z.land op (f7 0x3)).
Definition OPC_RISC_FMADD_S := Eval cbv in Z.lor OPC_RISC_FMADD (f7 0).
Definition OPC_RISC_FMADD_D := Eval cbv in Z.lor OPC_RISC_FMADD (f7 1).
Definition MASK_OP_FP_FMSUB (op : Z) : Z := Z.lor (MASK_OP_MAJOR op) (Z.land op (f7 0x3)).
Definition OPC_RISC_FMSUB_S := Eval cbv in Z.lor OPC_RISC_FMSUB (f7 0).
Definition OPC_RISC_FMSUB_D := Eval cbv in Z.lor OPC_RISC_FMSUB (f7 1).
Definition MASK_OP_FP_FNMSUB (op : Z) : Z := Z.lor (MASK_OP_MAJOR op) (Z.land op (f7 0x3)).
Definition OPC_RISC_FNMSUB_S := Eval cbv in Z.lor OPC_RISC_FNMSUB (f7 0).
Definition OPC_RISC_FNMSUB_D := Eval cbv in Z.lor OPC_RISC_FNMSUB (f7 1).
Definition MASK_OP_FP_FNMADD (op : Z) : Z := Z.lor (MASK_OP_MAJOR op) (Z.land op (f7 0x3)).
Definition OPC_RISC_FNMADD_S := Eval cbv in Z.lor OPC_RISC_FNMADD (f7 0).
Definition OPC_RISC_FNMADD_D := Eval cbv in Z.lor OPC_RISC_FNMADD (f7 1).

Definition MASK_OP_FP_ARITH (op : Z) : Z := Z.lor (MASK_OP_MAJOR op) (Z.land op (f7 0x7F)).
Definition OPC_RISC_FADD_S := Eval cbv in Z.lor OPC_RISC_FP_ARITH (f7 0x00).
Definition OPC_RISC_FSUB_S := Eval cbv in Z.lor OPC_RISC_FP_ARITH (f7 0x04).
Definition OPC_RISC_FMUL_S := Eval cbv in Z.lor OPC_RISC_FP_ARITH (f7 0x08).
Definition OPC_RISC_FDIV_S := Eval cbv in Z.lor OPC_RISC_FP_ARITH (f7 0x0C).
Definition OPC_RISC_FSGNJ_S := Eval cbv in Z.lor OPC_RISC_FP_ARITH (f7 0x10).
Definition OPC_RISC_FMIN_S := Eval cbv in Z.lor OPC_RISC_FP_ARITH (f7 0x14).
Definition OPC_RISC_FSQRT_S := Eval cbv in Z.lor OPC_RISC_FP_ARITH (f7 0x2C).
Definition OPC_RISC_FEQ_S := Eval cbv in Z.lor OPC_RISC_FP_ARITH (f7 0x50).
Definition OPC_RISC_FCVT_W_S := Eval cbv in Z.lor OPC_RISC_FP_ARITH (f7 0x60).
Definition OPC_RISC_FCVT_S_W := Eval cbv in Z.lor OPC_RISC_FP_ARITH (f7 0x68).
Definition OPC_RISC_FMV_X_S := Eval cbv in Z.lor OPC_RISC_FP_ARITH (f7 0x70).
Definition OPC_RISC_FMV_S_X := Eval cbv in Z.lor OPC_RISC_FP_ARITH (f7 0x78).
Definition OPC_RISC_FADD_D := Eval cbv in Z.lor OPC_RISC_FP_ARITH (f7 0x01).
Definition OPC_RISC_FSUB_D := Eval cbv in Z.lor OPC_RISC_FP_ARITH (f7 0x05).
Definition OPC_RISC_FMUL_D := Eval cbv in Z.lor OPC_RISC_FP_ARITH (f7 0x09).
Definition OPC_RISC_FDIV_D := Eval cbv in Z.lor OPC_RISC_FP_ARITH (f7 0x0D).
Definition OPC_RISC_FSGNJ_D := Eval cbv in Z.lor OPC_RISC_FP_ARITH (f7 0x11).
Definition OPC_RISC_FMIN_D := Eval cbv in Z.lor OPC_RISC_FP_ARITH (f7 0x15).
Definition OPC_RISC_FCVT_S_D := Eval cbv in Z.lor OPC_RISC_FP_ARITH (f7 0x20).
Definition OPC_RISC_FCVT_D_S := Eval cbv in Z.lor OPC_RISC_FP_ARITH (f7 0x21).
Definition OPC_RISC_FSQRT_D := Eval cbv in Z.lor OPC_RISC_FP_ARITH (f7 0x2D).
Definition OPC_RISC_FEQ_D := Eval cbv in Z.lor OPC_RISC_FP_ARITH (f7 0x51).
Definition OPC_RISC_FCVT_W_D := Eval cbv in Z.lor OPC_RISC_FP_ARITH (f7 0x61).
Definition OPC_RISC_FCVT_D_W := Eval cbv in Z.lor OPC_RISC_FP_ARITH (f7 0x69).
Definition OPC_RISC_FMV_X_D := Eval cbv in Z.lor OPC_RISC_FP_ARITH (f7 0x71).
Definition OPC_RISC_FMV_D_X := Eval cbv in Z.lor OPC_RISC_FP_ARITH (f7 0x79).

Definition MASK_OP_SYSTEM (op : Z) : Z := Z.lor (MASK_OP_MAJOR op) (Z.land op (f3 0x7)).
Definition OPC_RISC_ECALL := Eval cbv in Z.lor OPC_RISC_SYSTEM (f3 0).
Definition OPC_RISC_CSRRW := Eval cbv in Z.lor OPC_RISC_SYSTEM (f3 1).
Definition OPC_RISC_CSRRS := Eval cbv in Z.lor OPC_RISC_SYSTEM (f3 2).
Definition OPC_RISC_CSRRC := Eval cbv in Z.lor OPC_RISC_SYSTEM (f3 3).
Definition OPC_RISC_CSRRWI := Eval cbv in Z.lor OPC_RISC_SYSTEM (f3 5).
Definition OPC_RISC_CSRRSI := Eval cbv in Z.lor OPC_RISC_SYSTEM (f3 6).
Definition OPC_RISC_CSRRCI := Eval cbv in Z.lor OPC_RISC_SYSTEM (f3 7).

(** Operand fields of the 32-bit formats. *)
Definition GET_RS1 (inst : Z) : Z := extract32 inst 15 5.
Definition GET_RS2 (inst : Z) : Z := extract32 inst 20 5.
Definition GET_RS3 (inst : Z) : Z := extract32 inst 27 5.
Definition GET_RD (inst : Z) : Z := extract32 inst 7 5.
Definition GET_RM (inst : Z) : Z := extract32 inst 12 3.
Definition GET_IMM (inst : Z) : Z := sextract64 inst 20 12.
Definition GET_STORE_IMM (inst : Z) : Z :=
  Z.lor (extract32 inst 7 5) (wrap 64 (Z.shiftl (sextract64 inst 25 7) 5)).
Definition GET_JAL_IMM (inst : Z) : Z :=
  Z.lor (Z.lor (Z.shiftl (extract32 inst 21 10) 1) (Z.shiftl (extract32 inst 20 1) 11))
        (Z.lor (Z.shiftl (extract32 inst 12 8) 12)
               (wrap 64 (Z.shiftl (sextract64 inst 31 1) 20))).
Definition GET_B_IMM (inst : Z) : Z :=
  Z.lor (Z.lor (Z.shiftl (extract32 inst 8 4) 1) (Z.shiftl (extract32 inst 25 6) 5))
        (Z.lor (Z.shiftl (extract32 inst 7 1) 11)
               (wrap 64 (Z.shiftl (sextract64 inst 31 1) 12))).

(** Operand fields of the compressed formats. *)
Definition GET_C_RS1 (inst : Z) : Z := extract32 inst 7 5.
Definition GET_C_RS2 (inst : Z) : Z := extract32 inst 2 5.
Definition GET_C_RS1S (inst : Z) : Z := 8 + extract32 inst 7 3.
Definition GET_C_RS2S (inst : Z) : Z := 8 + extract32 inst 2 3.
Definition GET_C_IMM (inst : Z) : Z :=
  Z.lor (extract32 inst 2 5) (wrap 64 (Z.shiftl (sextract64 inst 12 1) 5)).
Definition GET_C_ZIMM (inst : Z) : Z :=
  Z.lor (extract32 inst 2 5) (Z.shiftl (extract32 inst 12 1) 5).
Definition GET_C_ADDI4SPN_IMM (inst : Z) : Z :=
  Z.lor (Z.lor (Z.shiftl (extract32 inst 6 1) 2) (Z.shiftl (extract32 inst 5 1) 3))
        (Z.lor (Z.shiftl (extract32 inst 11 2) 4) (Z.shiftl (extract32 inst 7 4) 6)).
Definition GET_C_ADDI16SP_IMM (inst : Z) : Z :=
  Z.lor (Z.lor (Z.shiftl (extract32 inst 6 1) 4) (Z.shiftl (extract32 inst 2 1) 5))
        (Z.lor (Z.lor (Z.shiftl (extract32 inst 5 1) 6) (Z.shiftl (extract32 inst 3 2) 7))
               (wrap 64 (Z.shiftl (sextract64 inst 12 1) 9))).
Definition GET_C_LWSP_IMM (inst : Z) : Z :=
  Z.lor (Z.shiftl (extract32 inst 4 3) 2)
        (Z.lor (Z.shiftl (extract32 inst 12 1) 5) (Z.shiftl (extract32 inst 2 2) 6)).
Definition GET_C_LDSP_IMM (inst : Z) : Z :=
  Z.lor (Z.shiftl (extract32 inst 5 2) 3)
        (Z.lor (Z.shiftl (extract32 inst 12 1) 5) (Z.shiftl (extract32 inst 2 3) 6)).
Definition GET_C_SWSP_IMM (inst : Z) : Z :=
  Z.lor (Z.shiftl (extract32 inst 9 4) 2) (Z.shiftl (extract32 inst 7 2) 6).
Definition GET_C_SDSP_IMM (inst : Z) : Z :=
  Z.lor (Z.shiftl (extract32 inst 10 3) 3) (Z.shiftl (extract32 inst 7 3) 6).
Definition GET_C_LW_IMM (inst : Z) : Z :=
  Z.lor (Z.shiftl (extract32 inst 6 1) 2)
        (Z.lor (Z.shiftl (extract32 inst 10 3) 3) (Z.shiftl (extract32 inst 5 1) 6)).
Definition GET_C_LD_IMM (inst : Z) : Z :=
  Z.lor (Z.shiftl (extract32 inst 10 3) 3) (Z.shiftl (extract32 inst 5 2) 6).
Definition GET_C_J_IMM (inst : Z) : Z :=
  Z.lor (Z.lor (Z.lor (Z.shiftl (extract32 inst 3 3) 1) (Z.shiftl (extract32 inst 11 1) 4))
               (Z.lor (Z.shiftl (extract32 inst 2 1) 5) (Z.shiftl (extract32 inst 7 1) 6)))
        (Z.lor (Z.lor (Z.shiftl (extract32 inst 6 1) 7) (Z.shiftl (extract32 inst 9 2) 8))
               (Z.lor (Z.shiftl (extract32 inst 8 1) 10)
                      (wrap 64 (Z.shiftl (sextract64 inst 12 1) 11)))).
Definition GET_C_B_IMM (inst : Z) : Z :=
  Z.lor (Z.lor (Z.shiftl (extract32 inst 3 2) 1) (Z.shiftl (extract32 inst 10 2) 3))
        (Z.lor (Z.lor (Z.shiftl (extract32 inst 2 1) 5) (Z.shiftl (extract32 inst 5 2) 6))
               (wrap 64 (Z.shiftl (sextract64 inst 12 1) 8))).

(* ===================================================================== *)
(** * The translators of translate.c *)
(* ===================================================================== *)

Section Translate.

(** [TARGET_RISCV64] is a build-time choice; code under
    [#if defined(TARGET_RISCV64)] is guarded by it here. *)
Variable TARGET_RISCV64 : bool.

Definition TARGET_LONG_BITS : Z := if TARGET_RISCV64 then 64 else 32.

Definition tl := TARGET_LONG_BITS.

Definition tcg_gen_movi_tl (d : TCGv) (c : Z) : M unit := emit (Mov tl d (I c)).
Definition tcg_gen_mov_tl (d a : TCGv) : M unit := emit (Mov tl d (V a)).
Definition tcg_gen_op_tl (o : binop) (d a b : TCGv) : M unit := emit (Bin tl o d (V a) (V b)).
Definition tcg_gen_opi_tl (o : binop) (d a : TCGv) (c : Z) : M unit :=
  emit (Bin tl o d (V a) (I c)).
Definition tcg_gen_add_tl := tcg_gen_op_tl ADD.
Definition tcg_gen_sub_tl := tcg_gen_op_tl SUB.
Definition tcg_gen_and_tl := tcg_gen_op_tl AND.
Definition tcg_gen_or_tl := tcg_gen_op_tl OR.
Definition tcg_gen_xor_tl := tcg_gen_op_tl XOR.
Definition tcg_gen_shl_tl := tcg_gen_op_tl SHL.
Definition tcg_gen_shr_tl := tcg_gen_op_tl SHR.
Definition tcg_gen_sar_tl := tcg_gen_op_tl SAR.
Definition tcg_gen_mul_tl := tcg_gen_op_tl MUL.
Definition tcg_gen_div_tl := tcg_gen_op_tl DIV.
Definition tcg_gen_divu_tl := tcg_gen_op_tl DIVU.
Definition tcg_gen_rem_tl := tcg_gen_op_tl REM.
Definition tcg_gen_remu_tl := tcg_gen_op_tl REMU.
Definition tcg_gen_addi_tl := tcg_gen_opi_tl ADD.
Definition tcg_gen_andi_tl := tcg_gen_opi_tl AND.
Definition tcg_gen_ori_tl := tcg_gen_opi_tl OR.
Definition tcg_gen_xori_tl := tcg_gen_opi_tl XOR.
Definition tcg_gen_shli_tl := tcg_gen_opi_tl SHL.
Definition tcg_gen_shri_tl := tcg_gen_opi_tl SHR.
Definition tcg_gen_sari_tl := tcg_gen_opi_tl SAR.
Definition tcg_gen_setcond_tl (c : TCGCond) (d a b : TCGv) : M unit :=
  emit (Setcond tl c d (V a) (V b)).
Definition tcg_gen_setcondi_tl (c : TCGCond) (d a : TCGv) (k : Z) : M unit :=
  emit (Setcond tl c d (V a) (I k)).
Definition tcg_gen_movcond_tl (c : TCGCond) (d c1 c2 v1 v2 : TCGv) : M unit :=
  emit (Movcond tl c d (V c1) (V c2) (V v1) (V v2)).
Definition tcg_gen_ext32s_tl (d a : TCGv) : M unit := emit (Ext tl true 32 d (V a)).
Definition tcg_gen_ext32u_tl (d a : TCGv) : M unit := emit (Ext tl false 32 d (V a)).
Definition tcg_gen_trunc_i64_i32 (d a : TCGv) : M unit := emit (Ext 32 false 32 d (V a)).
Definition tcg_gen_extu_i32_i64 (d a : TCGv) : M unit := emit (Ext 64 false 32 d (V a)).
Definition tcg_gen_muls2_tl (lo hi a b : TCGv) : M unit := emit (Mul2 tl true lo hi (V a) (V b)).
Definition tcg_gen_mulu2_tl (lo hi a b : TCGv) : M unit := emit (Mul2 tl false lo hi (V a) (V b)).
Definition tcg_gen_brcond_tl (c : TCGCond) (a b : TCGv) (l : nat) : M unit :=
  emit (Brcond tl c (V a) (V b) l).
Definition tcg_gen_brcondi_tl (c : TCGCond) (a : TCGv) (k : Z) (l : nat) : M unit :=
  emit (Brcond tl c (V a) (I k) l).
Definition tcg_gen_qemu_ld (size : nat) (sign : bool) (d addr : TCGv) (idx : Z) : M unit :=
  emit (QemuLd tl size sign d (V addr) idx).
Definition tcg_gen_qemu_ld_i64 (size : nat) (d addr : TCGv) (idx : Z) : M unit :=
  emit (QemuLd 64 size false d (V addr) idx).
Definition tcg_gen_qemu_st (size : nat) (v addr : TCGv) (idx : Z) : M unit :=
  emit (QemuSt size (V v) (V addr) idx).
Definition tcg_const_tl (c : Z) : M TCGv :=
  t <- tcg_temp_new ;; tcg_gen_movi_tl t c ;; ret t.
Definition gen_helper (name : string) (r : option TCGv) (args : list TCGv) : M unit :=
  emit (Call name r (map V args)).

Definition generate_exception (excp : Z) : M unit :=
  c <- get_ctx ;;
  tcg_gen_movi_tl cpu_pc (ctx_pc c) ;;
  helper_tmp <- tcg_const_i32 excp ;;
  gen_helper "raise_exception" None [helper_tmp] ;;
  tcg_temp_free_i32 helper_tmp.

Definition generate_exception_mbadaddr (excp : Z) : M unit :=
  c <- get_ctx ;;
  tcg_gen_movi_tl cpu_pc (ctx_pc c) ;;
  helper_tmp <- tcg_const_i32 excp ;;
  gen_helper "raise_exception_mbadaddr" None [helper_tmp; cpu_pc] ;;
  tcg_temp_free_i32 helper_tmp.

(* unknown instruction *)
Definition kill_unknown (excp : Z) : M unit :=
  generate_exception excp ;;
  set_bstate BS_STOP.

Definition use_goto_tb (c : DisasContext) (dest : Z) : bool :=
  if ctx_singlestep_enabled c then false
  else Z.land (tb_pc (ctx_tb c)) (TARGET_PAGE_MASK tl)
       =? Z.land dest (TARGET_PAGE_MASK tl).

Definition gen_goto_tb (n dest : Z) : M unit :=
  c <- get_ctx ;;
  if use_goto_tb c dest then
    (* chaining is only allowed when the jump is to the same page *)
    tcg_gen_goto_tb n ;;
    tcg_gen_movi_tl cpu_pc dest ;;
    gen_exit_tb true n
  else
    tcg_gen_movi_tl cpu_pc dest ;;
    when (ctx_singlestep_enabled c) (gen_helper "raise_exception_debug" None []) ;;
    gen_exit_tb false 0.

Definition gen_get_gpr (t : TCGv) (reg_num : Z) : M unit :=
  if reg_num =? 0 then tcg_gen_movi_tl t 0
  else tcg_gen_mov_tl t (cpu_gpr reg_num).

Definition gen_set_gpr (reg_num_dst : Z) (t : TCGv) : M unit :=
  if negb (reg_num_dst =? 0) then tcg_gen_mov_tl (cpu_gpr reg_num_dst) t
  else ret tt.

Definition gen_mulhsu (r arg1 arg2 : TCGv) : M unit :=
  rl <- tcg_temp_new ;;
  rh <- tcg_temp_new ;;
  tcg_gen_mulu2_tl rl rh arg1 arg2 ;;
  (* fix up for one negative *)
  tcg_gen_sari_tl rl arg1 (TARGET_LONG_BITS - 1) ;;
  tcg_gen_and_tl rl rl arg2 ;;
  tcg_gen_sub_tl r rh rl ;;
  tcg_temp_free rl ;;
  tcg_temp_free rh.

(** The FS test emitted in front of the inline floating-point sequences:
    load [mstatus], mask [MSTATUS_FS], branch to [fp_ok] when non-zero,
    otherwise raise illegal-instruction and branch to [done]. *)
Definition check_mstatus_fs (t0 : TCGv) (fp_ok done : nat) : M unit :=
  emit (LdMstatus tl t0) ;;
  tcg_gen_andi_tl t0 t0 MSTATUS_FS ;;
  tcg_gen_brcondi_tl TCG_COND_NE t0 0 fp_ok ;;
  (* MSTATUS_FS field was zero: *)
  kill_unknown RISCV_EXCP_ILLEGAL_INST ;;
  tcg_gen_br done.

Definition gen_fsgnj (rd rs1 rs2 rm min : Z) : M unit :=
  t0 <- tcg_temp_new ;;
  fp_ok <- gen_new_label ;;
  done <- gen_new_label ;;
  check_mstatus_fs t0 fp_ok done ;;
  (* proceed with operation *)
  gen_set_label fp_ok ;;
  src1 <- tcg_temp_new_i64 ;;
  src2 <- tcg_temp_new_i64 ;;
  tcg_gen_mov_i64 src1 (cpu_fpr rs1) ;;
  tcg_gen_mov_i64 src2 (cpu_fpr rs2) ;;
  (if rm =? 0 then (* fsgnj *)
     when (rs1 =? rs2) (tcg_gen_mov_i64 (cpu_fpr rd) src1) ;;
     tcg_gen_andi_i64 src1 src1 (wrap 64 (Z.lnot min)) ;;
     tcg_gen_andi_i64 src2 src2 min ;;
     tcg_gen_or_i64 (cpu_fpr rd) src1 src2
   else if rm =? 1 then (* fsgnjn *)
     tcg_gen_andi_i64 src1 src1 (wrap 64 (Z.lnot min)) ;;
     tcg_gen_not_i64 src2 src2 ;;
     tcg_gen_andi_i64 src2 src2 min ;;
     tcg_gen_or_i64 (cpu_fpr rd) src1 src2
   else if rm =? 2 then (* fsgnjx *)
     tcg_gen_andi_i64 src2 src2 min ;;
     tcg_gen_xor_i64 (cpu_fpr rd) src1 src2
   else kill_unknown RISCV_EXCP_ILLEGAL_INST) ;;
  tcg_temp_free_i64 src1 ;;
  tcg_temp_free_i64 src2 ;;
  gen_set_label done ;;
  tcg_temp_free t0.

(** The [OPC_RISC_DIV] arm of [gen_arith], shared with [OPC_RISC_DIVW]. *)
Definition gen_arith_div (source1 source2 : TCGv) : M unit :=
  cond1 <- tcg_temp_new ;;
  cond2 <- tcg_temp_new ;;
  zeroreg <- tcg_const_tl 0 ;;
  resultopt1 <- tcg_temp_new ;;
  tcg_gen_movi_tl resultopt1 (wrap tl (-1)) ;;
  tcg_gen_setcondi_tl TCG_COND_EQ cond2 source2 (wrap tl (Z.lnot 0)) ;;
  tcg_gen_setcondi_tl TCG_COND_EQ cond1 source1 (Z.shiftl 1 (TARGET_LONG_BITS - 1)) ;;
  tcg_gen_and_tl cond1 cond1 cond2 ;; (* cond1 = overflow *)
  tcg_gen_setcondi_tl TCG_COND_EQ cond2 source2 0 ;; (* cond2 = div 0 *)
  (* if div by zero, set source1 to -1, otherwise don't change *)
  tcg_gen_movcond_tl TCG_COND_EQ source1 cond2 zeroreg source1 resultopt1 ;;
  (* if overflow or div by zero, set source2 to 1, else don't change *)
  tcg_gen_or_tl cond1 cond1 cond2 ;;
  tcg_gen_movi_tl resultopt1 1 ;;
  tcg_gen_movcond_tl TCG_COND_EQ source2 cond1 zeroreg source2 resultopt1 ;;
  tcg_gen_div_tl source1 source1 source2 ;;
  tcg_temp_free cond1 ;;
  tcg_temp_free cond2 ;;
  tcg_temp_free zeroreg ;;
  tcg_temp_free resultopt1.

(** The [OPC_RISC_DIVU] arm, shared with [OPC_RISC_DIVUW]. *)
Definition gen_arith_divu (source1 source2 : TCGv) : M unit :=
  cond1 <- tcg_temp_new ;;
  zeroreg <- tcg_const_tl 0 ;;
  resultopt1 <- tcg_temp_new ;;
  tcg_gen_setcondi_tl TCG_COND_EQ cond1 source2 0 ;;
  tcg_gen_movi_tl resultopt1 (wrap tl (-1)) ;;
  tcg_gen_movcond_tl TCG_COND_EQ source1 cond1 zeroreg source1 resultopt1 ;;
  tcg_gen_movi_tl resultopt1 1 ;;
  tcg_gen_movcond_tl TCG_COND_EQ source2 cond1 zeroreg source2 resultopt1 ;;
  tcg_gen_divu_tl source1 source1 source2 ;;
  tcg_temp_free cond1 ;;
  tcg_temp_free zeroreg ;;
  tcg_temp_free resultopt1.

(** The [OPC_RISC_REM] arm, shared with [OPC_RISC_REMW]. *)
Definition gen_arith_rem (source1 source2 : TCGv) : M unit :=
  cond1 <- tcg_temp_new ;;
  cond2 <- tcg_temp_new ;;
  zeroreg <- tcg_const_tl 0 ;;
  resultopt1 <- tcg_temp_new ;;
  tcg_gen_movi_tl resultopt1 1 ;;
  tcg_gen_setcondi_tl TCG_COND_EQ cond2 source2 (wrap tl (-1)) ;;
  tcg_gen_setcondi_tl TCG_COND_EQ cond1 source1 (Z.shiftl 1 (TARGET_LONG_BITS - 1)) ;;
  tcg_gen_and_tl cond2 cond1 cond2 ;; (* cond1 = overflow *)
  tcg_gen_setcondi_tl TCG_COND_EQ cond1 source2 0 ;; (* cond2 = div 0 *)
  (* if overflow or div by zero, set source2 to 1, else don't change *)
  tcg_gen_or_tl cond2 cond1 cond2 ;;
  tcg_gen_movcond_tl TCG_COND_EQ source2 cond2 zeroreg source2 resultopt1 ;;
  tcg_gen_rem_tl resultopt1 source1 source2 ;;
  (* if div by zero, just return the original dividend *)
  tcg_gen_movcond_tl TCG_COND_EQ source1 cond1 zeroreg resultopt1 source1 ;;
  tcg_temp_free cond1 ;;
  tcg_temp_free cond2 ;;
  tcg_temp_free zeroreg ;;
  tcg_temp_free resultopt1.

(** The [OPC_RISC_REMU] arm, shared with [OPC_RISC_REMUW]. *)
Definition gen_arith_remu (source1 source2 : TCGv) : M unit :=
  cond1 <- tcg_temp_new ;;
  zeroreg <- tcg_const_tl 0 ;;
  resultopt1 <- tcg_temp_new ;;
  tcg_gen_movi_tl resultopt1 1 ;;
  tcg_gen_setcondi_tl TCG_COND_EQ cond1 source2 0 ;;
  tcg_gen_movcond_tl TCG_COND_EQ source2 cond1 zeroreg source2 resultopt1 ;;
  tcg_gen_remu_tl resultopt1 source1 source2 ;;
  (* if div by zero, just return the original dividend *)
  tcg_gen_movcond_tl TCG_COND_EQ source1 cond1 zeroreg resultopt1 source1 ;;
  tcg_temp_free cond1 ;;
  tcg_temp_free zeroreg ;;
  tcg_temp_free resultopt1.

(** [CASE_OP_32_64(X)]: [case X:] and, on RV64, [case XW:]. *)
Definition case_op_32_64 (opc x xw : Z) : bool :=
  (opc =? x) || (TARGET_RISCV64 && (opc =? xw)).

Definition gen_arith (opc rd rs1 rs2 : Z) : M unit :=
  source1 <- tcg_temp_new ;;
  source2 <- tcg_temp_new ;;
  gen_get_gpr source1 rs1 ;;
  gen_get_gpr source2 rs2 ;;
  (if case_op_32_64 opc OPC_RISC_ADD OPC_RISC_ADDW then
     tcg_gen_add_tl source1 source1 source2
   else if case_op_32_64 opc OPC_RISC_SUB OPC_RISC_SUBW then
     tcg_gen_sub_tl source1 source1 source2
   else if TARGET_RISCV64 && (opc =? OPC_RISC_SLLW) then
     tcg_gen_andi_tl source2 source2 0x1F ;;
     tcg_gen_shl_tl source1 source1 source2
   else if opc =? OPC_RISC_SLL then
     tcg_gen_andi_tl source2 source2 (TARGET_LONG_BITS - 1) ;;
     tcg_gen_shl_tl source1 source1 source2
   else if opc =? OPC_RISC_SLT then
     tcg_gen_setcond_tl TCG_COND_LT source1 source1 source2
   else if opc =? OPC_RISC_SLTU then
     tcg_gen_setcond_tl TCG_COND_LTU source1 source1 source2
   else if opc =? OPC_RISC_XOR then
     tcg_gen_xor_tl source1 source1 source2
   else if TARGET_RISCV64 && (opc =? OPC_RISC_SRLW) then
     (* clear upper 32 *)
     tcg_gen_ext32u_tl source1 source1 ;;
     tcg_gen_andi_tl source2 source2 0x1F ;;
     tcg_gen_shr_tl source1 source1 source2
   else if opc =? OPC_RISC_SRL then
     tcg_gen_andi_tl source2 source2 (TARGET_LONG_BITS - 1) ;;
     tcg_gen_shr_tl source1 source1 source2
   else if TARGET_RISCV64 && (opc =? OPC_RISC_SRAW) then
     tcg_gen_ext32s_tl source1 source1 ;;
     tcg_gen_andi_tl source2 source2 0x1F ;;
     tcg_gen_sar_tl source1 source1 source2
   else if opc =? OPC_RISC_SRA then
     tcg_gen_andi_tl source2 source2 (TARGET_LONG_BITS - 1) ;;
     tcg_gen_sar_tl source1 source1 source2
   else if opc =? OPC_RISC_OR then
     tcg_gen_or_tl source1 source1 source2
   else if opc =? OPC_RISC_AND then
     tcg_gen_and_tl source1 source1 source2
   else if case_op_32_64 opc OPC_RISC_MUL OPC_RISC_MULW then
     tcg_gen_mul_tl source1 source1 source2
   else if opc =? OPC_RISC_MULH then
     tcg_gen_muls2_tl source2 source1 source1 source2
   else if opc =? OPC_RISC_MULHSU then
     gen_mulhsu source1 source1 source2
   else if opc =? OPC_RISC_MULHU then
     tcg_gen_mulu2_tl source2 source1 source1 source2
   else if TARGET_RISCV64 && (opc =? OPC_RISC_DIVW) then
     tcg_gen_ext32s_tl source1 source1 ;;
     tcg_gen_ext32s_tl source2 source2 ;;
     (* fall through to DIV *)
     gen_arith_div source1 source2
   else if opc =? OPC_RISC_DIV then
     gen_arith_div source1 source2
   else if TARGET_RISCV64 && (opc =? OPC_RISC_DIVUW) then
     tcg_gen_ext32u_tl source1 source1 ;;
     tcg_gen_ext32u_tl source2 source2 ;;
     (* fall through to DIVU *)
     gen_arith_divu source1 source2
   else if opc =? OPC_RISC_DIVU then
     gen_arith_divu source1 source2
   else if TARGET_RISCV64 && (opc =? OPC_RISC_REMW) then
     tcg_gen_ext32s_tl source1 source1 ;;
     tcg_gen_ext32s_tl source2 source2 ;;
     (* fall through to REM *)
     gen_arith_rem source1 source2
   else if opc =? OPC_RISC_REM then
     gen_arith_rem source1 source2
   else if TARGET_RISCV64 && (opc =? OPC_RISC_REMUW) then
     tcg_gen_ext32u_tl source1 source1 ;;
     tcg_gen_ext32u_tl source2 source2 ;;
     (* fall through to REMU *)
     gen_arith_remu source1 source2
   else if opc =? OPC_RISC_REMU then
     gen_arith_remu source1 source2
   else
     kill_unknown RISCV_EXCP_ILLEGAL_INST) ;;
  (* sign extend for W instructions *)
  when (negb (Z.land opc 0x8 =? 0)) (tcg_gen_ext32s_tl source1 source1) ;;
  gen_set_gpr rd source1 ;;
  tcg_temp_free source1 ;;
  tcg_temp_free source2.

(** The [OPC_RISC_SHIFT_RIGHT_I] arm of [gen_arith_imm], entered directly
    with [extra_shamt = 0] and by fall-through from
    [OPC_RISC_SHIFT_RIGHT_IW] with [extra_shamt = 32]. *)
Definition gen_shift_right_i (source1 : TCGv) (imm extra_shamt : Z) : M unit :=
  (* differentiate on IMM *)
  if Z.land imm 0x3ff <? TARGET_LONG_BITS then
    if negb (Z.land imm 0x400 =? 0) then
      (* SRAI[W] *)
      tcg_gen_sari_tl source1 source1 (Z.lxor imm 0x400 + extra_shamt)
    else
      (* SRLI[W] *)
      tcg_gen_shri_tl source1 source1 (imm + extra_shamt)
  else
    kill_unknown RISCV_EXCP_ILLEGAL_INST.

(** [imm] is a [target_long]: a signed value. *)
Definition gen_arith_imm (opc rd rs1 imm : Z) : M unit :=
  source1 <- tcg_temp_new ;;
  gen_get_gpr source1 rs1 ;;
  (if (opc =? OPC_RISC_ADDI) || (TARGET_RISCV64 && (opc =? OPC_RISC_ADDIW)) then
     tcg_gen_addi_tl source1 source1 imm
   else if opc =? OPC_RISC_SLTI then
     tcg_gen_setcondi_tl TCG_COND_LT source1 source1 imm
   else if opc =? OPC_RISC_SLTIU then
     tcg_gen_setcondi_tl TCG_COND_LTU source1 source1 imm
   else if opc =? OPC_RISC_XORI then
     tcg_gen_xori_tl source1 source1 imm
   else if opc =? OPC_RISC_ORI then
     tcg_gen_ori_tl source1 source1 imm
   else if opc =? OPC_RISC_ANDI then
     tcg_gen_andi_tl source1 source1 imm
   else if TARGET_RISCV64 && (opc =? OPC_RISC_SLLIW) && (32 <=? imm) then
     kill_unknown RISCV_EXCP_ILLEGAL_INST
   else if (TARGET_RISCV64 && (opc =? OPC_RISC_SLLIW)) || (opc =? OPC_RISC_SLLI) then
     (* SLLIW falls through to SLLI *)
     if imm <? TARGET_LONG_BITS then tcg_gen_shli_tl source1 source1 imm
     else kill_unknown RISCV_EXCP_ILLEGAL_INST
   else if TARGET_RISCV64 && (opc =? OPC_RISC_SHIFT_RIGHT_IW) then
     when (32 <=? Z.land imm 0x3ff) (kill_unknown RISCV_EXCP_ILLEGAL_INST) ;;
     tcg_gen_shli_tl source1 source1 32 ;;
     (* fall through to SHIFT_RIGHT_I with extra_shamt = 32 *)
     gen_shift_right_i source1 imm 32
   else if opc =? OPC_RISC_SHIFT_RIGHT_I then
     gen_shift_right_i source1 imm 0
   else
     kill_unknown RISCV_EXCP_ILLEGAL_INST) ;;
  (* sign-extend for W instructions *)
  when (negb (Z.land opc 0x8 =? 0)) (tcg_gen_ext32s_tl source1 source1) ;;
  gen_set_gpr rd source1 ;;
  tcg_temp_free source1.

(** [imm] is a [target_ulong]. *)
Definition gen_jal (env : CPUState) (rd imm : Z) : M unit :=
  c <- get_ctx ;;
  (* check misaligned: *)
  let next_pc := wrap tl (ctx_pc c + imm) in
  when (negb (riscv_has_ext env RISCV_FEATURE_RVC))
    (when (negb (Z.land next_pc 0x3 =? 0))
       (generate_exception_mbadaddr RISCV_EXCP_INST_ADDR_MIS)) ;;
  when (negb (rd =? 0)) (tcg_gen_movi_tl (cpu_gpr rd) (ctx_next_pc c)) ;;
  gen_goto_tb 0 (wrap tl (ctx_pc c + imm)) ;; (* must use this for safety *)
  set_bstate BS_BRANCH.

Definition gen_jalr (env : CPUState) (opc rd rs1 imm : Z) : M unit :=
  c <- get_ctx ;;
  (* no chaining with JALR *)
  misaligned <- gen_new_label ;;
  t0 <- tcg_temp_new ;;
  (if opc =? OPC_RISC_JALR then
     gen_get_gpr cpu_pc rs1 ;;
     tcg_gen_addi_tl cpu_pc cpu_pc imm ;;
     tcg_gen_andi_tl cpu_pc cpu_pc (wrap tl (-2)) ;;
     when (negb (riscv_has_ext env RISCV_FEATURE_RVC))
       (tcg_gen_andi_tl t0 cpu_pc 0x2 ;;
        tcg_gen_brcondi_tl TCG_COND_NE t0 0 misaligned) ;;
     when (negb (rd =? 0)) (tcg_gen_movi_tl (cpu_gpr rd) (ctx_next_pc c)) ;;
     gen_exit_tb false 0 ;;
     gen_set_label misaligned ;;
     generate_exception_mbadaddr RISCV_EXCP_INST_ADDR_MIS ;;
     gen_exit_tb false 0 ;;
     set_bstate BS_BRANCH
   else
     kill_unknown RISCV_EXCP_ILLEGAL_INST) ;;
  tcg_temp_free t0.

(** [bimm] is a [target_long]. *)
Definition gen_branch (env : CPUState) (opc rs1 rs2 bimm : Z) : M unit :=
  c <- get_ctx ;;
  l <- gen_new_label ;;
  source1 <- tcg_temp_new ;;
  source2 <- tcg_temp_new ;;
  gen_get_gpr source1 rs1 ;;
  gen_get_gpr source2 rs2 ;;
  (if opc =? OPC_RISC_BEQ then tcg_gen_brcond_tl TCG_COND_EQ source1 source2 l
   else if opc =? OPC_RISC_BNE then tcg_gen_brcond_tl TCG_COND_NE source1 source2 l
   else if opc =? OPC_RISC_BLT then tcg_gen_brcond_tl TCG_COND_LT source1 source2 l
   else if opc =? OPC_RISC_BGE then tcg_gen_brcond_tl TCG_COND_GE source1 source2 l
   else if opc =? OPC_RISC_BLTU then tcg_gen_brcond_tl TCG_COND_LTU source1 source2 l
   else if opc =? OPC_RISC_BGEU then tcg_gen_brcond_tl TCG_COND_GEU source1 source2 l
   else kill_unknown RISCV_EXCP_ILLEGAL_INST) ;;
  gen_goto_tb 1 (ctx_next_pc c) ;;
  gen_set_label l ;; (* branch taken *)
  (if negb (riscv_has_ext env RISCV_FEATURE_RVC)
      && negb (Z.land (wrap tl (ctx_pc c + bimm)) 0x3 =? 0) then
     (* misaligned *)
     generate_exception_mbadaddr RISCV_EXCP_INST_ADDR_MIS ;;
     gen_exit_tb false 0
   else
     gen_goto_tb 0 (wrap tl (ctx_pc c + bimm))) ;;
  tcg_temp_free source1 ;;
  tcg_temp_free source2 ;;
  set_bstate BS_BRANCH.

Definition gen_load (opc rd rs1 imm : Z) : M unit :=
  c <- get_ctx ;;
  t0 <- tcg_temp_new ;;
  t1 <- tcg_temp_new ;;
  gen_get_gpr t0 rs1 ;;
  tcg_gen_addi_tl t0 t0 imm ;;
  tcg_gen_movi_tl cpu_pc (ctx_pc c) ;;
  (if opc =? OPC_RISC_LB then tcg_gen_qemu_ld 1 true t1 t0 (ctx_mem_idx c)
   else if opc =? OPC_RISC_LH then tcg_gen_qemu_ld 2 true t1 t0 (ctx_mem_idx c)
   else if opc =? OPC_RISC_LW then tcg_gen_qemu_ld 4 true t1 t0 (ctx_mem_idx c)
   else if opc =? OPC_RISC_LD then tcg_gen_qemu_ld 8 false t1 t0 (ctx_mem_idx c)
   else if opc =? OPC_RISC_LBU then tcg_gen_qemu_ld 1 false t1 t0 (ctx_mem_idx c)
   else if opc =? OPC_RISC_LHU then tcg_gen_qemu_ld 2 false t1 t0 (ctx_mem_idx c)
   else if opc =? OPC_RISC_LWU then tcg_gen_qemu_ld 4 false t1 t0 (ctx_mem_idx c)
   else kill_unknown RISCV_EXCP_ILLEGAL_INST) ;;
  gen_set_gpr rd t1 ;;
  tcg_temp_free t0 ;;
  tcg_temp_free t1.

Definition gen_store (opc rs1 rs2 imm : Z) : M unit :=
  c <- get_ctx ;;
  tcg_gen_movi_tl cpu_pc (ctx_pc c) ;;
  t0 <- tcg_temp_new ;;
  dat <- tcg_temp_new ;;
  gen_get_gpr t0 rs1 ;;
  tcg_gen_addi_tl t0 t0 imm ;;
  gen_get_gpr dat rs2 ;;
  (if opc =? OPC_RISC_SB then tcg_gen_qemu_st 1 dat t0 (ctx_mem_idx c)
   else if opc =? OPC_RISC_SH then tcg_gen_qemu_st 2 dat t0 (ctx_mem_idx c)
   else if opc =? OPC_RISC_SW then tcg_gen_qemu_st 4 dat t0 (ctx_mem_idx c)
   else if opc =? OPC_RISC_SD then tcg_gen_qemu_st 8 dat t0 (ctx_mem_idx c)
   else kill_unknown RISCV_EXCP_ILLEGAL_INST) ;;
  tcg_temp_free t0 ;;
  tcg_temp_free dat.

Definition gen_fp_load (opc rd rs1 imm : Z) : M unit :=
  c <- get_ctx ;;
  t0 <- tcg_temp_new ;;
  fp_ok <- gen_new_label ;;
  done <- gen_new_label ;;
  (* check MSTATUS.FS *)
  check_mstatus_fs t0 fp_ok done ;;
  (* proceed with operation *)
  gen_set_label fp_ok ;;
  gen_get_gpr t0 rs1 ;;
  tcg_gen_addi_tl t0 t0 imm ;;
  (if opc =? OPC_RISC_FLW then tcg_gen_qemu_ld_i64 4 (cpu_fpr rd) t0 (ctx_mem_idx c)
   else if opc =? OPC_RISC_FLD then tcg_gen_qemu_ld_i64 8 (cpu_fpr rd) t0 (ctx_mem_idx c)
   else kill_unknown RISCV_EXCP_ILLEGAL_INST) ;;
  gen_set_label done ;;
  tcg_temp_free t0.

Definition gen_fp_store (opc rs1 rs2 imm : Z) : M unit :=
  c <- get_ctx ;;
  t0 <- tcg_temp_new ;;
  t1 <- tcg_temp_new ;;
  fp_ok <- gen_new_label ;;
  done <- gen_new_label ;;
  (* check MSTATUS.FS *)
  check_mstatus_fs t0 fp_ok done ;;
  (* proceed with operation *)
  gen_set_label fp_ok ;;
  gen_get_gpr t0 rs1 ;;
  tcg_gen_addi_tl t0 t0 imm ;;
  (if opc =? OPC_RISC_FSW then tcg_gen_qemu_st 4 (cpu_fpr rs2) t0 (ctx_mem_idx c)
   else if opc =? OPC_RISC_FSD then tcg_gen_qemu_st 8 (cpu_fpr rs2) t0 (ctx_mem_idx c)
   else kill_unknown RISCV_EXCP_ILLEGAL_INST) ;;
  gen_set_label done ;;
  tcg_temp_free t0 ;;
  tcg_temp_free t1.

(** The arms of [gen_atomic] differ in the access size (4 bytes with a
    sign-extending load for the [_W] forms, 8 bytes for the [_D] forms) and
    in the operation; [size] and [sign] are the arguments of the load and
    store each arm emits. *)
Definition gen_amo_op (o : binop) (size : nat) (sign : bool)
           (source1 source2 dat : TCGv) (idx : Z) : M unit :=
  tcg_gen_qemu_ld size sign dat source1 idx ;;
  tcg_gen_op_tl o source2 dat source2 ;;
  tcg_gen_qemu_st size source2 source1 idx ;;
  tcg_gen_mov_tl source1 dat.

Definition gen_amo_minmax (cnd : TCGCond) (size : nat) (sign : bool)
           (source1 source2 dat : TCGv) (done : nat) (idx : Z) : M unit :=
  tcg_gen_qemu_ld size sign dat source1 idx ;;
  tcg_gen_brcond_tl cnd dat source2 done ;;
  tcg_gen_qemu_st size source2 source1 idx.

Definition gen_atomic (opc0 rd rs1 rs2 : Z) : M unit :=
  c <- get_ctx ;;
  (* TODO: handle aq, rl bits? - for now just get rid of them: *)
  let opc := MASK_OP_ATOMIC_NO_AQ_RL opc0 in
  let idx := ctx_mem_idx c in
  source1 <- tcg_temp_local_new ;;
  source2 <- tcg_temp_local_new ;;
  done <- gen_new_label ;;
  dat <- tcg_temp_local_new ;;
  gen_get_gpr source1 rs1 ;;
  gen_get_gpr source2 rs2 ;;
  (* all currently implemented as non-atomics *)
  (if opc =? OPC_RISC_LR_W then
     tcg_gen_qemu_ld 4 true dat source1 idx
   else if opc =? OPC_RISC_SC_W then
     tcg_gen_qemu_st 4 source2 source1 idx ;;
     tcg_gen_movi_tl dat 0
   else if opc =? OPC_RISC_AMOSWAP_W then
     tcg_gen_qemu_ld 4 true dat source1 idx ;;
     tcg_gen_qemu_st 4 source2 source1 idx ;;
     tcg_gen_mov_tl source1 dat
   else if opc =? OPC_RISC_AMOADD_W then gen_amo_op ADD 4 true source1 source2 dat idx
   else if opc =? OPC_RISC_AMOXOR_W then gen_amo_op XOR 4 true source1 source2 dat idx
   else if opc =? OPC_RISC_AMOAND_W then gen_amo_op AND 4 true source1 source2 dat idx
   else if opc =? OPC_RISC_AMOOR_W then gen_amo_op OR 4 true source1 source2 dat idx
   else if opc =? OPC_RISC_AMOMIN_W then
     gen_amo_minmax TCG_COND_LT 4 true source1 source2 dat done idx
   else if opc =? OPC_RISC_AMOMAX_W then
     gen_amo_minmax TCG_COND_GT 4 true source1 source2 dat done idx
   else if opc =? OPC_RISC_AMOMINU_W then
     gen_amo_minmax TCG_COND_LTU 4 true source1 source2 dat done idx
   else if opc =? OPC_RISC_AMOMAXU_W then
     gen_amo_minmax TCG_COND_GTU 4 true source1 source2 dat done idx
   else if TARGET_RISCV64 && (opc =? OPC_RISC_LR_D) then
     tcg_gen_qemu_ld 8 false dat source1 idx
   else if TARGET_RISCV64 && (opc =? OPC_RISC_SC_D) then
     tcg_gen_qemu_st 8 source2 source1 idx ;;
     tcg_gen_movi_tl dat 0 (* assume always success *)
   else if TARGET_RISCV64 && (opc =? OPC_RISC_AMOSWAP_D) then
     tcg_gen_qemu_ld 8 false dat source1 idx ;;
     tcg_gen_qemu_st 8 source2 source1 idx ;;
     tcg_gen_mov_tl source1 dat
   else if TARGET_RISCV64 && (opc =? OPC_RISC_AMOADD_D) then
     gen_amo_op ADD 8 false source1 source2 dat idx
   else if TARGET_RISCV64 && (opc =? OPC_RISC_AMOXOR_D) then
     gen_amo_op XOR 8 false source1 source2 dat idx
   else if TARGET_RISCV64 && (opc =? OPC_RISC_AMOAND_D) then
     gen_amo_op AND 8 false source1 source2 dat idx
   else if TARGET_RISCV64 && (opc =? OPC_RISC_AMOOR_D) then
     gen_amo_op OR 8 false source1 source2 dat idx
   else if TARGET_RISCV64 && (opc =? OPC_RISC_AMOMIN_D) then
     gen_amo_minmax TCG_COND_LT 8 false source1 source2 dat done idx
   else if TARGET_RISCV64 && (opc =? OPC_RISC_AMOMAX_D) then
     gen_amo_minmax TCG_COND_GT 8 false source1 source2 dat done idx
   else if TARGET_RISCV64 && (opc =? OPC_RISC_AMOMINU_D) then
     gen_amo_minmax TCG_COND_LTU 8 false source1 source2 dat done idx
   else if TARGET_RISCV64 && (opc =? OPC_RISC_AMOMAXU_D) then
     gen_amo_minmax TCG_COND_GTU 8 false source1 source2 dat done idx
   else
     kill_unknown RISCV_EXCP_ILLEGAL_INST) ;;
  gen_set_label done ;;
  gen_set_gpr rd dat ;;
  tcg_temp_free source1 ;;
  tcg_temp_free source2 ;;
  tcg_temp_free dat.

(** [gen_fp_fmadd], [gen_fp_fmsub], [gen_fp_fnmsub] and [gen_fp_fnmadd]
    are the same function up to the two opcodes and helper names. *)
Definition gen_fp_fma (opc_s opc_d : Z) (name_s name_d : string)
           (opc rd rs1 rs2 rs3 rm : Z) : M unit :=
  rm_reg <- tcg_temp_new_i64 ;;
  tcg_gen_movi_i64 rm_reg rm ;;
  (if opc =? opc_s then
     gen_helper name_s (Some (cpu_fpr rd)) [cpu_fpr rs1; cpu_fpr rs2; cpu_fpr rs3; rm_reg]
   else if opc =? opc_d then
     gen_helper name_d (Some (cpu_fpr rd)) [cpu_fpr rs1; cpu_fpr rs2; cpu_fpr rs3; rm_reg]
   else
     kill_unknown RISCV_EXCP_ILLEGAL_INST) ;;
  tcg_temp_free_i64 rm_reg.

Definition gen_fp_fmadd :=
  gen_fp_fma OPC_RISC_FMADD_S OPC_RISC_FMADD_D "fmadd_s" "fmadd_d".
Definition gen_fp_fmsub :=
  gen_fp_fma OPC_RISC_FMSUB_S OPC_RISC_FMSUB_D "fmsub_s" "fmsub_d".
Definition gen_fp_fnmsub :=
  gen_fp_fma OPC_RISC_FNMSUB_S OPC_RISC_FNMSUB_D "fnmsub_s" "fnmsub_d".
Definition gen_fp_fnmadd :=
  gen_fp_fma OPC_RISC_FNMADD_S OPC_RISC_FNMADD_D "fnmadd_s" "fnmadd_d".

(** The [fmv.x.*]-style arms of [gen_fp_arith] open with the same FS test
    as the loads and stores, on [write_int_rd]. *)
Definition gen_fp_arith (opc rd rs1 rs2 rm : Z) : M unit :=
  rm_reg <- tcg_temp_new_i64 ;;
  write_int_rd <- tcg_temp_new ;;
  tcg_gen_movi_i64 rm_reg rm ;;
  let fp2 name := gen_helper name (Some (cpu_fpr rd)) [cpu_fpr rs1; cpu_fpr rs2; rm_reg] in
  let fp2n name := gen_helper name (Some (cpu_fpr rd)) [cpu_fpr rs1; cpu_fpr rs2] in
  let fp1 name := gen_helper name (Some (cpu_fpr rd)) [cpu_fpr rs1; rm_reg] in
  let cmp name := gen_helper name (Some write_int_rd) [cpu_fpr rs1; cpu_fpr rs2] in
  let f2i name := gen_helper name (Some write_int_rd) [cpu_fpr rs1; rm_reg] in
  let i2f name := gen_helper name (Some (cpu_fpr rd)) [write_int_rd; rm_reg] in
  let rv64_only (m : M unit) :=
    if TARGET_RISCV64 then m else kill_unknown RISCV_EXCP_ILLEGAL_INST in
  let minmax name_min name_max :=
    if rm =? 0 then fp2n name_min
    else if rm =? 1 then fp2n name_max
    else kill_unknown RISCV_EXCP_ILLEGAL_INST in
  let compare name_le name_lt name_eq :=
    (if rm =? 0 then cmp name_le
     else if rm =? 1 then cmp name_lt
     else if rm =? 2 then cmp name_eq
     else kill_unknown RISCV_EXCP_ILLEGAL_INST) ;;
    gen_set_gpr rd write_int_rd in
  let to_int name_w name_wu name_l name_lu :=
    (if rs2 =? 0 then f2i name_w
     else if rs2 =? 1 then f2i name_wu
     else if rs2 =? 2 then rv64_only (f2i name_l)
     else if rs2 =? 3 then rv64_only (f2i name_lu)
     else kill_unknown RISCV_EXCP_ILLEGAL_INST) ;;
    gen_set_gpr rd write_int_rd in
  let from_int name_w name_wu name_l name_lu :=
    gen_get_gpr write_int_rd rs1 ;;
    (if rs2 =? 0 then i2f name_w
     else if rs2 =? 1 then i2f name_wu
     else if rs2 =? 2 then rv64_only (i2f name_l)
     else if rs2 =? 3 then rv64_only (i2f name_lu)
     else kill_unknown RISCV_EXCP_ILLEGAL_INST) in
  (if opc =? OPC_RISC_FADD_S then fp2 "fadd_s"
   else if opc =? OPC_RISC_FSUB_S then fp2 "fsub_s"
   else if opc =? OPC_RISC_FMUL_S then fp2 "fmul_s"
   else if opc =? OPC_RISC_FDIV_S then fp2 "fdiv_s"
   else if opc =? OPC_RISC_FSGNJ_S then gen_fsgnj rd rs1 rs2 rm (wrap 64 (- 2 ^ 31))
   else if opc =? OPC_RISC_FMIN_S then minmax "fmin_s" "fmax_s"
   else if opc =? OPC_RISC_FSQRT_S then fp1 "fsqrt_s"
   else if opc =? OPC_RISC_FEQ_S then compare "fle_s" "flt_s" "feq_s"
   else if opc =? OPC_RISC_FCVT_W_S then
     to_int "fcvt_w_s" "fcvt_wu_s" "fcvt_l_s" "fcvt_lu_s"
   else if opc =? OPC_RISC_FCVT_S_W then
     from_int "fcvt_s_w" "fcvt_s_wu" "fcvt_s_l" "fcvt_s_lu"
   else if opc =? OPC_RISC_FMV_X_S then
     fp_ok <- gen_new_label ;;
     done <- gen_new_label ;;
     check_mstatus_fs write_int_rd fp_ok done ;;
     gen_set_label fp_ok ;;
     (if rm =? 0 then (* FMV *)
        (if TARGET_RISCV64 then tcg_gen_ext32s_tl write_int_rd (cpu_fpr rs1)
         else tcg_gen_trunc_i64_i32 write_int_rd (cpu_fpr rs1))
      else if rm =? 1 then
        gen_helper "fclass_s" (Some write_int_rd) [cpu_fpr rs1]
      else kill_unknown RISCV_EXCP_ILLEGAL_INST) ;;
     gen_set_gpr rd write_int_rd ;;
     gen_set_label done
   else if opc =? OPC_RISC_FMV_S_X then
     fp_ok <- gen_new_label ;;
     done <- gen_new_label ;;
     check_mstatus_fs write_int_rd fp_ok done ;;
     gen_set_label fp_ok ;;
     gen_get_gpr write_int_rd rs1 ;;
     (if TARGET_RISCV64 then tcg_gen_mov_tl (cpu_fpr rd) write_int_rd
      else tcg_gen_extu_i32_i64 (cpu_fpr rd) write_int_rd) ;;
     gen_set_label done
   (* double *)
   else if opc =? OPC_RISC_FADD_D then fp2 "fadd_d"
   else if opc =? OPC_RISC_FSUB_D then fp2 "fsub_d"
   else if opc =? OPC_RISC_FMUL_D then fp2 "fmul_d"
   else if opc =? OPC_RISC_FDIV_D then fp2 "fdiv_d"
   else if opc =? OPC_RISC_FSGNJ_D then gen_fsgnj rd rs1 rs2 rm (wrap 64 (- 2 ^ 63))
   else if opc =? OPC_RISC_FMIN_D then minmax "fmin_d" "fmax_d"
   else if opc =? OPC_RISC_FCVT_S_D then
     (if rs2 =? 1 then fp1 "fcvt_s_d" else kill_unknown RISCV_EXCP_ILLEGAL_INST)
   else if opc =? OPC_RISC_FCVT_D_S then
     (if rs2 =? 0 then fp1 "fcvt_d_s" else kill_unknown RISCV_EXCP_ILLEGAL_INST)
   else if opc =? OPC_RISC_FSQRT_D then fp1 "fsqrt_d"
   else if opc =? OPC_RISC_FEQ_D then compare "fle_d" "flt_d" "feq_d"
   else if opc =? OPC_RISC_FCVT_W_D then
     to_int "fcvt_w_d" "fcvt_wu_d" "fcvt_l_d" "fcvt_lu_d"
   else if opc =? OPC_RISC_FCVT_D_W then
     from_int "fcvt_d_w" "fcvt_d_wu" "fcvt_d_l" "fcvt_d_lu"
   else if TARGET_RISCV64 && (opc =? OPC_RISC_FMV_X_D) then
     fp_ok <- gen_new_label ;;
     done <- gen_new_label ;;
     check_mstatus_fs write_int_rd fp_ok done ;;
     gen_set_label fp_ok ;;
     (if rm =? 0 then (* FMV *)
        tcg_gen_mov_tl write_int_rd (cpu_fpr rs1)
      else if rm =? 1 then
        gen_helper "fclass_d" (Some write_int_rd) [cpu_fpr rs1]
      else kill_unknown RISCV_EXCP_ILLEGAL_INST) ;;
     gen_set_gpr rd write_int_rd ;;
     gen_set_label done
   else if TARGET_RISCV64 && (opc =? OPC_RISC_FMV_D_X) then
     fp_ok <- gen_new_label ;;
     done <- gen_new_label ;;
     check_mstatus_fs write_int_rd fp_ok done ;;
     gen_set_label fp_ok ;;
     gen_get_gpr write_int_rd rs1 ;;
     tcg_gen_mov_tl (cpu_fpr rd) write_int_rd ;;
     gen_set_label done
   else
     kill_unknown RISCV_EXCP_ILLEGAL_INST) ;;
  tcg_temp_free_i64 rm_reg ;;
  tcg_temp_free write_int_rd.

Definition gen_system (opc rd rs1 csr : Z) : M unit :=
  c <- get_ctx ;;
  source1 <- tcg_temp_new ;;
  csr_store <- tcg_temp_new ;;
  dest <- tcg_temp_new ;;
  rs1_pass <- tcg_temp_new ;;
  imm_rs1 <- tcg_temp_new ;;
  gen_get_gpr source1 rs1 ;;
  tcg_gen_movi_tl cpu_pc (ctx_pc c) ;;
  tcg_gen_movi_tl rs1_pass rs1 ;;
  tcg_gen_movi_tl csr_store csr ;; (* copy into temp reg to feed to helper *)
  (if opc =? OPC_RISC_ECALL then
     if csr =? 0x0 then (* ECALL *)
       (* always generates U-level ECALL, fixed in do_interrupt handler *)
       generate_exception RISCV_EXCP_U_ECALL ;;
       gen_exit_tb false 0 ;; (* no chaining *)
       set_bstate BS_BRANCH
     else if csr =? 0x1 then (* EBREAK *)
       generate_exception RISCV_EXCP_BREAKPOINT ;;
       gen_exit_tb false 0 ;; (* no chaining *)
       set_bstate BS_BRANCH
     else if csr =? 0x002 then (* URET *)
       kill_unknown RISCV_EXCP_ILLEGAL_INST
     else if csr =? 0x102 then (* SRET *)
       gen_helper "sret" (Some cpu_pc) [cpu_pc] ;;
       gen_exit_tb false 0 ;; (* no chaining *)
       set_bstate BS_BRANCH
     else if csr =? 0x202 then (* HRET *)
       kill_unknown RISCV_EXCP_ILLEGAL_INST
     else if csr =? 0x302 then (* MRET *)
       gen_helper "mret" (Some cpu_pc) [cpu_pc] ;;
       gen_exit_tb false 0 ;; (* no chaining *)
       set_bstate BS_BRANCH
     else if csr =? 0x7b2 then (* DRET *)
       kill_unknown RISCV_EXCP_ILLEGAL_INST
     else if csr =? 0x105 then (* WFI *)
       tcg_gen_movi_tl cpu_pc (ctx_next_pc c) ;;
       gen_helper "wfi" None []
     else if csr =? 0x104 then (* SFENCE.VM *)
       gen_helper "tlb_flush" None []
     else if csr =? 0x120 then (* SFENCE.VMA *)
       gen_helper "tlb_flush" None []
     else
       kill_unknown RISCV_EXCP_ILLEGAL_INST
   else
     tcg_gen_movi_tl imm_rs1 rs1 ;;
     (if opc =? OPC_RISC_CSRRW then
        gen_helper "csrrw" (Some dest) [source1; csr_store]
      else if opc =? OPC_RISC_CSRRS then
        gen_helper "csrrs" (Some dest) [source1; csr_store; rs1_pass]
      else if opc =? OPC_RISC_CSRRC then
        gen_helper "csrrc" (Some dest) [source1; csr_store; rs1_pass]
      else if opc =? OPC_RISC_CSRRWI then
        gen_helper "csrrw" (Some dest) [imm_rs1; csr_store]
      else if opc =? OPC_RISC_CSRRSI then
        gen_helper "csrrs" (Some dest) [imm_rs1; csr_store; rs1_pass]
      else if opc =? OPC_RISC_CSRRCI then
        gen_helper "csrrc" (Some dest) [imm_rs1; csr_store; rs1_pass]
      else
        kill_unknown RISCV_EXCP_ILLEGAL_INST) ;;
     gen_set_gpr rd dest ;;
     (* end tb since we may be changing priv modes, to get mmu_index right *)
     tcg_gen_movi_tl cpu_pc (ctx_next_pc c) ;;
     gen_exit_tb false 0 ;; (* no chaining *)
     set_bstate BS_BRANCH) ;;
  tcg_temp_free source1 ;;
  tcg_temp_free csr_store ;;
  tcg_temp_free dest ;;
  tcg_temp_free rs1_pass ;;
  tcg_temp_free imm_rs1.

(** Conversions at the call sites: a [target_long] parameter receives the
    signed reading, a [target_ulong] parameter the unsigned one. *)
Definition to_long (x : Z) : Z := signed tl x.
Definition to_ulong (x : Z) : Z := wrap tl x.

Definition decode_RV32_64C0 : M unit :=
  c <- get_ctx ;;
  let opcode := ctx_opcode c in
  let funct3 := extract32 opcode 13 3 in
  let rd_rs2 := GET_C_RS2S opcode in
  let rs1s := GET_C_RS1S opcode in
  if funct3 =? 0 then
    (* illegal *)
    if opcode =? 0 then kill_unknown RISCV_EXCP_ILLEGAL_INST
    else
      (* C.ADDI4SPN -> addi rd', x2, zimm[9:2] *)
      gen_arith_imm OPC_RISC_ADDI rd_rs2 2 (to_long (GET_C_ADDI4SPN_IMM opcode))
  else if funct3 =? 1 then
    (* C.FLD -> fld rd', offset[7:3](rs1') *)
    gen_fp_load OPC_RISC_FLD rd_rs2 rs1s (to_long (GET_C_LD_IMM opcode))
  else if funct3 =? 2 then
    (* C.LW -> lw rd', offset[6:2](rs1') *)
    gen_load OPC_RISC_LW rd_rs2 rs1s (to_long (GET_C_LW_IMM opcode))
  else if funct3 =? 3 then
    if TARGET_RISCV64 then
      (* C.LD(RV64/128) -> ld rd', offset[7:3](rs1') *)
      gen_load OPC_RISC_LD rd_rs2 rs1s (to_long (GET_C_LD_IMM opcode))
    else
      (* C.FLW (RV32) -> flw rd', offset[6:2](rs1') *)
      gen_fp_load OPC_RISC_FLW rd_rs2 rs1s (to_long (GET_C_LW_IMM opcode))
  else if funct3 =? 4 then
    (* reserved *)
    kill_unknown RISCV_EXCP_ILLEGAL_INST
  else if funct3 =? 5 then
    (* C.FSD(RV32/64) -> fsd rs2', offset[7:3](rs1') *)
    gen_fp_store OPC_RISC_FSD rs1s rd_rs2 (to_long (GET_C_LD_IMM opcode))
  else if funct3 =? 6 then
    (* C.SW -> sw rs2', offset[6:2](rs1') *)
    gen_store OPC_RISC_SW rs1s rd_rs2 (to_long (GET_C_LW_IMM opcode))
  else if funct3 =? 7 then
    if TARGET_RISCV64 then
      (* C.SD (RV64/128) -> sd rs2', offset[7:3](rs1') *)
      gen_store OPC_RISC_SD rs1s rd_rs2 (to_long (GET_C_LD_IMM opcode))
    else
      (* C.FSW (RV32) -> fsw rs2', offset[6:2](rs1') *)
      gen_fp_store OPC_RISC_FSW rs1s rd_rs2 (to_long (GET_C_LW_IMM opcode))
  else ret tt.

Definition decode_RV32_64C1 (env : CPUState) : M unit :=
  c <- get_ctx ;;
  let opcode := ctx_opcode c in
  let funct3 := extract32 opcode 13 3 in
  let rd_rs1 := GET_C_RS1 opcode in
  if funct3 =? 0 then
    (* C.ADDI -> addi rd, rd, nzimm[5:0] *)
    gen_arith_imm OPC_RISC_ADDI rd_rs1 rd_rs1 (to_long (GET_C_IMM opcode))
  else if funct3 =? 1 then
    if TARGET_RISCV64 then
      (* C.ADDIW (RV64/128) -> addiw rd, rd, imm[5:0] *)
      gen_arith_imm OPC_RISC_ADDIW rd_rs1 rd_rs1 (to_long (GET_C_IMM opcode))
    else
      (* C.JAL(RV32) -> jal x1, offset[11:1] *)
      gen_jal env 1 (to_ulong (GET_C_J_IMM opcode))
  else if funct3 =? 2 then
    (* C.LI -> addi rd, x0, imm[5:0] *)
    gen_arith_imm OPC_RISC_ADDI rd_rs1 0 (to_long (GET_C_IMM opcode))
  else if funct3 =? 3 then
    if rd_rs1 =? 2 then
      (* C.ADDI16SP -> addi x2, x2, nzimm[9:4] *)
      gen_arith_imm OPC_RISC_ADDI 2 2 (to_long (GET_C_ADDI16SP_IMM opcode))
    else if negb (rd_rs1 =? 0) then
      (* C.LUI (rs1/rd =/= {0,2}) -> lui rd, nzimm[17:12] *)
      tcg_gen_movi_tl (cpu_gpr rd_rs1) (Z.shiftl (GET_C_IMM opcode) 12)
    else ret tt
  else if funct3 =? 4 then
    let funct2 := extract32 opcode 10 2 in
    let rs1s := GET_C_RS1S opcode in
    if funct2 =? 0 then (* C.SRLI(RV32) -> srli rd', rd', shamt[5:0] *)
      gen_arith_imm OPC_RISC_SHIFT_RIGHT_I rs1s rs1s (to_long (GET_C_ZIMM opcode))
    else if funct2 =? 1 then
      (* C.SRAI -> srai rd', rd', shamt[5:0] *)
      gen_arith_imm OPC_RISC_SHIFT_RIGHT_I rs1s rs1s
                    (to_long (Z.lor (GET_C_ZIMM opcode) 0x400))
    else if funct2 =? 2 then
      (* C.ANDI -> andi rd', rd', imm[5:0] *)
      gen_arith_imm OPC_RISC_ANDI rs1s rs1s (to_long (GET_C_IMM opcode))
    else if funct2 =? 3 then
      let funct2 := extract32 opcode 5 2 in
      let rs2s := GET_C_RS2S opcode in
      if funct2 =? 0 then
        (* C.SUB -> sub rd', rd', rs2' *)
        if extract32 opcode 12 1 =? 0 then gen_arith OPC_RISC_SUB rs1s rs1s rs2s
        else if TARGET_RISCV64 then gen_arith OPC_RISC_SUBW rs1s rs1s rs2s
        else ret tt
      else if funct2 =? 1 then
        (* C.XOR -> xor rs1', rs1', rs2' *)
        if extract32 opcode 12 1 =? 0 then gen_arith OPC_RISC_XOR rs1s rs1s rs2s
        else if TARGET_RISCV64 then
          (* C.ADDW (RV64/128) *)
          gen_arith OPC_RISC_ADDW rs1s rs1s rs2s
        else ret tt
      else if funct2 =? 2 then
        (* C.OR -> or rs1', rs1', rs2' *)
        gen_arith OPC_RISC_OR rs1s rs1s rs2s
      else if funct2 =? 3 then
        (* C.AND -> and rs1', rs1', rs2' *)
        gen_arith OPC_RISC_AND rs1s rs1s rs2s
      else ret tt
    else ret tt
  else if funct3 =? 5 then
    (* C.J -> jal x0, offset[11:1] *)
    gen_jal env 0 (to_ulong (GET_C_J_IMM opcode))
  else if funct3 =? 6 then
    (* C.BEQZ -> beq rs1', x0, offset[8:1] *)
    gen_branch env OPC_RISC_BEQ (GET_C_RS1S opcode) 0 (to_long (GET_C_B_IMM opcode))
  else if funct3 =? 7 then
    (* C.BNEZ -> bne rs1', x0, offset[8:1] *)
    gen_branch env OPC_RISC_BNE (GET_C_RS1S opcode) 0 (to_long (GET_C_B_IMM opcode))
  else ret tt.

Definition decode_RV32_64C2 (env : CPUState) : M unit :=
  c <- get_ctx ;;
  let opcode := ctx_opcode c in
  let funct3 := extract32 opcode 13 3 in
  let rd := GET_RD opcode in
  if funct3 =? 0 then (* C.SLLI -> slli rd, rd, shamt[5:0] *)
    gen_arith_imm OPC_RISC_SLLI rd rd (to_long (GET_C_ZIMM opcode))
  else if funct3 =? 1 then (* C.FLDSP(RV32/64DC) -> fld rd, offset[8:3](x2) *)
    gen_fp_load OPC_RISC_FLD rd 2 (to_long (GET_C_LDSP_IMM opcode))
  else if funct3 =? 2 then (* C.LWSP -> lw rd, offset[7:2](x2) *)
    gen_load OPC_RISC_LW rd 2 (to_long (GET_C_LWSP_IMM opcode))
  else if funct3 =? 3 then
    if TARGET_RISCV64 then
      (* C.LDSP(RVC64) -> ld rd, offset[8:3](x2) *)
      gen_load OPC_RISC_LD rd 2 (to_long (GET_C_LDSP_IMM opcode))
    else
      (* C.FLWSP(RV32FC) -> flw rd, offset[7:2](x2) *)
      gen_fp_load OPC_RISC_FLW rd 2 (to_long (GET_C_LWSP_IMM opcode))
  else if funct3 =? 4 then
    let rs2 := GET_C_RS2 opcode in
    if extract32 opcode 12 1 =? 0 then
      if rs2 =? 0 then
        (* C.JR -> jalr x0, rs1, 0 *)
        gen_jalr env OPC_RISC_JALR 0 rd 0
      else
        (* C.MV -> add rd, x0, rs2 *)
        gen_arith OPC_RISC_ADD rd 0 rs2
    else
      if rd =? 0 then
        (* C.EBREAK -> ebreak *)
        gen_system OPC_RISC_ECALL 0 0 0x1
      else
        if rs2 =? 0 then
          (* C.JALR -> jalr x1, rs1, 0 *)
          gen_jalr env OPC_RISC_JALR 1 rd 0
        else
          (* C.ADD -> add rd, rd, rs2 *)
          gen_arith OPC_RISC_ADD rd rd rs2
  else if funct3 =? 5 then
    (* C.FSDSP -> fsd rs2, offset[8:3](x2) *)
    gen_fp_store OPC_RISC_FSD 2 (GET_C_RS2 opcode) (to_long (GET_C_SDSP_IMM opcode))
  else if funct3 =? 6 then (* C.SWSP -> sw rs2, offset[7:2](x2) *)
    gen_store OPC_RISC_SW 2 (GET_C_RS2 opcode) (to_long (GET_C_SWSP_IMM opcode))
  else if funct3 =? 7 then
    if TARGET_RISCV64 then
      (* C.SDSP(Rv64/128) -> sd rs2, offset[7:2](x2) *)
      gen_store OPC_RISC_SD 2 (GET_C_RS2 opcode) (to_long (GET_C_SDSP_IMM opcode))
    else
      (* C.FSWSP(RV32) -> fsw rs2, offset[7:2](x2) *)
      gen_fp_store OPC_RISC_FSW 2 (GET_C_RS2 opcode) (to_long (GET_C_SWSP_IMM opcode))
  else ret tt.

Definition decode_RV32_64C (env : CPUState) : M unit :=
  c <- get_ctx ;;
  let op := extract32 (ctx_opcode c) 0 2 in
  if op =? 0 then decode_RV32_64C0
  else if op =? 1 then decode_RV32_64C1 env
  else if op =? 2 then decode_RV32_64C2 env
  else ret tt.

Definition decode_RV32_64G (env : CPUState) : M unit :=
  c <- get_ctx ;;
  let opcode := ctx_opcode c in
  (* We do not do misaligned address check here: the address should never be
     misaligned at this point. Instructions that set PC must do the check,
     since epc must be the address of the instruction that caused us to
     perform the misaligned instruction fetch *)
  let op := MASK_OP_MAJOR opcode in
  let rs1 := GET_RS1 opcode in
  let rs2 := GET_RS2 opcode in
  let rd := GET_RD opcode in
  let imm := to_long (GET_IMM opcode) in
  if op =? OPC_RISC_LUI then
    if rd =? 0 then ret tt (* NOP *)
    else tcg_gen_movi_tl (cpu_gpr rd) (wrap 64 (Z.shiftl (sextract64 opcode 12 20) 12))
  else if op =? OPC_RISC_AUIPC then
    if rd =? 0 then ret tt (* NOP *)
    else tcg_gen_movi_tl (cpu_gpr rd)
           (wrap 64 (Z.shiftl (sextract64 opcode 12 20) 12) + ctx_pc c)
  else if op =? OPC_RISC_JAL then
    gen_jal env rd (to_ulong (GET_JAL_IMM opcode))
  else if op =? OPC_RISC_JALR then
    gen_jalr env (MASK_OP_JALR opcode) rd rs1 imm
  else if op =? OPC_RISC_BRANCH then
    gen_branch env (MASK_OP_BRANCH opcode) rs1 rs2 (to_long (GET_B_IMM opcode))
  else if op =? OPC_RISC_LOAD then
    gen_load (MASK_OP_LOAD opcode) rd rs1 imm
  else if op =? OPC_RISC_STORE then
    gen_store (MASK_OP_STORE opcode) rs1 rs2 (to_long (GET_STORE_IMM opcode))
  else if (op =? OPC_RISC_ARITH_IMM) || (TARGET_RISCV64 && (op =? OPC_RISC_ARITH_IMM_W)) then
    if rd =? 0 then ret tt (* NOP *)
    else gen_arith_imm (MASK_OP_ARITH_IMM opcode) rd rs1 imm
  else if (op =? OPC_RISC_ARITH) || (TARGET_RISCV64 && (op =? OPC_RISC_ARITH_W)) then
    if rd =? 0 then ret tt (* NOP *)
    else gen_arith (MASK_OP_ARITH opcode) rd rs1 rs2
  else if op =? OPC_RISC_FP_LOAD then
    gen_fp_load (MASK_OP_FP_LOAD opcode) rd rs1 imm
  else if op =? OPC_RISC_FP_STORE then
    gen_fp_store (MASK_OP_FP_STORE opcode) rs1 rs2 (to_long (GET_STORE_IMM opcode))
  else if op =? OPC_RISC_ATOMIC then
    gen_atomic (MASK_OP_ATOMIC opcode) rd rs1 rs2
  else if op =? OPC_RISC_FMADD then
    gen_fp_fmadd (MASK_OP_FP_FMADD opcode) rd rs1 rs2 (GET_RS3 opcode) (GET_RM opcode)
  else if op =? OPC_RISC_FMSUB then
    gen_fp_fmsub (MASK_OP_FP_FMSUB opcode) rd rs1 rs2 (GET_RS3 opcode) (GET_RM opcode)
  else if op =? OPC_RISC_FNMSUB then
    gen_fp_fnmsub (MASK_OP_FP_FNMSUB opcode) rd rs1 rs2 (GET_RS3 opcode) (GET_RM opcode)
  else if op =? OPC_RISC_FNMADD then
    gen_fp_fnmadd (MASK_OP_FP_FNMADD opcode) rd rs1 rs2 (GET_RS3 opcode) (GET_RM opcode)
  else if op =? OPC_RISC_FP_ARITH then
    gen_fp_arith (MASK_OP_FP_ARITH opcode) rd rs1 rs2 (GET_RM opcode)
  else if op =? OPC_RISC_FENCE then
    (* standard fence is nop, fence_i flushes TB (like an icache): *)
    if negb (Z.land opcode 0x1000 =? 0) then (* FENCE_I *)
      gen_helper "fence_i" None [] ;;
      tcg_gen_movi_tl cpu_pc (ctx_next_pc c) ;;
      gen_exit_tb false 0 ;; (* no chaining *)
      set_bstate BS_BRANCH
    else ret tt
  else if op =? OPC_RISC_SYSTEM then
    gen_system (MASK_OP_SYSTEM opcode) rd rs1
               (Z.shiftr (Z.land opcode 0xFFF00000) 20)
  else
    kill_unknown RISCV_EXCP_ILLEGAL_INST.

Definition set_ctx_pc (v : Z) : M unit :=
  c <- get_ctx ;;
  set_ctx (mkCtx (ctx_tb c) v (ctx_next_pc c) (ctx_opcode c)
                 (ctx_singlestep_enabled c) (ctx_mem_idx c) (ctx_bstate c)).

Definition set_ctx_next_pc (v : Z) : M unit :=
  c <- get_ctx ;;
  set_ctx (mkCtx (ctx_tb c) (ctx_pc c) v (ctx_opcode c)
                 (ctx_singlestep_enabled c) (ctx_mem_idx c) (ctx_bstate c)).

Definition set_ctx_opcode (v : Z) : M unit :=
  c <- get_ctx ;;
  set_ctx (mkCtx (ctx_tb c) (ctx_pc c) (ctx_next_pc c) v
                 (ctx_singlestep_enabled c) (ctx_mem_idx c) (ctx_bstate c)).

Definition set_ctx_tb (t : TranslationBlock) : M unit :=
  c <- get_ctx ;;
  set_ctx (mkCtx t (ctx_pc c) (ctx_next_pc c) (ctx_opcode c)
                 (ctx_singlestep_enabled c) (ctx_mem_idx c) (ctx_bstate c)).

Definition disas_insn (env : CPUState) : M Z :=
  c <- get_ctx ;;
  (* check for compressed insn *)
  if negb (extract32 (ctx_opcode c) 0 2 =? 3) then
    if negb (riscv_has_ext env RISCV_FEATURE_RVC) then
      kill_unknown RISCV_EXCP_ILLEGAL_INST ;;
      ret 0
    else
      set_ctx_next_pc (wrap tl (ctx_pc c + 2)) ;;
      decode_RV32_64C env ;;
      c' <- get_ctx ;;
      set_ctx_pc (ctx_next_pc c') ;;
      ret 2
  else
    set_ctx_next_pc (wrap tl (ctx_pc c + 4)) ;;
    decode_RV32_64G env ;;
    c' <- get_ctx ;;
    set_ctx_pc (ctx_next_pc c') ;;
    ret 4.

(** ** The translation-block driver *)

(** Collaborators of the driver that live outside translate.c: the code
    fetch, the MMU index of the current privilege level and the capacity of
    the operation buffer. *)
Variable ldl_code : Z -> Z.
Variable cpu_mmu_index : CPUState -> Z.
Variable OPC_MAX_SIZE : Z.

Definition get_disas_flags : Z := 0.

Definition create_disas_context (env : CPUState) (tb : TranslationBlock) : DisasContext :=
  mkCtx tb (tb_pc tb) 0 0 (env_singlestep_enabled env) (cpu_mmu_index env) BS_NONE.

Definition gen_breakpoint : M Z :=
  generate_exception EXCP_DEBUG ;;
  (* Advance PC so that clearing the breakpoint will invalidate this TB. *)
  c <- get_ctx ;;
  set_ctx_pc (wrap tl (ctx_pc c + 4)) ;;
  ret 1.

(** Modelled from the spec: [process_breakpoints] is not among the
    sources; it finds the breakpoint set at the given address, if any. *)
Definition process_breakpoints (env : CPUState) (pc : Z) : bool :=
  existsb (Z.eqb pc) (breakpoints env).

(** One pass through the body of the [while (1)] loop up to the temporary
    leak check: fetch, translate, account in the block. *)
Definition translate_insn (env : CPUState) : M unit :=
  c <- get_ctx ;;
  set_ctx_opcode (ldl_code (ctx_pc c)) ;;
  c <- get_ctx ;;
  let tb := ctx_tb c in
  set_ctx_tb (mkTB (tb_pc tb) (tb_size tb) (tb_icount tb) (tb_size tb)
                   (tb_original_size tb) (tb_search_pc tb) (tb_disas_flags tb)) ;;
  n <- disas_insn env ;;
  c <- get_ctx ;;
  let tb := ctx_tb c in
  let size := tb_size tb + n in
  set_ctx_tb (mkTB (tb_pc tb) size (tb_icount tb + 1) (tb_prev_size tb)
                   (if negb (tb_search_pc tb) then size else tb_original_size tb)
                   (tb_search_pc tb) (tb_disas_flags tb)).

Inductive loop_result :=
| Translated (s : TState)
| Aborted            (* tlib_abortf: TCG temps leak detected *)
| OutOfFuel.

(** The [while (1)] loop of [gen_intermediate_code].  Every pass that does
    not leave the loop has [tb->icount < max_insns] after incrementing
    [tb->icount], so [max_insns - tb->icount] passes are enough; [fuel]
    counts them down. *)
Fixpoint translate_loop (fuel : nat) (env : CPUState) (max_insns : Z)
         (s : TState) : loop_result :=
  if process_breakpoints env (ctx_pc (ctx s)) then
    Translated (snd (gen_breakpoint s))
  else
    let s := snd (translate_insn env s) in
    let c := ctx s in
    let tb := ctx_tb c in
    if negb (temps_in_use (tcg s) =? 0) then Aborted
    else if negb (ctx_bstate c =? BS_NONE) then Translated s
    else if ctx_singlestep_enabled c then Translated s
    else if TARGET_PAGE_SIZE <=?
            wrap tl (ctx_pc c - Z.land (tb_pc tb) (TARGET_PAGE_MASK tl)) then
      Translated s
    else if max_insns <=? tb_icount tb then
      Translated (snd (set_bstate BS_STOP s))
    else if OPC_MAX_SIZE <=? Z.of_nat (List.length (gen_opc_buf (tcg s))) then
      Translated s
    else if tb_search_pc tb && (tb_size tb =? tb_original_size tb) then
      (* `search_pc` is set to 1 only when restoring the block;
         this is to ensure that the size of restored block is not bigger
         than the size of the original one *)
      Translated (snd (set_bstate BS_STOP s))
    else
      match fuel with
      | O => OutOfFuel
      | S fuel' => translate_loop fuel' env max_insns s
      end.

(** What follows the loop: the exit sequence of the block. *)
Definition gen_block_exit (env : CPUState) : M unit :=
  c <- get_ctx ;;
  (if env_singlestep_enabled env && negb (ctx_bstate c =? BS_BRANCH) then
     when (ctx_bstate c =? BS_NONE) (tcg_gen_movi_tl cpu_pc (ctx_pc c)) ;;
     gen_helper "raise_exception_debug" None []
   else
     if ctx_bstate c =? BS_STOP then
       gen_goto_tb 0 (ctx_pc c)
     else if ctx_bstate c =? BS_NONE then
       (* handle end of page - DO NOT CHAIN. See gen_goto_tb. *)
       tcg_gen_movi_tl cpu_pc (ctx_pc c) ;;
       gen_exit_tb false 0
     else (* BS_BRANCH: ops using BS_BRANCH generate own exit seq *)
       ret tt) ;;
  c <- get_ctx ;;
  let tb := ctx_tb c in
  set_ctx_tb (mkTB (tb_pc tb) (tb_size tb) (tb_icount tb) (tb_prev_size tb)
                   (tb_original_size tb) (tb_search_pc tb) get_disas_flags).

Definition gen_intermediate_code (env : CPUState) (tb : TranslationBlock)
           (max_insns : Z) : loop_result :=
  let s := start (create_disas_context env tb) in
  match translate_loop (Z.to_nat (max_insns - tb_icount tb)) env max_insns s with
  | Translated s' => Translated (snd (gen_block_exit env s'))
  | r => r
  end.

End Translate.

(* ===================================================================== *)
(** * The vector helpers of vector_helper.c *)
(* ===================================================================== *)

(** Modelled from the spec: the [GET_VTYPE_*] accessors (cpu.h) are not
    among the sources.  [vtype] holds [vlmul] in bits 2:0, [vsew] in bits
    5:3, [vta] in bit 6 and [vma] in bit 7. *)
Definition GET_VTYPE_VLMUL (inst : Z) : Z := extract32 inst 0 3.
Definition GET_VTYPE_VSEW (inst : Z) : Z := extract32 inst 3 3.
Definition GET_VTYPE_VTA (inst : Z) : Z := extract32 inst 6 1.
Definition GET_VTYPE_VMA (inst : Z) : Z := extract32 inst 7 1.

Definition MIN (x y : Z) : Z := if x <? y then x else y.

Section VectorHelper.

Variable TARGET_RISCV64 : bool.

(** [V_IDX_INVALID] (cpu.h) is not among the sources: the test of a vector
    register index against the current register grouping. *)
Variable V_IDX_INVALID : CPUState -> Z -> bool.

Definition xlen : Z := if TARGET_RISCV64 then 64 else 32.

(** Modelled from the spec: [helper_raise_exception] records the exception
    and leaves the helper; it does not return. *)
Definition helper_raise_exception (env : CPUState) (excp : Z) : helper_result :=
  HRaise (set_exception_index env excp).

(** Sequencing of helper code that may leave through an exception. *)
Definition and_then (r : helper_result) (k : CPUState -> helper_result) : helper_result :=
  match r with
  | HReturn e _ => k e
  | HRaise e => HRaise e
  end.

Definition require_vec (env : CPUState) : helper_result :=
  if Z.land (mstatus env) MSTATUS_VS =? 0
  then helper_raise_exception env RISCV_EXCP_ILLEGAL_INST
  else HReturn env 0.

(** [vlen / vsew * vflmul] is a [float] product in C; it is kept exact
    here, which is the C value as long as [vlen / vsew] is below 2^24. *)
Definition helper_vsetvl (env : CPUState) (rd rs1 rs1_pass rs2_pass is_rs1_imm : Z)
  : helper_result :=
  and_then (require_vec env) (fun env =>
  let u := vec env in
  let prev_csr_vl := vl u in
  let vlen := wrap xlen (vlenb u * 8) in
  let vtype0 := rs2_pass in
  let vsew' := wrap xlen (Z.shiftl 1 (GET_VTYPE_VSEW rs2_pass + 3)) in
  let vlmul' := GET_VTYPE_VLMUL rs2_pass in
  (* int8_t vlmul = (int8_t)(env->vlmul << 5) >> 5; *)
  let vlmul_s := Z.shiftr (signed 8 (Z.shiftl vlmul' 5)) 5 in
  let vflmul' : Q :=
    if 0 <=? vlmul_s then inject_Z (Z.shiftl 1 vlmul_s)
    else (1 / inject_Z (Z.shiftl 1 (- vlmul_s)))%Q in
  let vlmax0 := wrap xlen (Qfloor (inject_Z (vlen / vsew') * vflmul')%Q) in
  let vta' := GET_VTYPE_VTA rs2_pass in
  let vma' := GET_VTYPE_VMA rs2_pass in
  let ceil_vfmul : Q := if Qle_bool vflmul' 1 then vflmul' else 1%Q in
  let vill' :=
    negb (Qle_bool (1 # 8) vflmul' && Qle_bool vflmul' (inject_Z 8))
    || negb (Qle_bool (inject_Z vsew') (ceil_vfmul * inject_Z (elen u))%Q)
    || negb (Z.shiftr rs2_pass 8 =? 0) in
  let vtype' :=
    if vill' then Z.lor vtype0 (Z.shiftl 1 (xlen - 1)) else vtype0 in
  let vlmax' := if vill' then 0 else vlmax0 in
  let vl' :=
    if is_rs1_imm =? 1 then (* vsetivli *)
      MIN rs1_pass vlmax'
    else if vlmax' =? 0 then (* AVL encoding for vsetvl and vsetvli *)
      0
    else if (rd =? 0) && (rs1 =? 0) then
      (* Keep existing VL value *)
      MIN prev_csr_vl vlmax'
    else if (rs1 =? 0) && negb (rd =? 0) then
      vlmax'
    else (* Normal stripmining (rs1 != 0) *)
      MIN rs1_pass vlmax' in
  HReturn (set_vec env (mkVec vl' vtype' vsew' vlmul' vflmul' vlmax' vta' vma'
                              vill' 0 (vlenb u) (elen u) (v u)))
          vl').

(** ** Element access *)

(** [V(x)]: the offset of vector register [x] in the register file. *)
Definition V_ (env : CPUState) (x : Z) : Z := x * vlenb (vec env).

(** [((uintN_t * )V(x))[i]] for [N = bits]. *)
Definition velem (env : CPUState) (bits x i : Z) : Z :=
  load_bytes (Z.to_nat (bits / 8)) (v (vec env)) (V_ env x + i * (bits / 8)).

Definition set_v (env : CPUState) (f : Z -> Z) : CPUState :=
  let u := vec env in
  set_vec env (mkVec (vl u) (vtype u) (vsew u) (vlmul u) (vflmul u) (vlmax u)
                     (vta u) (vma u) (vill u) (vstart u) (vlenb u) (elen u) f).

(** [((uintN_t * )V(x))[i] = val]: the value is truncated to [N] bits. *)
Definition set_velem (env : CPUState) (bits x i val : Z) : CPUState :=
  set_v env (store_bytes (Z.to_nat (bits / 8)) (v (vec env))
                         (V_ env x + i * (bits / 8)) val).

(** [V(0)[i >> 3] & (1 << (i & 0x7))], as a truth value. *)
Definition mask_bit (env : CPUState) (i : Z) : bool :=
  negb (Z.land (velem env 8 0 (Z.shiftr i 3)) (Z.shiftl 1 (Z.land i 0x7)) =? 0).

(** [if (!(i & 0x7)) V(vd)[i >> 3] = 0;] *)
Definition mask_clear (env : CPUState) (vd i : Z) : CPUState :=
  if Z.land i 0x7 =? 0 then set_velem env 8 vd (Z.shiftr i 3) 0 else env.

(** [V(vd)[i >> 3] |= b << (i & 0x7);] *)
Definition mask_or (env : CPUState) (vd i : Z) (b : bool) : CPUState :=
  set_velem env 8 vd (Z.shiftr i 3)
    (Z.lor (velem env 8 vd (Z.shiftr i 3)) (Z.shiftl (b2z b) (Z.land i 0x7))).

(** [for (int i = from; i < env->vl; ++i) body]: [n] passes starting at
    [i]; an exception raised by the body leaves the helper.  The C index is
    an [int]: the loop is meant for [from] and [vl] below 2^31, where the
    conversion of [env->vstart] to [int] changes nothing. *)
Fixpoint vloop (n : nat) (i : Z) (body : Z -> CPUState -> helper_result)
         (env : CPUState) : helper_result :=
  match n with
  | O => HReturn env 0
  | S k => and_then (body i env) (vloop k (i + 1) body)
  end.

Definition for_elements (from : Z) (body : Z -> CPUState -> helper_result)
           (env : CPUState) : helper_result :=
  vloop (Z.to_nat (vl (vec env) - from)) from body env.

(** [switch (eew)] with the same statement, up to the element type, in the
    arms 8, 16, 32 and 64 and an exception in the default arm. *)
Definition switch_eew (eew : Z) (arm : Z -> CPUState) (env : CPUState) : helper_result :=
  if (eew =? 8) || (eew =? 16) || (eew =? 32) || (eew =? 64)
  then HReturn (arm eew) 0
  else helper_raise_exception env RISCV_EXCP_ILLEGAL_INST.

(** The C type an operand of an [N]-bit unsigned type is computed in:
    [int] below 32 bits, the type itself from 32 bits on. *)
Definition promoted (bits : Z) : Z := Z.max bits 32.

(** [!x] for [x] computed in a [w]-bit type. *)
Definition lnot_c (w x : Z) : bool := wrap w x =? 0.

Definition invalid_then (b : bool) (env : CPUState) (k : CPUState -> helper_result)
  : helper_result :=
  and_then (if b then helper_raise_exception env RISCV_EXCP_ILLEGAL_INST
            else HReturn env 0) k.

Definition helper_vmv_ivi (env : CPUState) (vd imm : Z) : helper_result :=
  let eew := vsew (vec env) in
  invalid_then (V_IDX_INVALID env vd) env
    (fun env => for_elements (vstart (vec env)) (fun ei env =>
       switch_eew eew (fun w => set_velem env w vd ei imm) env) env).

Definition helper_vmv_ivv (env : CPUState) (vd vs1 : Z) : helper_result :=
  let eew := vsew (vec env) in
  invalid_then (V_IDX_INVALID env vd || V_IDX_INVALID env vs1) env
    (fun env => for_elements (vstart (vec env)) (fun i env =>
       switch_eew eew (fun w => set_velem env w vd i (velem env w vs1 i)) env) env).

Definition helper_vmerge_ivv (env : CPUState) (vd vs2 vs1 : Z) : helper_result :=
  invalid_then (V_IDX_INVALID env vd || V_IDX_INVALID env vs2 || V_IDX_INVALID env vs1) env
    (fun env =>
     let eew := vsew (vec env) in
     for_elements (vstart (vec env)) (fun ei env =>
       let mask := negb (mask_bit env ei) in
       switch_eew eew (fun w =>
         set_velem env w vd ei (if mask then velem env w vs2 ei else velem env w vs1 ei))
         env) env).

Definition helper_vmerge_ivi (env : CPUState) (vd vs2 rs1 : Z) : helper_result :=
  invalid_then (V_IDX_INVALID env vd || V_IDX_INVALID env vs2) env
    (fun env =>
     let eew := vsew (vec env) in
     for_elements (vstart (vec env)) (fun ei env =>
       let mask := negb (mask_bit env ei) in
       switch_eew eew (fun w =>
         set_velem env w vd ei (if mask then velem env w vs2 ei else rs1))
         env) env).

Definition helper_vadc_vvm (env : CPUState) (vd vs2 vs1 : Z) : helper_result :=
  invalid_then (V_IDX_INVALID env vd || V_IDX_INVALID env vs2 || V_IDX_INVALID env vs1) env
    (fun env =>
     let eew := vsew (vec env) in
     for_elements 0 (fun i env =>
       let carry := b2z (mask_bit env i) in
       switch_eew eew (fun w =>
         set_velem env w vd i (velem env w vs2 i + velem env w vs1 i + carry))
         env) env).

Definition helper_vmadc_vv (env : CPUState) (vd vs2 vs1 : Z) : helper_result :=
  invalid_then (V_IDX_INVALID env vs2 || V_IDX_INVALID env vs1) env
    (fun env =>
     let eew := vsew (vec env) in
     for_elements 0 (fun i env =>
       let env := mask_clear env vd i in
       switch_eew eew (fun w =>
         let a := velem env w vs2 i in
         (* a + vs1[i] is computed in the promoted type *)
         mask_or env vd i (wrap (promoted w) (a + velem env w vs1 i) <? a))
         env) env).

Definition helper_vmadc_vvm (env : CPUState) (vd vs2 vs1 : Z) : helper_result :=
  invalid_then (V_IDX_INVALID env vs2 || V_IDX_INVALID env vs1) env
    (fun env =>
     let eew := vsew (vec env) in
     for_elements 0 (fun i env =>
       let env := mask_clear env vd i in
       let carry := mask_bit env i in
       switch_eew eew (fun w =>
         let a := velem env w vs2 i in
         (* uintN_t ab = a + vs1[i]; *)
         let ab := wrap w (a + velem env w vs1 i) in
         (* ab + 1 is computed in the promoted type *)
         mask_or env vd i ((ab <? a) || (carry && lnot_c (promoted w) (ab + 1))))
         env) env).

Definition helper_vsbc_vvm (env : CPUState) (vd vs2 vs1 : Z) : helper_result :=
  invalid_then (V_IDX_INVALID env vd || V_IDX_INVALID env vs2 || V_IDX_INVALID env vs1) env
    (fun env =>
     let eew := vsew (vec env) in
     for_elements 0 (fun i env =>
       let borrow := b2z (mask_bit env i) in
       switch_eew eew (fun w =>
         set_velem env w vd i (velem env w vs2 i - velem env w vs1 i - borrow))
         env) env).

Definition helper_vmsbc_vv (env : CPUState) (vd vs2 vs1 : Z) : helper_result :=
  invalid_then (V_IDX_INVALID env vs2 || V_IDX_INVALID env vs1) env
    (fun env =>
     let eew := vsew (vec env) in
     for_elements 0 (fun i env =>
       let env := mask_clear env vd i in
       switch_eew eew (fun w =>
         mask_or env vd i (velem env w vs2 i <? velem env w vs1 i))
         env) env).

Definition helper_vmsbc_vvm (env : CPUState) (vd vs2 vs1 : Z) : helper_result :=
  invalid_then (V_IDX_INVALID env vs2 || V_IDX_INVALID env vs1) env
    (fun env =>
     let eew := vsew (vec env) in
     for_elements 0 (fun i env =>
       let env := mask_clear env vd i in
       let borrow := mask_bit env i in
       switch_eew eew (fun w =>
         let b := velem env w vs1 i in
         (* b + 1 is computed in the promoted type *)
         mask_or env vd i ((velem env w vs2 i <? b)
                           || (borrow && lnot_c (promoted w) (b + 1))))
         env) env).

(** In the immediate forms [rs1] is a [target_ulong]: sums and comparisons
    with it are computed in [max(N, XLEN)] bits. *)
Definition helper_vadc_vi (env : CPUState) (vd vs2 rs1 : Z) : helper_result :=
  invalid_then (V_IDX_INVALID env vd || V_IDX_INVALID env vs2) env
    (fun env =>
     let eew := vsew (vec env) in
     for_elements 0 (fun i env =>
       let carry := b2z (mask_bit env i) in
       switch_eew eew (fun w =>
         set_velem env w vd i (velem env w vs2 i + rs1 + carry))
         env) env).

Definition helper_vmadc_vi (env : CPUState) (vd vs2 rs1 : Z) : helper_result :=
  invalid_then (V_IDX_INVALID env vs2) env
    (fun env =>
     let eew := vsew (vec env) in
     for_elements 0 (fun i env =>
       let env := mask_clear env vd i in
       switch_eew eew (fun w =>
         let a := velem env w vs2 i in
         mask_or env vd i (wrap (Z.max w xlen) (a + rs1) <? a))
         env) env).

Definition helper_vmadc_vim (env : CPUState) (vd vs2 rs1 : Z) : helper_result :=
  invalid_then (V_IDX_INVALID env vs2) env
    (fun env =>
     let eew := vsew (vec env) in
     for_elements 0 (fun i env =>
       let env := mask_clear env vd i in
       let carry := mask_bit env i in
       if (eew =? 8) || (eew =? 16) || (eew =? 64) then
         let a := velem env eew vs2 i in
         (* uint64_t ab = a + rs1; *)
         let ab := wrap (Z.max eew xlen) (a + rs1) in
         HReturn (mask_or env vd i ((ab <? a) || (carry && lnot_c 64 (ab + 1)))) 0
       else if eew =? 32 then
         let a := velem env 32 vs2 i in
         (* uint32_t ab = a + rs1; *)
         let ab := wrap 32 (a + rs1) in
         HReturn (mask_or env vd i ((ab <? a) || (carry && lnot_c 32 (ab + 1)))) 0
       else helper_raise_exception env RISCV_EXCP_ILLEGAL_INST) env).

Definition helper_vsbc_vi (env : CPUState) (vd vs2 rs1 : Z) : helper_result :=
  invalid_then (V_IDX_INVALID env vd || V_IDX_INVALID env vs2) env
    (fun env =>
     let eew := vsew (vec env) in
     for_elements 0 (fun i env =>
       let borrow := b2z (mask_bit env i) in
       switch_eew eew (fun w =>
         set_velem env w vd i (velem env w vs2 i - rs1 - borrow))
         env) env).

Definition helper_vmsbc_vi (env : CPUState) (vd vs2 rs1 : Z) : helper_result :=
  invalid_then (V_IDX_INVALID env vs2) env
    (fun env =>
     let eew := vsew (vec env) in
     for_elements 0 (fun i env =>
       let env := mask_clear env vd i in
       switch_eew eew (fun w =>
         mask_or env vd i (velem env w vs2 i <? wrap xlen rs1))
         env) env).

Definition helper_vmsbc_vim (env : CPUState) (vd vs2 rs1 : Z) : helper_result :=
  invalid_then (V_IDX_INVALID env vs2) env
    (fun env =>
     let eew := vsew (vec env) in
     for_elements 0 (fun i env =>
       let env := mask_clear env vd i in
       let borrow := mask_bit env i in
       switch_eew eew (fun w =>
         mask_or env vd i ((velem env w vs2 i <? wrap xlen rs1)
                           || (borrow && lnot_c xlen (rs1 + 1))))
         env) env).

End VectorHelper.

(* ===================================================================== *)
(** * Reference semantics the generated code is compared with *)
(* ===================================================================== *)

(** The value instruction operand [r] has in a machine: [x0] reads as zero. *)
Definition reg (m : Machine) (r : Z) : Z := if r =? 0 then 0 else gpr (env m) r.

Inductive divrem := DR_DIV | DR_DIVU | DR_REM | DR_REMU.

(** Division and remainder of the RISC-V M extension on [w]-bit operands:
    a zero divisor gives an all-ones quotient and the dividend as remainder,
    the signed overflow gives the dividend as quotient and a zero remainder,
    every other pair the truncating quotient and remainder. *)
Definition riscv_divrem (w : Z) (o : divrem) (a b : Z) : Z :=
  match o with
  | DR_DIV =>
      if wrap w b =? 0 then 2 ^ w - 1
      else if (wrap w a =? 2 ^ (w - 1)) && (wrap w b =? 2 ^ w - 1) then wrap w a
      else wrap w (Z.quot (signed w a) (signed w b))
  | DR_REM =>
      if wrap w b =? 0 then wrap w a
      else if (wrap w a =? 2 ^ (w - 1)) && (wrap w b =? 2 ^ w - 1) then 0
      else wrap w (Z.rem (signed w a) (signed w b))
  | DR_DIVU =>
      if wrap w b =? 0 then 2 ^ w - 1 else wrap w a / wrap w b
  | DR_REMU =>
      if wrap w b =? 0 then wrap w a else wrap w a mod wrap w b
  end.

Definition divrem_opc (o : divrem) (wform : bool) : Z :=
  match o, wform with
  | DR_DIV, false => OPC_RISC_DIV
  | DR_DIVU, false => OPC_RISC_DIVU
  | DR_REM, false => OPC_RISC_REM
  | DR_REMU, false => OPC_RISC_REMU
  | DR_DIV, true => OPC_RISC_DIVW
  | DR_DIVU, true => OPC_RISC_DIVUW
  | DR_REM, true => OPC_RISC_REMW
  | DR_REMU, true => OPC_RISC_REMUW
  end.

(** What a div/rem instruction leaves in [rd]: the W forms work on the low 32
    bits of the operands and sign-extend their 32-bit result. *)
Definition divrem_result (rv64 : bool) (o : divrem) (wform : bool) (a b : Z) : Z :=
  let X := if rv64 then 64 else 32 in
  if wform then wrap X (signed 32 (riscv_divrem 32 o a b)) else riscv_divrem X o a b.

Inductive shift_imm := SH_SLLI | SH_SHIFT_RIGHT_I.

Definition shift_imm_opc (k : shift_imm) (wform : bool) : Z :=
  match k, wform with
  | SH_SLLI, false => OPC_RISC_SLLI
  | SH_SLLI, true => OPC_RISC_SLLIW
  | SH_SHIFT_RIGHT_I, false => OPC_RISC_SHIFT_RIGHT_I
  | SH_SHIFT_RIGHT_I, true => OPC_RISC_SHIFT_RIGHT_IW
  end.

(** The shift amount of an immediate shift: the 12-bit immediate field of
    the instruction, read as an unsigned number, itself for the left
    shifts and without its bit 10 for the right shifts.  [imm] is the
    sign-extended field the decoder passes on. *)
Definition shamt_of (k : shift_imm) (imm : Z) : Z :=
  match k with
  | SH_SLLI => wrap 12 imm
  | SH_SHIFT_RIGHT_I => Z.land (wrap 12 imm) 0xbff
  end.

(** What an immediate shift does on XLEN [X]: [None] is the
    illegal-instruction exception, [Some v] the value written to [rd].  The W
    forms shift the low 32 bits of the operand and sign-extend the 32-bit
    result; bit 10 of the immediate makes a right shift arithmetic. *)
Definition riscv_shift_imm (X : Z) (k : shift_imm) (wform : bool) (a imm : Z) : option Z :=
  let s := shamt_of k imm in
  if (if wform then 32 else X) <=? s then None
  else
    Some match k, wform with
         | SH_SLLI, false => wrap X (Z.shiftl (wrap X a) s)
         | SH_SLLI, true => wrap X (signed 32 (Z.shiftl (wrap X a) s))
         | SH_SHIFT_RIGHT_I, false =>
             if negb (Z.land imm 0x400 =? 0)
             then wrap X (Z.shiftr (signed X a) s)
             else Z.shiftr (wrap X a) s
         | SH_SHIFT_RIGHT_I, true =>
             if negb (Z.land imm 0x400 =? 0)
             then wrap X (signed 32 (Z.shiftr (signed 32 a) s))
             else wrap X (signed 32 (Z.shiftr (wrap 32 a) s))
         end.

(** The CPU state an illegal-instruction exception raised by the instruction
    at [pc] leaves behind. *)
Definition illegal_at (X : Z) (e : CPUState) (pc : Z) : CPUState :=
  set_exception_index (set_pc e (wrap X pc)) RISCV_EXCP_ILLEGAL_INST.

(** A register write as an instruction performs it: a write to [x0] is
    dropped. *)
Definition write_gpr (e : CPUState) (rd v : Z) : CPUState :=
  if rd =? 0 then e else set_gpr e rd v.

Inductive amo :=
| AMO_LR | AMO_SC | AMO_SWAP | AMO_ADD | AMO_XOR | AMO_AND | AMO_OR
| AMO_MIN | AMO_MAX | AMO_MINU | AMO_MAXU.

Definition amo_opc (a : amo) (dform : bool) : Z :=
  match a, dform with
  | AMO_LR, false => OPC_RISC_LR_W | AMO_LR, true => OPC_RISC_LR_D
  | AMO_SC, false => OPC_RISC_SC_W | AMO_SC, true => OPC_RISC_SC_D
  | AMO_SWAP, false => OPC_RISC_AMOSWAP_W | AMO_SWAP, true => OPC_RISC_AMOSWAP_D
  | AMO_ADD, false => OPC_RISC_AMOADD_W | AMO_ADD, true => OPC_RISC_AMOADD_D
  | AMO_XOR, false => OPC_RISC_AMOXOR_W | AMO_XOR, true => OPC_RISC_AMOXOR_D
  | AMO_AND, false => OPC_RISC_AMOAND_W | AMO_AND, true => OPC_RISC_AMOAND_D
  | AMO_OR, false => OPC_RISC_AMOOR_W | AMO_OR, true => OPC_RISC_AMOOR_D
  | AMO_MIN, false => OPC_RISC_AMOMIN_W | AMO_MIN, true => OPC_RISC_AMOMIN_D
  | AMO_MAX, false => OPC_RISC_AMOMAX_W | AMO_MAX, true => OPC_RISC_AMOMAX_D
  | AMO_MINU, false => OPC_RISC_AMOMINU_W | AMO_MINU, true => OPC_RISC_AMOMINU_D
  | AMO_MAXU, false => OPC_RISC_AMOMAXU_W | AMO_MAXU, true => OPC_RISC_AMOMAXU_D
  end.

(** The uncontended reading of the A extension on XLEN [X]: [addr] and
    [src] are the values of [rs1] and [rs2], the access is 4 bytes (loaded
    sign-extended) for the W forms and 8 bytes for the D forms. *)
Definition amo_size (dform : bool) : nat := if dform then 8%nat else 4%nat.

Definition amo_old (X : Z) (dform : bool) (mm : memory) (addr : Z) : Z :=
  let raw := load_bytes (amo_size dform) mm addr in
  wrap X (if dform then raw else signed 32 raw).

Definition amo_bits (dform : bool) : Z := if dform then 64 else 32.

(** The value an AMO stores, or [None] when it leaves memory alone.  The
    min and max forms order the memory operand and the source as numbers of
    the access width: 32 bits for the W forms, also on RV64. *)
Definition amo_store (X : Z) (a : amo) (dform : bool) (old src : Z) : option Z :=
  let w := amo_bits dform in
  match a with
  | AMO_LR => None
  | AMO_SC => Some src
  | AMO_SWAP => Some src
  | AMO_ADD => Some (wrap X (old + src))
  | AMO_XOR => Some (wrap X (Z.lxor old src))
  | AMO_AND => Some (wrap X (Z.land old src))
  | AMO_OR => Some (wrap X (Z.lor old src))
  | AMO_MIN => if signed w old <? signed w src then None else Some src
  | AMO_MAX => if signed w src <? signed w old then None else Some src
  | AMO_MINU => if wrap w old <? wrap w src then None else Some src
  | AMO_MAXU => if wrap w src <? wrap w old then None else Some src
  end.

Definition amo_mem (X : Z) (a : amo) (dform : bool) (mm : memory) (addr src : Z) : memory :=
  match amo_store X a dform (amo_old X dform mm addr) src with
  | Some v => store_bytes (amo_size dform) mm addr v
  | None => mm
  end.

(** The min and max forms. *)
Definition amo_orders (a : amo) : bool :=
  match a with
  | AMO_MIN | AMO_MAX | AMO_MINU | AMO_MAXU => true
  | _ => false
  end.

Definition amo_rd (X : Z) (a : amo) (dform : bool) (mm : memory) (addr : Z) : Z :=
  match a with
  | AMO_SC => 0
  | _ => amo_old X dform mm addr
  end.

(** The three kinds of instruction that set the program counter. *)
Inductive jump :=
| J_JAL (rd imm : Z)
| J_JALR (rd rs1 imm : Z)
| J_BRANCH (opc rs1 rs2 bimm : Z).

Definition gen_jump (rv64 : bool) (tenv : CPUState) (j : jump) : M unit :=
  match j with
  | J_JAL rd imm => gen_jal rv64 tenv rd imm
  | J_JALR rd rs1 imm => gen_jalr rv64 tenv OPC_RISC_JALR rd rs1 imm
  | J_BRANCH opc rs1 rs2 bimm => gen_branch rv64 tenv opc rs1 rs2 bimm
  end.

Definition branch_cond (opc : Z) : option TCGCond :=
  if opc =? OPC_RISC_BEQ then Some TCG_COND_EQ
  else if opc =? OPC_RISC_BNE then Some TCG_COND_NE
  else if opc =? OPC_RISC_BLT then Some TCG_COND_LT
  else if opc =? OPC_RISC_BGE then Some TCG_COND_GE
  else if opc =? OPC_RISC_BLTU then Some TCG_COND_LTU
  else if opc =? OPC_RISC_BGEU then Some TCG_COND_GEU
  else None.

(** The address the instruction at [pc] transfers control to. *)
Definition jump_target (X : Z) (pc : Z) (m : Machine) (j : jump) : Z :=
  match j with
  | J_JAL _ imm => wrap X (pc + imm)
  | J_JALR _ rs1 imm => Z.land (wrap X (reg m rs1 + imm)) (wrap X (-2))
  | J_BRANCH _ _ _ bimm => wrap X (pc + bimm)
  end.

(** Whether control is transferred: always for the jumps, when the
    comparison holds for a conditional branch. *)
Definition jump_taken (X : Z) (m : Machine) (j : jump) : bool :=
  match j with
  | J_BRANCH opc rs1 rs2 _ =>
      match branch_cond opc with
      | Some cnd => eval_cond X cnd (reg m rs1) (reg m rs2)
      | None => false
      end
  | _ => true
  end.

(** The CPU state the instruction-address-misaligned exception raised by
    the instruction at [pc] leaves behind: the program counter and the bad
    address both hold [pc]. *)
Definition misaligned_at (X : Z) (e : CPUState) (pc : Z) : CPUState :=
  set_badaddr (set_exception_index (set_pc e (wrap X pc)) RISCV_EXCP_INST_ADDR_MIS)
              (wrap X pc).

Inductive fma := FMA_FMADD | FMA_FMSUB | FMA_FNMSUB | FMA_FNMADD.

Definition gen_fma (rv64 : bool) (f : fma) : Z -> Z -> Z -> Z -> Z -> Z -> M unit :=
  match f with
  | FMA_FMADD => gen_fp_fmadd rv64
  | FMA_FMSUB => gen_fp_fmsub rv64
  | FMA_FNMSUB => gen_fp_fnmsub rv64
  | FMA_FNMADD => gen_fp_fnmadd rv64
  end.

(** The floating-point instructions of [translate.c], by translator: the
    loads and stores, everything [gen_fp_arith] decodes (arithmetic, square
    root, minimum and maximum, comparisons, conversions, sign injections,
    classification and the moves between the register files) and the fused
    multiply-adds.  The opcode fields are not restricted: a value without
    an arm is an instruction too. *)
Inductive fp_insn :=
| FP_LOAD (opc rd rs1 imm : Z)
| FP_STORE (opc rs1 rs2 imm : Z)
| FP_ARITH (opc rd rs1 rs2 rm : Z)
| FP_FMA (f : fma) (opc rd rs1 rs2 rs3 rm : Z).

Definition gen_fp_insn (rv64 : bool) (i : fp_insn) : M unit :=
  match i with
  | FP_LOAD opc rd rs1 imm => gen_fp_load rv64 opc rd rs1 imm
  | FP_STORE opc rs1 rs2 imm => gen_fp_store rv64 opc rs1 rs2 imm
  | FP_ARITH opc rd rs1 rs2 rm => gen_fp_arith rv64 opc rd rs1 rs2 rm
  | FP_FMA f opc rd rs1 rs2 rs3 rm => gen_fma rv64 f opc rd rs1 rs2 rs3 rm
  end.





(** ** What generated code may write, and where exceptions are raised *)

(** The values an operation writes. *)
Definition dests (o : tcg_op) : list TCGv :=
  match o with
  | Mov _ d _ | Bin _ _ d _ _ | Not _ d _ | Setcond _ _ d _ _
  | Movcond _ _ d _ _ _ _ | Ext _ _ _ d _ | LdMstatus _ d
  | QemuLd _ _ _ d _ _ => [d]
  | Mul2 _ _ lo hi _ _ => [lo; hi]
  | Call _ (Some d) _ => [d]
  | _ => []
  end.

(** The operands an operation reads. *)
Definition srcs (o : tcg_op) : list operand :=
  match o with
  | Mov _ _ a | Not _ _ a | Ext _ _ _ _ a | QemuLd _ _ _ _ a _ => [a]
  | Bin _ _ _ a b | Setcond _ _ _ a b | Mul2 _ _ _ _ a b | Brcond _ _ a b _
  | QemuSt _ a b _ => [a; b]
  | Movcond _ _ _ c1 c2 v1 v2 => [c1; c2; v1; v2]
  | Call _ _ args => args
  | _ => []
  end.

(** An operation writes general-purpose registers only among those of [R],
    and does not read the placeholder [cpu_gpr 0]. *)
Definition safe (R : Z -> Prop) (o : tcg_op) : Prop :=
  (forall r, In (cpu_gpr r) (dests o) -> R r)
  /\ ~ In (V (cpu_gpr 0)) (srcs o).

(** A register number a translator may write: never register 0. *)
Definition allowed (R : Z -> Prop) (r : Z) : Prop := r <> 0 -> R r.

(** The call [generate_exception] emits. *)
Definition is_raise (o : tcg_op) : bool :=
  match o with
  | Call h _ _ => String.eqb h "raise_exception"
  | _ => false
  end.

Definition raises (ops : list tcg_op) : bool := existsb is_raise ops.

(** The operations appended to the buffer since it held [n] of them. *)
Definition appended (n : nat) (s : TState) : list tcg_op :=
  skipn n (gen_opc_buf (tcg s)).

(** The invariant of the translators while they work on the instruction word
    [op]: what was appended writes only the registers of [R]; once an
    exception raise was appended the block state is no longer [BS_NONE]; the
    context still holds [op]. *)
Definition Inv (R : Z -> Prop) (n : nat) (op : Z) (s : TState) : Prop :=
  (n <= List.length (gen_opc_buf (tcg s)))%nat
  /\ Forall (safe R) (appended n s)
  /\ (raises (appended n s) = true -> ctx_bstate (ctx s) <> BS_NONE)
  /\ ctx_opcode (ctx s) = op.

Definition keeps (R : Z -> Prop) (n : nat) (op : Z) {A} (m : M A) : Prop :=
  forall s, Inv R n op s -> Inv R n op (snd (m s)).

(** The CPU state an outcome ends in, when it has one. *)
Definition outcome_env (o : outcome) : option CPUState :=
  match o with
  | Fallthrough m | Exit m _ => Some (env m)
  | Raised e _ => Some e
  | Unspecified => None
  end.

Definition helper_env (r : helper_result) : CPUState :=
  match r with HReturn e _ | HRaise e => e end.

(** The helpers outside the translator do not write general-purpose
    registers: results reach them through the generated code only. *)
(** Register [r] holds [v0] where the outcome has a CPU state. *)
Definition gpr_is (r v0 : Z) (o : outcome) : Prop :=
  match outcome_env o with
  | Some e => gpr e r = v0
  | None => True
  end.

Definition helpers_keep_gprs (hs : string -> list Z -> CPUState -> helper_result) : Prop :=
  forall h args e r, gpr (helper_env (hs h args e)) r = gpr e r.

(** The general-purpose register an instruction names as its destination,
    0 when it names none.  A full-size instruction has it in bits 11:7; a
    compressed one in bits 11:7, in bits 4:2 or 9:7 (registers x8 to x15),
    or implicitly (x1 for [c.jal] and [c.jalr]), by quadrant and funct3 as
    the C extension lays them out. *)
Definition c_insn_rd (rv64 : bool) (opcode : Z) : Z :=
  let funct3 := extract32 opcode 13 3 in
  let quadrant := extract32 opcode 0 2 in
  if quadrant =? 0 then
    if funct3 =? 0 then GET_C_RS2S opcode                         (* c.addi4spn *)
    else if funct3 =? 2 then GET_C_RS2S opcode                    (* c.lw *)
    else if funct3 =? 3 then (if rv64 then GET_C_RS2S opcode else 0) (* c.ld; c.flw *)
    else 0                                           (* c.fld, stores, reserved *)
  else if quadrant =? 1 then
    if funct3 =? 0 then GET_C_RS1 opcode                          (* c.addi, c.nop *)
    else if funct3 =? 1 then (if rv64 then GET_C_RS1 opcode else 1) (* c.addiw; c.jal *)
    else if funct3 =? 2 then GET_C_RS1 opcode                     (* c.li *)
    else if funct3 =? 3 then GET_C_RS1 opcode                     (* c.addi16sp, c.lui *)
    else if funct3 =? 4 then GET_C_RS1S opcode                    (* c.srli ... c.and *)
    else 0                                                  (* c.j, c.beqz, c.bnez *)
  else if quadrant =? 2 then
    if funct3 =? 0 then GET_RD opcode                             (* c.slli *)
    else if funct3 =? 2 then GET_RD opcode                        (* c.lwsp *)
    else if funct3 =? 3 then (if rv64 then GET_RD opcode else 0)  (* c.ldsp; c.flwsp *)
    else if funct3 =? 4 then
      if extract32 opcode 12 1 =? 0 then
        (if GET_C_RS2 opcode =? 0 then 0 else GET_RD opcode)      (* c.jr; c.mv *)
      else if GET_RD opcode =? 0 then 0                           (* c.ebreak *)
      else if GET_C_RS2 opcode =? 0 then 1                        (* c.jalr *)
      else GET_RD opcode                                          (* c.add *)
    else 0                                                  (* c.fldsp, stores *)
  else 0.

Definition insn_rd (rv64 : bool) (opcode : Z) : Z :=
  if extract32 opcode 0 2 =? 3 then GET_RD opcode else c_insn_rd rv64 opcode.

(** The registers an instruction may write: its destination, unless that
    is x0. *)
Definition dest_only (rv64 : bool) (opcode : Z) : Z -> Prop :=
  fun x => x = insn_rd rv64 opcode /\ x <> 0.

(** An operation neither writes nor reads the placeholder [cpu_gpr 0]. *)
Definition unused_gpr0 (o : tcg_op) : Prop :=
  ~ In (cpu_gpr 0) (dests o) /\ ~ In (V (cpu_gpr 0)) (srcs o).

(** How the translation loop ends when the instruction it has just
    translated left a block state other than [BS_NONE]. *)
Definition stops_after (s1 : TState) : loop_result :=
  if negb (temps_in_use (tcg s1) =? 0) then Aborted else Translated s1.

(** ** Reference points for the vector helpers *)

(** Carry out of the [w]-bit sum [a + b + c] and borrow out of the [w]-bit
    difference [a - b - c]. *)
Definition carry_out (w a b : Z) (c : bool) : bool := 2 ^ w <=? a + b + b2z c.
Definition borrow_out (a b : Z) (c : bool) : bool := a <? b + b2z c.

(** Bit [i] of the mask held in vector register [vd]. *)
Definition vmask (e : CPUState) (vd i : Z) : bool :=
  Z.testbit (load_bytes 1 (v (vec e)) (vd * vlenb (vec e) + Z.shiftr i 3)) (Z.land i 0x7).

(** A vector register file given by the bytes that are not zero. *)
Definition vbytes (l : list (Z * Z)) : Z -> Z :=
  fun a => match find (fun p => fst p =? a) l with
           | Some p => snd p
           | None => 0
           end.

(** A CPU with the vector unit enabled, 128-bit vector registers, and the
    given [vstart], [vl], [vsew] and register file. *)
Definition vcpu (vstart0 vl0 vsew0 : Z) (l : list (Z * Z)) : CPUState :=
  mkCPUState (fun _ => 0) (fun _ => 0) 0 MSTATUS_VS 0 0 0 false []
    (mkVec vl0 0 vsew0 0 1 16 0 0 false vstart0 16 64 (vbytes l)).

(** No vector register index is rejected. *)
Definition any_vreg : CPUState -> Z -> bool := fun _ _ => false.

(** ** Concrete inputs for the examples *)

(** A context for the instruction word [opcode] at address [pc], at the
    start of a translation block. *)
Definition ctx_at (pc opcode : Z) : DisasContext :=
  mkCtx (mkTB pc 0 0 0 0 false 0) pc (pc + 4) opcode false 0 BS_NONE.

(** A CPU with x1 = 7 and every other register zero, [mstatus] zero (so the
    FS and VS fields are off) and no extension bit set in [misa]. *)
Definition cpu_x1 : CPUState :=
  mkCPUState (fun r => if r =? 1 then 7 else 0) (fun _ => 0) 0 0 0 0 0 false []
    (mkVec 0 0 8 0 1 16 0 0 false 0 16 64 (fun _ => 0)).

Definition machine_x1 : Machine := mkMachine cpu_x1 (fun _ => 0) (fun _ => 0).

(** [cpu_x1] with the compressed extension. *)
Definition cpu_rvc : CPUState :=
  mkCPUState (gpr cpu_x1) (fpr cpu_x1) 0 0 RISCV_FEATURE_RVC 0 0 false [] (vec cpu_x1).

(** A machine for the atomics: x1 = 0x100 is the address, x2 the source,
    and the word at 0x100 is [word] (least significant byte first). *)
Definition machine_amo (src word : Z) : Machine :=
  mkMachine
    (mkCPUState (fun r => if r =? 1 then 0x100 else if r =? 2 then src else 0)
                (fun _ => 0) 0 0 0 0 0 false [] (vec cpu_x1))
    (fun a => if (0x100 <=? a) && (a <? 0x104)
              then wrap 8 (Z.shiftr word (8 * (a - 0x100))) else 0)
    (fun _ => 0).

(** Helpers that return 0 and leave the CPU state alone. *)
Definition quiet_helpers : string -> list Z -> CPUState -> helper_result :=
  fun _ _ e => HReturn e 0.
(* ===================================================================== *)
(** * Reference points for the further properties *)
(* ===================================================================== *)

(* ===================================================================== *)
(** * Further reference semantics *)
(* ===================================================================== *)

(** The register-register instructions of RV32I/RV64I that are not shifts. *)
Inductive alu := ALU_ADD | ALU_SUB | ALU_SLT | ALU_SLTU | ALU_XOR | ALU_OR | ALU_AND.

Definition alu_opc (o : alu) : Z :=
  match o with
  | ALU_ADD => OPC_RISC_ADD | ALU_SUB => OPC_RISC_SUB | ALU_SLT => OPC_RISC_SLT
  | ALU_SLTU => OPC_RISC_SLTU | ALU_XOR => OPC_RISC_XOR | ALU_OR => OPC_RISC_OR
  | ALU_AND => OPC_RISC_AND
  end.

Definition riscv_alu (w : Z) (o : alu) (a b : Z) : Z :=
  match o with
  | ALU_ADD => wrap w (a + b)
  | ALU_SUB => wrap w (a - b)
  | ALU_SLT => b2z (signed w a <? signed w b)
  | ALU_SLTU => b2z (wrap w a <? wrap w b)
  | ALU_XOR => wrap w (Z.lxor a b)
  | ALU_OR => wrap w (Z.lor a b)
  | ALU_AND => wrap w (Z.land a b)
  end.

(** The register shifts: the count is the low 5 (6 on 64 bits) bits of the
    second operand. *)
Inductive shift := SH_SLL | SH_SRL | SH_SRA.

Definition shift_opc (o : shift) (wform : bool) : Z :=
  match o, wform with
  | SH_SLL, false => OPC_RISC_SLL | SH_SLL, true => OPC_RISC_SLLW
  | SH_SRL, false => OPC_RISC_SRL | SH_SRL, true => OPC_RISC_SRLW
  | SH_SRA, false => OPC_RISC_SRA | SH_SRA, true => OPC_RISC_SRAW
  end.

Definition riscv_shift (w : Z) (o : shift) (a b : Z) : Z :=
  let count := Z.land b (w - 1) in
  match o with
  | SH_SLL => wrap w (Z.shiftl (wrap w a) count)
  | SH_SRL => Z.shiftr (wrap w a) count
  | SH_SRA => wrap w (Z.shiftr (signed w a) count)
  end.

(** The multiplications of the M extension. *)
Inductive mul := M_MUL | M_MULH | M_MULHSU | M_MULHU.

Definition mul_opc (o : mul) : Z :=
  match o with
  | M_MUL => OPC_RISC_MUL | M_MULH => OPC_RISC_MULH
  | M_MULHSU => OPC_RISC_MULHSU | M_MULHU => OPC_RISC_MULHU
  end.

Definition riscv_mul (w : Z) (o : mul) (a b : Z) : Z :=
  match o with
  | M_MUL => wrap w (a * b)
  | M_MULH => wrap w (signed w a * signed w b / 2 ^ w)
  | M_MULHSU => wrap w (signed w a * wrap w b / 2 ^ w)
  | M_MULHU => wrap w a * wrap w b / 2 ^ w
  end.

(** A 32-bit result as a W instruction leaves it in a register of [X] bits. *)
Definition sext32 (X v : Z) : Z := wrap X (signed 32 v).

(** The W forms of addition, subtraction and multiplication (RV64). *)
Inductive warith := W_ADDW | W_SUBW | W_MULW.

Definition warith_opc (o : warith) : Z :=
  match o with
  | W_ADDW => OPC_RISC_ADDW | W_SUBW => OPC_RISC_SUBW | W_MULW => OPC_RISC_MULW
  end.

Definition riscv_warith (o : warith) (a b : Z) : Z :=
  match o with
  | W_ADDW => wrap 32 (a + b)
  | W_SUBW => wrap 32 (a - b)
  | W_MULW => wrap 32 (a * b)
  end.

(** The register-immediate instructions other than the shifts; the second
    operand is the sign-extended immediate. *)
Inductive alui := I_ADDI | I_SLTI | I_SLTIU | I_XORI | I_ORI | I_ANDI.

Definition alui_opc (o : alui) : Z :=
  match o with
  | I_ADDI => OPC_RISC_ADDI | I_SLTI => OPC_RISC_SLTI | I_SLTIU => OPC_RISC_SLTIU
  | I_XORI => OPC_RISC_XORI | I_ORI => OPC_RISC_ORI | I_ANDI => OPC_RISC_ANDI
  end.

Definition alui_alu (o : alui) : alu :=
  match o with
  | I_ADDI => ALU_ADD | I_SLTI => ALU_SLT | I_SLTIU => ALU_SLTU
  | I_XORI => ALU_XOR | I_ORI => ALU_OR | I_ANDI => ALU_AND
  end.

(** Loads and stores. *)
Inductive load := L_B | L_H | L_W | L_D | L_BU | L_HU | L_WU.

Definition load_opc (o : load) : Z :=
  match o with
  | L_B => OPC_RISC_LB | L_H => OPC_RISC_LH | L_W => OPC_RISC_LW | L_D => OPC_RISC_LD
  | L_BU => OPC_RISC_LBU | L_HU => OPC_RISC_LHU | L_WU => OPC_RISC_LWU
  end.

Definition load_size (o : load) : nat :=
  match o with
  | L_B | L_BU => 1 | L_H | L_HU => 2 | L_W | L_WU => 4 | L_D => 8
  end%nat.

Definition load_signed (o : load) : bool :=
  match o with
  | L_B | L_H | L_W => true
  | _ => false
  end.

(** [ld] and [lwu] belong to RV64 only. *)
Definition load_rv64_only (o : load) : bool :=
  match o with
  | L_D | L_WU => true
  | _ => false
  end.

(** The value a load leaves in its destination: the bytes at [addr], least
    significant first, sign- or zero-extended to [X] bits. *)
Definition riscv_load (X : Z) (o : load) (mm : memory) (addr : Z) : Z :=
  let x := load_bytes (load_size o) mm addr in
  wrap X (if load_signed o then signed (8 * Z.of_nat (load_size o)) x else x).

Inductive store := S_B | S_H | S_W | S_D.

Definition store_opc (o : store) : Z :=
  match o with
  | S_B => OPC_RISC_SB | S_H => OPC_RISC_SH | S_W => OPC_RISC_SW | S_D => OPC_RISC_SD
  end.

Definition store_size (o : store) : nat :=
  match o with S_B => 1 | S_H => 2 | S_W => 4 | S_D => 8 end%nat.

Definition store_rv64_only (o : store) : bool :=
  match o with S_D => true | _ => false end.

(** The low bytes of [x] as a load of kind [o] extends them to [X] bits. *)
Definition load_extend (X : Z) (o : load) (x : Z) : Z :=
  let bits := 8 * Z.of_nat (load_size o) in
  wrap X (if load_signed o then signed bits x else wrap bits x).

(** How the code [gen_goto_tb] emits for destination [dest] ends on CPU
    state [e]: with single-stepping the debug exception is raised once the
    program counter is set; otherwise the block is left, chained exactly when
    [use_goto_tb] allows it. *)
Definition goes_to (rv64 : bool) (c : DisasContext) (e : CPUState) (mm : memory)
           (dest : Z) (o : outcome) : Prop :=
  let X := if rv64 then 64 else 32 in
  if ctx_singlestep_enabled c then
    o = Raised (set_exception_index (set_pc e (wrap X dest)) EXCP_DEBUG) mm
  else
    exists t, o = Exit (mkMachine (set_pc e (wrap X dest)) mm t) (use_goto_tb rv64 c dest).

(** The target of [jalr]: the sum with its bit 0 cleared. *)
Definition jalr_target (X : Z) (base imm : Z) : Z :=
  Z.land (wrap X (base + imm)) (wrap X (-2)).

(** ** Bookkeeping of the translators *)

(** Two contexts that differ in the block state at most. *)
Definition same_ctx (c c' : DisasContext) : Prop :=
  ctx_tb c' = ctx_tb c /\ ctx_pc c' = ctx_pc c /\ ctx_next_pc c' = ctx_next_pc c
  /\ ctx_opcode c' = ctx_opcode c
  /\ ctx_singlestep_enabled c' = ctx_singlestep_enabled c
  /\ ctx_mem_idx c' = ctx_mem_idx c.

(** State [s] is [k] live temporaries above state [s0] and has the context
    of [s0] up to the block state. *)
Definition above (s0 : TState) (k : Z) (s : TState) : Prop :=
  same_ctx (ctx s0) (ctx s) /\ temps_in_use (tcg s) = temps_in_use (tcg s0) + k.

(** Running [m] takes a state [k] temporaries above [s0] to one [n] above. *)
Definition moves (s0 : TState) (k : Z) {A} (m : M A) (n : Z) : Prop :=
  forall s, above s0 k s -> above s0 n (snd (m s)).

(** A translator that leaves the context alone up to the block state and
    frees every temporary it allocates. *)
Definition balanced {A} (m : M A) : Prop :=
  forall s, above s 0 (snd (m s)).

(** The size [disas_insn] reports for an instruction word: 4 for a 32-bit
    encoding, 2 for a compressed one, 0 when compressed encodings are not
    available. *)
Definition insn_size (env : CPUState) (opcode : Z) : Z :=
  if extract32 opcode 0 2 =? 3 then 4
  else if riscv_has_ext env RISCV_FEATURE_RVC then 2 else 0.

(** The number of guest instructions accounted in the block of a state. *)
Definition icount (s : TState) : Z := tb_icount (ctx_tb (ctx s)).

(** The major opcodes [decode_RV32_64G] has an arm for. *)
Definition known_major (rv64 : bool) (op : Z) : bool :=
  existsb (Z.eqb op)
    ([OPC_RISC_LUI; OPC_RISC_AUIPC; OPC_RISC_JAL; OPC_RISC_JALR; OPC_RISC_BRANCH;
      OPC_RISC_LOAD; OPC_RISC_STORE; OPC_RISC_ARITH_IMM; OPC_RISC_ARITH;
      OPC_RISC_FP_LOAD; OPC_RISC_FP_STORE; OPC_RISC_ATOMIC; OPC_RISC_FMADD;
      OPC_RISC_FMSUB; OPC_RISC_FNMSUB; OPC_RISC_FNMADD; OPC_RISC_FP_ARITH;
      OPC_RISC_FENCE; OPC_RISC_SYSTEM]
     ++ (if rv64 then [OPC_RISC_ARITH_IMM_W; OPC_RISC_ARITH_W] else [])).

(** The value of the U-type immediate of an instruction word. *)
Definition upper_imm (opcode : Z) : Z := wrap 64 (Z.shiftl (sextract64 opcode 12 20) 12).

(** ** Floating-point instructions translated inline, with FS on *)

(** The sign injections as RISC-V defines them, bit by bit: bits inside
    the mask [min] come from the sign source, the others from [a]. *)
Definition fsgnj_bit (rm : Z) (in_mask a_i b_i : bool) : bool :=
  if in_mask then
    (if rm =? 0 then b_i else if rm =? 1 then negb b_i else xorb a_i b_i)
  else a_i.

(** The masks [gen_fp_arith] passes to [gen_fsgnj]: [INT32_MIN] and
    [INT64_MIN] converted to [uint64_t]. *)
Definition fsgnj_min (double : bool) : Z :=
  if double then wrap 64 (- 2 ^ 63) else wrap 64 (- 2 ^ 31).

Inductive fp_mem := FP_W | FP_D.

Definition fp_mem_size (o : fp_mem) : nat := match o with FP_W => 4 | FP_D => 8 end%nat.
Definition fp_load_opc (o : fp_mem) : Z :=
  match o with FP_W => OPC_RISC_FLW | FP_D => OPC_RISC_FLD end.
Definition fp_store_opc (o : fp_mem) : Z :=
  match o with FP_W => OPC_RISC_FSW | FP_D => OPC_RISC_FSD end.

(** CPU state [e] with its floating-point register file replaced. *)
Definition with_fpr (e : CPUState) (f : Z -> Z) : CPUState :=
  mkCPUState (gpr e) f (pc e) (mstatus e) (misa e)
             (exception_index e) (badaddr e) (env_singlestep_enabled e)
             (breakpoints e) (vec e).

(** CPU state [e'] is [e] with floating-point register [rd] holding [x]
    and nothing else changed. *)
Definition fpr_written (e : CPUState) (rd x : Z) (e' : CPUState) : Prop :=
  exists f, e' = with_fpr e f
            /\ forall r, f r = if r =? rd then x else fpr e r.

(** The exception the [OPC_RISC_ECALL] arm of [gen_system] raises for the
    value of the immediate field, for the five values that raise one
    without calling a runtime helper: ECALL, EBREAK and the unsupported
    URET, HRET and DRET. *)
Definition system_trap (csr : Z) : option Z :=
  if csr =? 0x0 then Some RISCV_EXCP_U_ECALL
  else if csr =? 0x1 then Some RISCV_EXCP_BREAKPOINT
  else if (csr =? 0x002) || (csr =? 0x202) || (csr =? 0x7b2)
       then Some RISCV_EXCP_ILLEGAL_INST
  else None.

Inductive csr_op := CSRRW | CSRRS | CSRRC | CSRRWI | CSRRSI | CSRRCI.

Definition csr_opc (o : csr_op) : Z :=
  match o with
  | CSRRW => OPC_RISC_CSRRW | CSRRS => OPC_RISC_CSRRS | CSRRC => OPC_RISC_CSRRC
  | CSRRWI => OPC_RISC_CSRRWI | CSRRSI => OPC_RISC_CSRRSI | CSRRCI => OPC_RISC_CSRRCI
  end.

(** The runtime helper a CSR instruction calls and its arguments: the
    source operand (register value, or the register number itself for the
    immediate forms), the CSR number and, for the set and clear forms, the
    register number again. *)
Definition csr_helper (o : csr_op) : string :=
  match o with
  | CSRRW | CSRRWI => "csrrw"
  | CSRRS | CSRRSI => "csrrs"
  | CSRRC | CSRRCI => "csrrc"
  end.

Definition csr_args (X : Z) (o : csr_op) (src rs1 csr : Z) : list Z :=
  let operand := match o with
                 | CSRRW | CSRRS | CSRRC => wrap X src
                 | _ => wrap X rs1
                 end in
  match o with
  | CSRRW | CSRRWI => [operand; wrap X csr]
  | _ => [operand; wrap X csr; wrap X rs1]
  end.

(** The element widths the vector helpers have an arm for. *)
Definition supported_eew (w : Z) : Prop := w = 8 \/ w = 16 \/ w = 32 \/ w = 64.

(** CPU state [e'] differs from [e] in the bytes of the vector register
    file at most. *)
Definition only_vbytes_changed (e e' : CPUState) : Prop :=
  e' = set_v e (v (vec e')).

(** ** Further inputs for the examples *)

(** [cpu_x1] with the floating-point unit on. *)
Definition cpu_fs : CPUState :=
  mkCPUState (gpr cpu_x1) (fun r => if r =? 2 then 5 else 0) 0 MSTATUS_FS 0 0 0 false []
    (vec cpu_x1).

Definition machine_fs : Machine := mkMachine cpu_fs (fun _ => 0) (fun _ => 0).

(** [cpu_x1] with a breakpoint at 0x1000. *)
Definition cpu_bp : CPUState :=
  mkCPUState (gpr cpu_x1) (fpr cpu_x1) 0 0 0 0 0 false [0x1000] (vec cpu_x1).

(** [cpu_x1] with the vector unit on. *)
Definition cpu_vs : CPUState :=
  mkCPUState (gpr cpu_x1) (fpr cpu_x1) 0 MSTATUS_VS 0 0 0 false [] (vec cpu_x1).


(* ===================================================================== *)
(** * Proofs *)
(* ===================================================================== *)

Arguments wrap : simpl never.
Arguments signed : simpl never.
Arguments eval_cond : simpl never.
Arguments b2z : simpl never.

(* ===================================================================== *)
(** * Fixed-width arithmetic facts *)
(* ===================================================================== *)

Lemma pow2_pos w : 0 <= w -> 0 < 2 ^ w.
Proof. intros. apply Z.pow_pos_nonneg; lia. Qed.

Lemma pow2_succ w : 0 < w -> 2 ^ w = 2 * 2 ^ (w - 1).
Proof.
  intros. replace w with (Z.succ (w - 1)) at 1 by lia.
  apply Z.pow_succ_r. lia.
Qed.

Lemma wrap_range w x : 0 <= w -> 0 <= wrap w x < 2 ^ w.
Proof. intros. unfold wrap. apply Z.mod_pos_bound. now apply pow2_pos. Qed.

Lemma wrap_wrap w x : wrap w (wrap w x) = wrap w x.
Proof. unfold wrap. apply Zmod_mod. Qed.

Lemma wrap_small w x : 0 <= x < 2 ^ w -> wrap w x = x.
Proof. intros. unfold wrap. now apply Z.mod_small. Qed.

Lemma wrap_wrap_le w1 w2 x : 0 <= w1 <= w2 -> wrap w1 (wrap w2 x) = wrap w1 x.
Proof.
  intros. unfold wrap.
  assert (E : 2 ^ w2 = 2 ^ w1 * 2 ^ (w2 - w1)).
  { rewrite <- Z.pow_add_r by lia. f_equal. lia. }
  pose proof (pow2_pos w1 ltac:(lia)). pose proof (pow2_pos (w2 - w1) ltac:(lia)).
  rewrite E, Z.rem_mul_r by lia.
  rewrite Z.mul_comm, Z_mod_plus_full. apply Zmod_mod.
Qed.

Lemma signed_wrap w x : signed w (wrap w x) = signed w x.
Proof. unfold signed. now rewrite wrap_wrap. Qed.

Lemma signed_wrap_le w1 w2 x : 0 <= w1 <= w2 -> signed w1 (wrap w2 x) = signed w1 x.
Proof. intros. unfold signed. now rewrite wrap_wrap_le. Qed.

Lemma wrap_signed w x : wrap w (signed w x) = wrap w x.
Proof.
  unfold signed. destruct (wrap w x <? 2 ^ (w - 1)).
  - apply wrap_wrap.
  - unfold wrap. rewrite Zminus_mod, Z_mod_same_full, Z.sub_0_r.
    now rewrite !Zmod_mod.
Qed.

Lemma signed_range w x : 0 < w -> - 2 ^ (w - 1) <= signed w x < 2 ^ (w - 1).
Proof.
  intros. unfold signed. pose proof (wrap_range w x ltac:(lia)).
  pose proof (pow2_succ w H).
  destruct (Z.ltb_spec (wrap w x) (2 ^ (w - 1))); lia.
Qed.

Lemma signed_eqb_0 w x : 0 < w -> (signed w x =? 0) = (wrap w x =? 0).
Proof.
  intros. unfold signed. pose proof (wrap_range w x ltac:(lia)).
  pose proof (pow2_succ w H).
  destruct (Z.ltb_spec (wrap w x) (2 ^ (w - 1))); [reflexivity|].
  destruct (Z.eqb_spec (wrap w x - 2 ^ w) 0), (Z.eqb_spec (wrap w x) 0); lia.
Qed.

Lemma signed_eqb_m1 w x : 0 < w -> (signed w x =? -1) = (wrap w x =? 2 ^ w - 1).
Proof.
  intros. unfold signed. pose proof (wrap_range w x ltac:(lia)).
  pose proof (pow2_succ w H). pose proof (pow2_pos (w - 1) ltac:(lia)).
  destruct (Z.ltb_spec (wrap w x) (2 ^ (w - 1)));
  match goal with |- (?a =? ?b) = (?c =? ?d) =>
    destruct (Z.eqb_spec a b), (Z.eqb_spec c d); lia end.
Qed.

Lemma signed_eqb_min w x : 0 < w -> (signed w x =? - 2 ^ (w - 1)) = (wrap w x =? 2 ^ (w - 1)).
Proof.
  intros. unfold signed. pose proof (wrap_range w x ltac:(lia)).
  pose proof (pow2_succ w H). pose proof (pow2_pos (w - 1) ltac:(lia)).
  destruct (Z.ltb_spec (wrap w x) (2 ^ (w - 1)));
  match goal with |- (?a =? ?b) = (?c =? ?d) =>
    destruct (Z.eqb_spec a b), (Z.eqb_spec c d); lia end.
Qed.

(** Sign and zero extension from 32 to 64 bits. *)
Lemma signed64_sext32 x : signed 64 (wrap 64 (signed 32 x)) = signed 32 x.
Proof.
  rewrite signed_wrap. pose proof (signed_range 32 x ltac:(lia)).
  unfold signed at 1. unfold wrap.
  change (2 ^ (32 - 1)) with 2147483648 in *.
  change (2 ^ (64 - 1)) with 9223372036854775808.
  change (2 ^ 64) with 18446744073709551616.
  destruct (Z.ltb_spec (signed 32 x mod 18446744073709551616) 9223372036854775808);
    Z.div_mod_to_equations; lia.
Qed.

Lemma sext32_eqb_0 x : (wrap 64 (signed 32 x) =? 0) = (wrap 32 x =? 0).
Proof.
  rewrite <- (signed_eqb_0 64) by lia. rewrite <- signed_wrap, signed64_sext32.
  apply signed_eqb_0. lia.
Qed.

Lemma sext32_eqb_m1 x :
  (wrap 64 (signed 32 x) =? 18446744073709551615) = (wrap 32 x =? 4294967295).
Proof.
  change 18446744073709551615 with (2 ^ 64 - 1). rewrite <- (signed_eqb_m1 64) by lia.
  rewrite <- signed_wrap, signed64_sext32. now rewrite signed_eqb_m1 by lia.
Qed.

Lemma sext32_neqb_min64 x : (wrap 64 (signed 32 x) =? 9223372036854775808) = false.
Proof.
  change 9223372036854775808 with (2 ^ (64 - 1)). rewrite <- (signed_eqb_min 64) by lia.
  rewrite <- signed_wrap, signed64_sext32. pose proof (signed_range 32 x ltac:(lia)).
  change (2 ^ (32 - 1)) with 2147483648 in *. change (2 ^ (64 - 1)) with 9223372036854775808.
  apply Z.eqb_neq. lia.
Qed.

Lemma zext32_eqb_0 x : (wrap 64 (wrap 32 x) =? 0) = (wrap 32 x =? 0).
Proof.
  rewrite (wrap_small 64 (wrap 32 x)); [reflexivity|].
  pose proof (wrap_range 32 x ltac:(lia)). change (2 ^ 32) with 4294967296 in *.
  change (2 ^ 64) with 18446744073709551616. lia.
Qed.

Lemma wrap64_zext32 x : wrap 64 (wrap 32 x) = wrap 32 x.
Proof.
  apply wrap_small.
  pose proof (wrap_range 32 x ltac:(lia)). change (2 ^ 32) with 4294967296 in *.
  change (2 ^ 64) with 18446744073709551616. lia.
Qed.

Lemma wrap_div w a b : 0 <= w -> wrap w (wrap w a / wrap w b) = wrap w a / wrap w b.
Proof.
  intros. apply wrap_small.
  pose proof (wrap_range w a H). pose proof (wrap_range w b H).
  destruct (Z.eq_dec (wrap w b) 0) as [E|E].
  - rewrite E, Z.div_0_r. lia.
  - split.
    + apply Z.div_pos; lia.
    + apply Z.le_lt_trans with (wrap w a); [|lia].
      apply Z.div_le_upper_bound; [lia|]. nia.
Qed.

Lemma wrap_mod w a b : 0 <= w -> wrap w (wrap w a mod wrap w b) = wrap w a mod wrap w b.
Proof.
  intros. apply wrap_small.
  pose proof (wrap_range w a H). pose proof (wrap_range w b H).
  destruct (Z.eq_dec (wrap w b) 0) as [E|E].
  - rewrite E, Z.mod_0_r. lia.
  - pose proof (Z.mod_pos_bound (wrap w a) (wrap w b) ltac:(lia)). lia.
Qed.

(* ===================================================================== *)
(** * Symbolic execution of emitted operations *)
(* ===================================================================== *)

(** The translators are run by unfolding the emitter monad; the opcode
    tests are comparisons of literals and are decided by [fold_consts]. *)
Ltac unfold_opcs :=
  cbv [OPC_RISC_LUI OPC_RISC_AUIPC OPC_RISC_JAL OPC_RISC_JALR
       OPC_RISC_BRANCH OPC_RISC_LOAD OPC_RISC_STORE OPC_RISC_ARITH_IMM
       OPC_RISC_ARITH OPC_RISC_FENCE OPC_RISC_SYSTEM OPC_RISC_ARITH_IMM_W
       OPC_RISC_ARITH_W OPC_RISC_ATOMIC OPC_RISC_FP_LOAD OPC_RISC_FP_STORE
       OPC_RISC_FMADD OPC_RISC_FMSUB OPC_RISC_FNMSUB OPC_RISC_FNMADD
       OPC_RISC_FP_ARITH OPC_RISC_ADD OPC_RISC_SUB OPC_RISC_SLL
       OPC_RISC_SLT OPC_RISC_SLTU OPC_RISC_XOR OPC_RISC_SRL
       OPC_RISC_SRA OPC_RISC_OR OPC_RISC_AND OPC_RISC_MUL
       OPC_RISC_MULH OPC_RISC_MULHSU OPC_RISC_MULHU OPC_RISC_DIV
       OPC_RISC_DIVU OPC_RISC_REM OPC_RISC_REMU OPC_RISC_ADDW
       OPC_RISC_SUBW OPC_RISC_SLLW OPC_RISC_SRLW OPC_RISC_SRAW
       OPC_RISC_MULW OPC_RISC_DIVW OPC_RISC_DIVUW OPC_RISC_REMW
       OPC_RISC_REMUW OPC_RISC_ADDI OPC_RISC_SLTI OPC_RISC_SLTIU
       OPC_RISC_XORI OPC_RISC_ORI OPC_RISC_ANDI OPC_RISC_SLLI
       OPC_RISC_SHIFT_RIGHT_I OPC_RISC_ADDIW OPC_RISC_SLLIW OPC_RISC_SHIFT_RIGHT_IW
       OPC_RISC_BEQ OPC_RISC_BNE OPC_RISC_BLT OPC_RISC_BGE
       OPC_RISC_BLTU OPC_RISC_BGEU OPC_RISC_LB OPC_RISC_LH
       OPC_RISC_LW OPC_RISC_LD OPC_RISC_LBU OPC_RISC_LHU
       OPC_RISC_LWU OPC_RISC_SB OPC_RISC_SH OPC_RISC_SW
       OPC_RISC_SD OPC_RISC_FLW OPC_RISC_FLD OPC_RISC_FSW
       OPC_RISC_FSD OPC_RISC_LR_W OPC_RISC_SC_W OPC_RISC_AMOADD_W
       OPC_RISC_AMOSWAP_W OPC_RISC_AMOXOR_W OPC_RISC_AMOAND_W OPC_RISC_AMOOR_W
       OPC_RISC_AMOMIN_W OPC_RISC_AMOMAX_W OPC_RISC_AMOMINU_W OPC_RISC_AMOMAXU_W
       OPC_RISC_LR_D OPC_RISC_SC_D OPC_RISC_AMOADD_D OPC_RISC_AMOSWAP_D
       OPC_RISC_AMOXOR_D OPC_RISC_AMOAND_D OPC_RISC_AMOOR_D OPC_RISC_AMOMIN_D
       OPC_RISC_AMOMAX_D OPC_RISC_AMOMINU_D OPC_RISC_AMOMAXU_D OPC_RISC_FMADD_S
       OPC_RISC_FMADD_D OPC_RISC_FMSUB_S OPC_RISC_FMSUB_D OPC_RISC_FNMSUB_S
       OPC_RISC_FNMSUB_D OPC_RISC_FNMADD_S OPC_RISC_FNMADD_D OPC_RISC_FADD_S
       OPC_RISC_FSUB_S OPC_RISC_FMUL_S OPC_RISC_FDIV_S OPC_RISC_FSGNJ_S
       OPC_RISC_FMIN_S OPC_RISC_FSQRT_S OPC_RISC_FEQ_S OPC_RISC_FCVT_W_S
       OPC_RISC_FCVT_S_W OPC_RISC_FMV_X_S OPC_RISC_FMV_S_X OPC_RISC_FADD_D
       OPC_RISC_FSUB_D OPC_RISC_FMUL_D OPC_RISC_FDIV_D OPC_RISC_FSGNJ_D
       OPC_RISC_FMIN_D OPC_RISC_FCVT_S_D OPC_RISC_FCVT_D_S OPC_RISC_FSQRT_D
       OPC_RISC_FEQ_D OPC_RISC_FCVT_W_D OPC_RISC_FCVT_D_W OPC_RISC_FMV_X_D
       OPC_RISC_FMV_D_X OPC_RISC_ECALL OPC_RISC_CSRRW OPC_RISC_CSRRS
       OPC_RISC_CSRRC OPC_RISC_CSRRWI OPC_RISC_CSRRSI OPC_RISC_CSRRCI].

Ltac emitted_ops :=
  cbv [BS_NONE BS_STOP BS_BRANCH ret bind
       when get_ctx set_ctx set_bstate emit
       new_temp tcg_temp_new tcg_temp_new_i64 tcg_temp_local_new tcg_temp_free
       tcg_temp_free_i64 tcg_temp_free_i32 gen_new_label gen_set_label tcg_gen_br
       tcg_gen_goto_tb gen_exit_tb tcg_gen_mov_i64 tcg_gen_movi_i64 tcg_gen_andi_i64
       tcg_gen_or_i64 tcg_gen_xor_i64 tcg_gen_not_i64 tcg_const_i32 emitted
       tcg_empty start TARGET_LONG_BITS tl tcg_gen_movi_tl
       tcg_gen_mov_tl tcg_gen_op_tl tcg_gen_opi_tl tcg_gen_add_tl tcg_gen_sub_tl
       tcg_gen_and_tl tcg_gen_or_tl tcg_gen_xor_tl tcg_gen_shl_tl tcg_gen_shr_tl
       tcg_gen_sar_tl tcg_gen_mul_tl tcg_gen_div_tl tcg_gen_divu_tl tcg_gen_rem_tl
       tcg_gen_remu_tl tcg_gen_addi_tl tcg_gen_andi_tl tcg_gen_ori_tl tcg_gen_xori_tl
       tcg_gen_shli_tl tcg_gen_shri_tl tcg_gen_sari_tl tcg_gen_setcond_tl tcg_gen_setcondi_tl
       tcg_gen_movcond_tl tcg_gen_ext32s_tl tcg_gen_ext32u_tl tcg_gen_trunc_i64_i32 tcg_gen_extu_i32_i64
       tcg_gen_muls2_tl tcg_gen_mulu2_tl tcg_gen_brcond_tl tcg_gen_brcondi_tl tcg_gen_qemu_ld
       tcg_gen_qemu_ld_i64 tcg_gen_qemu_st tcg_const_tl gen_helper generate_exception
       generate_exception_mbadaddr kill_unknown gen_goto_tb gen_get_gpr gen_set_gpr
       gen_mulhsu check_mstatus_fs gen_fsgnj gen_arith_div gen_arith_divu
       gen_arith_rem gen_arith_remu case_op_32_64 gen_arith gen_shift_right_i
       gen_arith_imm gen_jal gen_jalr gen_branch gen_load
       gen_store gen_fp_load gen_fp_store gen_amo_op gen_amo_minmax
       gen_atomic gen_fp_fma gen_fp_fmadd gen_fp_fmsub gen_fp_fnmsub
       gen_fp_fnmadd gen_fp_arith gen_system decode_RV32_64C0 decode_RV32_64C1
       decode_RV32_64C2 decode_RV32_64C decode_RV32_64G set_ctx_pc set_ctx_next_pc
       set_ctx_opcode set_ctx_tb disas_insn
       ctx tcg gen_opc_buf nb_temps temps_in_use nb_labels ctx_tb ctx_pc ctx_next_pc ctx_opcode ctx_singlestep_enabled ctx_mem_idx ctx_bstate fst snd app map].

Ltac is_pos_const p :=
  lazymatch p with
  | xH => idtac | xO ?q => is_pos_const q | xI ?q => is_pos_const q
  end.
Ltac is_Z_const z :=
  lazymatch z with
  | Z0 => idtac | Zpos ?p => is_pos_const p | Zneg ?p => is_pos_const p
  end.
Ltac fold_const2 f :=
  match goal with
  | |- context [f ?a ?b] =>
      is_Z_const a; is_Z_const b;
      let v := eval vm_compute in (f a b) in change (f a b) with v
  end.
Ltac fold_consts :=
  repeat first
    [ fold_const2 wrap | fold_const2 signed | fold_const2 Z.land | fold_const2 Z.lor
    | fold_const2 Z.lxor | fold_const2 Z.eqb | fold_const2 Z.ltb | fold_const2 Z.leb
    | fold_const2 Z.pow | fold_const2 Z.sub | fold_const2 Z.add | fold_const2 Z.mul
    | fold_const2 Z.quot | fold_const2 Z.rem | fold_const2 Z.div | fold_const2 Z.modulo
    | fold_const2 Z.shiftl | fold_const2 Z.shiftr
    | match goal with
      | |- context [Z.opp ?a] =>
          is_Z_const a; let v := eval vm_compute in (Z.opp a) in change (Z.opp a) with v
      | |- context [Z.lnot ?a] =>
          is_Z_const a; let v := eval vm_compute in (Z.lnot a) in change (Z.lnot a) with v
      | |- context [b2z true] => change (b2z true) with 1
      | |- context [b2z false] => change (b2z false) with 0
      end ].

Ltac emitted_ops_vm :=
  match goal with
  | |- context [emitted ?g ?s] =>
      let ops := eval vm_compute in (emitted g s) in
      change (emitted g s) with ops
  end.

Ltac compute_ops :=
  unfold_opcs;
  repeat (progress (emitted_ops; fold_consts; cbn [andb orb negb])).

Ltac sym := cbn [exec step eval read write env mem temps Nat.eqb eval_binop
                 set_gpr set_pc set_fpr gpr fpr pc mstatus andb orb negb
                 Z.of_nat Pos.of_succ_nat Pos.succ
                 call_helper String.eqb Ascii.eqb Bool.eqb map nth].

Lemma eval_cond_eq w a b : eval_cond w TCG_COND_EQ a b = (wrap w a =? wrap w b).
Proof. reflexivity. Qed.

Lemma signed_signed w x : signed w (signed w x) = signed w x.
Proof. rewrite <- (signed_wrap w (signed w x)), wrap_signed. apply signed_wrap. Qed.

Lemma signed64_signed32 x : signed 64 (signed 32 x) = signed 32 x.
Proof. rewrite <- signed_wrap. apply signed64_sext32. Qed.

Lemma signed64_zext32 x : signed 64 (wrap 32 x) = wrap 32 x.
Proof.
  pose proof (wrap_range 32 x ltac:(lia)). change (2 ^ 32) with 4294967296 in *.
  unfold signed. rewrite (wrap_small 64) by (change (2 ^ 64) with 18446744073709551616; lia).
  change (2 ^ (64 - 1)) with 9223372036854775808.
  destruct (Z.ltb_spec (wrap 32 x) 9223372036854775808); lia.
Qed.

Lemma wrap32_wrap64 x : wrap 32 (wrap 64 x) = wrap 32 x.
Proof. apply wrap_wrap_le. lia. Qed.
Lemma signed32_wrap64 x : signed 32 (wrap 64 x) = signed 32 x.
Proof. apply signed_wrap_le. lia. Qed.

Lemma signed32_zext x : signed 32 (wrap 32 x) = signed 32 x.
Proof. apply signed_wrap. Qed.

Create Rewrite HintDb bv.
#[export] Hint Rewrite eval_cond_eq wrap_wrap signed_wrap wrap_signed signed_signed
  signed64_signed32 signed64_zext32 wrap32_wrap64 signed32_wrap64 wrap64_zext32
  sext32_eqb_0 sext32_eqb_m1 sext32_neqb_min64 : bv.

Lemma signed_eqb_0_32 x : (signed 32 x =? 0) = (wrap 32 x =? 0).
Proof. apply signed_eqb_0. lia. Qed.
Lemma signed_eqb_0_64 x : (signed 64 x =? 0) = (wrap 64 x =? 0).
Proof. apply signed_eqb_0. lia. Qed.
Lemma signed_eqb_m1_32 x : (signed 32 x =? -1) = (wrap 32 x =? 4294967295).
Proof. apply (signed_eqb_m1 32). lia. Qed.
Lemma signed_eqb_m1_64 x : (signed 64 x =? -1) = (wrap 64 x =? 18446744073709551615).
Proof. apply (signed_eqb_m1 64). lia. Qed.
Lemma signed_eqb_min_32 x : (signed 32 x =? -2147483648) = (wrap 32 x =? 2147483648).
Proof. apply (signed_eqb_min 32). lia. Qed.
Lemma signed_eqb_min_64 x : (signed 64 x =? -9223372036854775808) = (wrap 64 x =? 9223372036854775808).
Proof. apply (signed_eqb_min 64). lia. Qed.
Lemma signed32_neqb_min64 x : (signed 32 x =? -9223372036854775808) = false.
Proof. pose proof (signed_range 32 x ltac:(lia)). change (2 ^ (32 - 1)) with 2147483648 in *.
  apply Z.eqb_neq. lia. Qed.
Lemma zext32_neqb_m1 x : (wrap 32 x =? 18446744073709551615) = false.
Proof. pose proof (wrap_range 32 x ltac:(lia)). change (2 ^ 32) with 4294967296 in *.
  apply Z.eqb_neq. lia. Qed.

#[export] Hint Rewrite signed_eqb_0_32 signed_eqb_0_64 signed_eqb_m1_32 signed_eqb_m1_64
  signed_eqb_min_32 signed_eqb_min_64 signed32_neqb_min64 : bv.

Ltac norm := repeat (progress (sym; fold_consts; autorewrite with bv; fold_consts)).

Lemma quot_1 x : Z.quot x 1 = x. Proof. apply Z.quot_1_r. Qed.
Lemma rem_1 x : Z.rem x 1 = 0. Proof. apply Z.rem_1_r. Qed.
Lemma div_1 x : x / 1 = x. Proof. apply Z.div_1_r. Qed.
Lemma mod_1 x : x mod 1 = 0. Proof. apply Z.mod_1_r. Qed.
#[export] Hint Rewrite quot_1 rem_1 div_1 mod_1 : bv.

Lemma signed_of_wrap_eq w x k : wrap w x = k -> signed w x = signed w k.
Proof. intros. rewrite <- (signed_wrap w x), H. reflexivity. Qed.

Ltac split_cond :=
  match goal with
  | |- context [wrap ?w ?x =? ?k] =>
      is_Z_const k;
      lazymatch x with context [Z.eqb _ _] => fail | _ => idtac end;
      let E := fresh "E" in
      destruct (wrap w x =? k) eqn:E
  end.

Ltac use_eqs :=
  repeat match goal with
         | H : (wrap ?w ?x =? ?k) = true |- _ =>
             apply Z.eqb_eq in H;
             rewrite ?(signed_of_wrap_eq w x k H), ?H
         end.

Ltac contra :=
  exfalso;
  repeat match goal with
         | H : (_ =? _) = true |- _ => apply Z.eqb_eq in H
         | H : (_ =? _) = false |- _ => apply Z.eqb_neq in H
         end; lia.


#[export] Hint Rewrite wrap_div wrap_mod using lia : bv.

(** Boolean tests the translator makes on symbolic operands: those decided
    by a hypothesis are rewritten, the others split the proof. *)
Ltac use_conds :=
  repeat match goal with
         | H : ?b = true |- context [if ?b then _ else _] => rewrite H
         | H : ?b = false |- context [if ?b then _ else _] => rewrite H
         | H : ?b = true |- context [negb ?b] => rewrite H
         | H : ?b = false |- context [negb ?b] => rewrite H
         | H : ?b = true |- context [andb ?b _] => rewrite H
         | H : ?b = false |- context [andb ?b _] => rewrite H
         end.

Ltac split_if :=
  match goal with
  | |- context [if ?b then _ else _] =>
      lazymatch b with
      | true => fail
      | false => fail
      | _ => destruct b eqn:?
      end
  end.

Ltac translate :=
  repeat (progress (compute_ops; use_conds; cbn [negb andb orb when]));
  repeat (split_if; repeat (progress (compute_ops; use_conds; cbn [negb andb orb when]))).

Lemma wrap_add_l w a b : wrap w (wrap w a + b) = wrap w (a + b).
Proof. unfold wrap. apply Zplus_mod_idemp_l. Qed.

Lemma wrap_add_r w a b : wrap w (a + wrap w b) = wrap w (a + b).
Proof. unfold wrap. apply Zplus_mod_idemp_r. Qed.

Lemma wrap_land_r w a b : 0 <= w -> wrap w (Z.land a (wrap w b)) = Z.land a (wrap w b).
Proof.
  intros. unfold wrap.
  rewrite <- (Z.land_ones (Z.land a (b mod 2 ^ w)) w) by assumption.
  rewrite <- Z.land_assoc. rewrite (Z.land_ones (b mod 2 ^ w)) by assumption.
  now rewrite Zmod_mod.
Qed.

Lemma eval_cond_wrap_l w c a b : eval_cond w c (wrap w a) b = eval_cond w c a b.
Proof. destruct c; unfold eval_cond; now rewrite ?wrap_wrap, ?signed_wrap. Qed.

Lemma eval_cond_wrap_r w c a b : eval_cond w c a (wrap w b) = eval_cond w c a b.
Proof. destruct c; unfold eval_cond; now rewrite ?wrap_wrap, ?signed_wrap. Qed.

(** The emitter reads the fields of the context; they are named once and for
    all before a translator is run. *)
Ltac open_ctx c :=
  destruct c as [[? ? ? ? ? ? ?] ? ? ? ? ? ?];
  cbn [ctx_tb ctx_pc ctx_next_pc ctx_opcode ctx_singlestep_enabled ctx_mem_idx
       ctx_bstate tb_pc tb_size tb_icount tb_prev_size tb_original_size
       tb_search_pc tb_disas_flags] in *.

(** A context taken apart into its fields. *)
Ltac open_context c :=
  let tpc := fresh "t_pc" in
  let tsz := fresh "t_size" in
  let tic := fresh "t_icount" in
  let tps := fresh "t_prev" in
  let tos := fresh "t_orig" in
  let tsp := fresh "t_search" in
  let tdf := fresh "t_flags" in
  let cpc := fresh "c_pc" in
  let cnp := fresh "c_next" in
  let cop := fresh "c_opcode" in
  let css := fresh "c_step" in
  let cmi := fresh "c_idx" in
  let cbs := fresh "c_bstate" in
  destruct c as [[tpc tsz tic tps tos tsp tdf] cpc cnp cop css cmi cbs];
  cbn [ctx_tb ctx_pc ctx_next_pc ctx_opcode ctx_singlestep_enabled ctx_mem_idx
       ctx_bstate tb_pc tb_size tb_icount tb_prev_size tb_original_size
       tb_search_pc tb_disas_flags] in *.


(* ===================================================================== *)
(** * Division and remainder (gen_arith) *)
(* ===================================================================== *)

Ltac divrem_case :=
  emitted_ops_vm; unfold run, divrem_result, riscv_divrem;
  norm; repeat (split_cond; norm);
  first [ eexists; reflexivity
        | contra
        | use_eqs; norm; eexists; reflexivity ].

(** C1. For every div/rem variant ([div], [divu], [rem], [remu] and, on
    RV64, their W forms) the operations [gen_arith] emits run to completion
    without raising anything and leave in [rd] the RISC-V result: an
    all-ones quotient and the dividend as remainder for a zero divisor, the
    dividend as quotient and zero as remainder for the signed overflow, the
    ordinary truncating quotient or remainder otherwise.  Nothing else of
    the CPU state or of memory changes. *)
Theorem gen_arith_divrem_correct hs c rv64 o wform rd rs1 rs2 m :
  implb wform rv64 = true -> rd <> 0 ->
  exists t,
    run hs (emitted (gen_arith rv64 (divrem_opc o wform) rd rs1 rs2) (start c)) m
    = Fallthrough (mkMachine (set_gpr (env m) rd
                     (divrem_result rv64 o wform (reg m rs1) (reg m rs2)))
                     (mem m) t).
Proof.
  intros Hw H.
  unfold gen_arith, gen_get_gpr, gen_set_gpr, reg.
  apply Z.eqb_neq in H. rewrite H.
  destruct rv64, wform; try discriminate Hw; clear Hw;
  destruct o; cbn [divrem_opc];
  destruct (rs1 =? 0) eqn:E1; destruct (rs2 =? 0) eqn:E2;
  divrem_case.
Qed.

(* ===================================================================== *)
(** * Immediate shifts (gen_arith_imm) *)
(* ===================================================================== *)

Lemma forall_below (P : Z -> bool) (n : nat) :
  forallb P (map Z.of_nat (seq 0 n)) = true ->
  forall i, 0 <= i < Z.of_nat n -> P i = true.
Proof.
  intros H i Hi. rewrite forallb_forall in H. apply H.
  apply in_map_iff. exists (Z.to_nat i). split; [lia|].
  apply in_seq. lia.
Qed.

(** Bit 10 of a 12-bit immediate whose bit 11 is clear. *)
Lemma imm_bit10 imm :
  0 <= imm < 2048 ->
  if Z.land imm 0x400 =? 0 then Z.land imm 0x3ff = imm
  else Z.lxor imm 0x400 = Z.land imm 0x3ff.
Proof.
  intros H.
  pose proof (forall_below
    (fun i => if Z.land i 0x400 =? 0 then Z.land i 0x3ff =? i
              else Z.lxor i 0x400 =? Z.land i 0x3ff) 2048 ltac:(vm_compute; reflexivity)
    imm H) as E.
  cbv beta in E. destruct (Z.land imm 0x400 =? 0); now apply Z.eqb_eq.
Qed.

Lemma land_3ff_range imm : 0 <= Z.land imm 0x3ff < 1024.
Proof.
  change 0x3ff with (Z.ones 10). rewrite Z.land_ones by lia.
  apply Z.mod_pos_bound. lia.
Qed.

(** Shifting left by 32 and then right by [s + 32], in 64 bits, is the
    32-bit shift by [s] of the low word: the detour of the W right shifts. *)
Lemma shl32_wrap a : wrap 64 (Z.shiftl (wrap 64 a) 32) = wrap 32 a * 2 ^ 32.
Proof.
  rewrite Z.shiftl_mul_pow2 by lia. unfold wrap.
  change (2 ^ 64) with (2 ^ 32 * 2 ^ 32).
  rewrite Zmult_mod_distr_r. f_equal.
  change (2 ^ 32 * 2 ^ 32) with (2 ^ 64). apply (wrap_wrap_le 32 64). lia.
Qed.

Lemma shr_detour x s : 0 <= s -> Z.shiftr (x * 2 ^ 32) (s + 32) = Z.shiftr x s.
Proof.
  intros. rewrite !Z.shiftr_div_pow2 by lia.
  rewrite Z.pow_add_r by lia. apply Z.div_mul_cancel_r; apply Z.pow_nonzero; lia.
Qed.

Lemma signed64_shl32 a : signed 64 (wrap 32 a * 2 ^ 32) = signed 32 a * 2 ^ 32.
Proof.
  pose proof (wrap_range 32 a ltac:(lia)).
  unfold signed. rewrite (wrap_small 64).
  2:{ change (2 ^ 32) with 4294967296 in *. change (2 ^ 64) with 18446744073709551616. lia. }
  change (2 ^ (64 - 1)) with 9223372036854775808. change (2 ^ (32 - 1)) with 2147483648.
  change (2 ^ 32) with 4294967296 in *. change (2 ^ 64) with 18446744073709551616.
  destruct (Z.ltb_spec (wrap 32 a * 4294967296) 9223372036854775808),
           (Z.ltb_spec (wrap 32 a) 2147483648); lia.
Qed.

Lemma srliw_detour a s :
  0 <= s ->
  Z.shiftr (wrap 64 (Z.shiftl (wrap 64 a) 32)) (s + 32) = Z.shiftr (wrap 32 a) s.
Proof. intros. rewrite shl32_wrap. now apply shr_detour. Qed.

Lemma sraiw_detour a s :
  0 <= s ->
  Z.shiftr (signed 64 (Z.shiftl (wrap 64 a) 32)) (s + 32) = Z.shiftr (signed 32 a) s.
Proof.
  intros. rewrite <- signed_wrap, shl32_wrap, signed64_shl32. now apply shr_detour.
Qed.

Lemma wrap_shiftr w a s : 0 <= w -> 0 <= s -> wrap w (Z.shiftr (wrap w a) s) = Z.shiftr (wrap w a) s.
Proof.
  intros. apply wrap_small. pose proof (wrap_range w a H).
  rewrite Z.shiftr_div_pow2 by lia. pose proof (pow2_pos s H0). split.
  - apply Z.div_pos; lia.
  - apply Z.le_lt_trans with (wrap w a); [|lia].
    apply Z.div_le_upper_bound; [lia|]. nia.
Qed.

Ltac shift_conds :=
  repeat match goal with
         | |- context [?a <=? ?b] =>
             lazymatch a with context [Temp] => fail | _ => idtac end;
             destruct (Z.leb_spec a b)
         | |- context [?a <? ?b] =>
             lazymatch a with context [Temp] => fail | _ => idtac end;
             destruct (Z.ltb_spec a b)
         end.

Ltac range_true :=
  match goal with
  | |- context [(0 <=? ?s) && (?s <? ?w)] =>
      replace ((0 <=? s) && (s <? w)) with true
        by (symmetry; apply andb_true_iff; split; [apply Z.leb_le | apply Z.ltb_lt]; lia)
  end.

(** The 12-bit field of an immediate whose bit 11 is clear. *)
Lemma imm_field imm :
  0 <= imm < 2048 ->
  wrap 12 imm = imm /\ Z.land (wrap 12 imm) 0xbff = Z.land imm 0x3ff.
Proof.
  intros H.
  assert (W : wrap 12 imm = imm) by (apply wrap_small; lia).
  rewrite W. split; [reflexivity |].
  pose proof (forall_below (fun i => Z.land i 0xbff =? Z.land i 0x3ff) 2048
                ltac:(vm_compute; reflexivity) imm H) as E.
  now apply Z.eqb_eq.
Qed.

(** Immediate shifts whose immediate has bit 11 clear.  A shift amount
    that is not below XLEN (not below 32 for the W forms) raises
    illegal-instruction at the address of the instruction and writes
    nothing to [rd]; a legal one writes the shifted value, where bit 10 of
    the immediate selects the arithmetic right shift by [imm ^ 0x400] over
    the logical right shift by [imm]. *)
Theorem gen_arith_imm_shift_in_range hs c rv64 k wform rd rs1 imm m :
  implb wform rv64 = true -> rd <> 0 -> 0 <= imm < 2048 ->
  let X := if rv64 then 64 else 32 in
  let ops := emitted (gen_arith_imm rv64 (shift_imm_opc k wform) rd rs1 imm) (start c) in
  match riscv_shift_imm X k wform (reg m rs1) imm with
  | None => run hs ops m = Raised (illegal_at X (env m) (ctx_pc c)) (mem m)
  | Some v => exists t, run hs ops m = Fallthrough (mkMachine (set_gpr (env m) rd v) (mem m) t)
  end.
Proof.
  intros Hw Hrd Himm X ops. subst X ops.
  pose proof (imm_bit10 imm Himm) as Hb.
  pose proof (land_3ff_range imm) as Hr.
  destruct (imm_field imm Himm) as [F1 F2].
  unfold gen_arith_imm, gen_shift_right_i, gen_get_gpr, gen_set_gpr, reg, riscv_shift_imm,
    shamt_of, kill_unknown, generate_exception, illegal_at.
  cbv zeta. rewrite ?F2, ?F1.
  apply Z.eqb_neq in Hrd. rewrite Hrd.
  destruct rv64, wform; try discriminate Hw; clear Hw;
  destruct k; cbn [shift_imm_opc TARGET_LONG_BITS];
  destruct (rs1 =? 0) eqn:E1.
  all: unfold_opcs; fold_consts; cbn [andb orb negb when].
  all: destruct (Z.land imm 1024 =? 0) eqn:E10; cbn [negb].
  all: shift_conds; try lia.
  all: compute_ops; unfold run; norm.
  all: try reflexivity.
  all: try (rewrite Hb in * ).
  all: repeat range_true.
  all: norm.
  all: rewrite ?Z.add_0_r, ?Z.shiftr_0_l, ?Z.shiftl_0_l; norm.
  all: try (eexists; reflexivity).
  all: rewrite ?srliw_detour, ?sraiw_detour, ?wrap_shiftr by lia; norm.
  all: try (eexists; reflexivity).
Qed.

(** C4 fails on the code: the test of the shift amount is a signed
    comparison of the sign-extended immediate.  [slli x3, x1, 0xfff]
    (0xFFF09193) and [srli x3, x1, 0x800] (0x8000D193) on RV64 have a shift
    amount of 4095 and 2048, for which the claim demands
    illegal-instruction; the decoder hands [gen_arith_imm] the immediates -1
    and -2048, the tests [imm < 64] and [(imm & 0x3ff) < 64] pass, and the
    code emitted is a shift by a negative count with no exception raise in
    it. *)
Theorem shift_imm_bit11_not_illegal :
  let slli := emitted (disas_insn true cpu_x1) (start (ctx_at 0x1000 0xFFF09193)) in
  let srli := emitted (disas_insn true cpu_x1) (start (ctx_at 0x1000 0x8000D193)) in
  (to_long true (GET_IMM 0xFFF09193) = -1
   /\ riscv_shift_imm 64 SH_SLLI false (reg machine_x1 1) (-1) = None
   /\ raises slli = false
   /\ In (Bin 64 SHL (Temp false 0) (V (Temp false 0)) (I (-1))) slli
   /\ forall hs, run hs slli machine_x1 = Unspecified)
  /\ (to_long true (GET_IMM 0x8000D193) = -2048
      /\ riscv_shift_imm 64 SH_SHIFT_RIGHT_I false (reg machine_x1 1) (-2048) = None
      /\ raises srli = false
      /\ In (Bin 64 SHR (Temp false 0) (V (Temp false 0)) (I (-2048))) srli
      /\ forall hs, run hs srli machine_x1 = Unspecified).
Proof.
  cbv zeta. split.
  - split; [reflexivity |]. split; [reflexivity |]. split; [reflexivity |].
    split; [vm_compute; auto 10 |]. intros hs. reflexivity.
  - split; [reflexivity |]. split; [reflexivity |]. split; [reflexivity |].
    split; [vm_compute; auto 10 |]. intros hs. reflexivity.
Qed.

(* ===================================================================== *)
(** * Atomics (gen_atomic) *)
(* ===================================================================== *)

(** [gen_atomic] drops the aq and rl bits (26 and 25) of the opcode. *)
Lemma mask_aq_rl a dform aqrl :
  0 <= aqrl < 4 ->
  MASK_OP_ATOMIC_NO_AQ_RL (Z.lor (amo_opc a dform) (Z.shiftl aqrl 25)) = amo_opc a dform.
Proof.
  intros H.
  assert (E : aqrl = 0 \/ aqrl = 1 \/ aqrl = 2 \/ aqrl = 3) by lia.
  destruct E as [-> | [-> | [-> | ->]]]; destruct a, dform; reflexivity.
Qed.

Lemma eval_cond_lt w a b : eval_cond w TCG_COND_LT a b = (signed w a <? signed w b).
Proof. reflexivity. Qed.
Lemma eval_cond_gt w a b : eval_cond w TCG_COND_GT a b = (signed w b <? signed w a).
Proof. reflexivity. Qed.
Lemma eval_cond_ltu w a b : eval_cond w TCG_COND_LTU a b = (wrap w a <? wrap w b).
Proof. reflexivity. Qed.
Lemma eval_cond_gtu w a b : eval_cond w TCG_COND_GTU a b = (wrap w b <? wrap w a).
Proof. reflexivity. Qed.
#[export] Hint Rewrite eval_cond_lt eval_cond_gt eval_cond_ltu eval_cond_gtu : bv.

Ltac split_lt :=
  match goal with
  | |- context [?a <? ?b] => destruct (a <? b) eqn:?
  end.

Ltac atomic_case :=
  emitted_ops_vm;
  unfold run, amo_mem, amo_rd, amo_old, amo_store, amo_size, amo_bits, write_gpr;
  norm; repeat (split_lt; norm);
  repeat match goal with H : (_ =? _) = _ |- _ => rewrite H end;
  eexists; reflexivity.

(** The atomics whose comparison, if they have one, is as wide as the
    access: all of LR, SC and the AMOs that combine, and the min and max
    forms on RV32 and in D form.  The operations [gen_atomic] emits
    implement the uncontended semantics: LR leaves the loaded value in
    [rd]; SC stores and leaves 0 in [rd]; every AMO loads the old value,
    stores the combined value and leaves the old value in [rd]; the min/max
    forms leave memory alone when the loaded value already satisfies the
    ordering and still return it. *)
Theorem gen_atomic_full_width hs c rv64 a dform aqrl rd rs1 rs2 m :
  implb dform rv64 = true -> 0 <= aqrl < 4 ->
  (amo_orders a = true -> dform = rv64) ->
  let X := if rv64 then 64 else 32 in
  let addr := wrap X (reg m rs1) in
  let src := wrap X (reg m rs2) in
  exists t,
    run hs (emitted (gen_atomic rv64 (Z.lor (amo_opc a dform) (Z.shiftl aqrl 25)) rd rs1 rs2)
                    (start c)) m
    = Fallthrough (mkMachine (write_gpr (env m) rd (amo_rd X a dform (mem m) addr))
                             (amo_mem X a dform (mem m) addr src) t).
Proof.
  intros Hd Haq Ho X addr src. subst X addr src.
  unfold gen_atomic. rewrite mask_aq_rl by assumption.
  unfold gen_get_gpr, gen_set_gpr, reg.
  destruct rv64, dform; try discriminate Hd; clear Hd;
  destruct (rd =? 0) eqn:Ed; destruct (rs1 =? 0) eqn:E1; destruct (rs2 =? 0) eqn:E2;
  cbn [negb]; destruct a; cbn [amo_opc];
  try (specialize (Ho eq_refl); discriminate Ho); clear Ho.
  all: atomic_case.
Qed.

(** C6 fails on the code for the W forms of the min and max AMOs on RV64:
    the branch that skips the store compares the sign-extended memory word
    with the whole 64-bit source register.  [amomin.w x3, x2, (x1)] with
    the word 5 in memory and x2 = 0x80000000 (the 32-bit minimum, upper
    half zero) must store 0x80000000; [amomaxu.w] with the word 0x80000000
    in memory and x2 = 0xFFFFFFFF must store 0xFFFFFFFF.  In both the code
    skips the store and memory keeps its word; [rd] gets the old word. *)
Theorem amo_w_order_compares_xlen :
  (let m := machine_amo 0x80000000 5 in
   load_bytes 4 (mem m) 0x100 = 5
   /\ load_bytes 4 (amo_mem 64 AMO_MIN false (mem m) 0x100 0x80000000) 0x100 = 0x80000000
   /\ forall hs, exists e t,
        run hs (emitted (gen_atomic true (amo_opc AMO_MIN false) 3 1 2)
                        (start (ctx_at 0x1000 0))) m
        = Fallthrough (mkMachine e (mem m) t)
        /\ gpr e 3 = 5)
  /\ (let m := machine_amo 0xFFFFFFFF 0x80000000 in
      load_bytes 4 (mem m) 0x100 = 0x80000000
      /\ load_bytes 4 (amo_mem 64 AMO_MAXU false (mem m) 0x100 0xFFFFFFFF) 0x100
         = 0xFFFFFFFF
      /\ forall hs, exists e t,
           run hs (emitted (gen_atomic true (amo_opc AMO_MAXU false) 3 1 2)
                           (start (ctx_at 0x1000 0))) m
           = Fallthrough (mkMachine e (mem m) t)
           /\ gpr e 3 = wrap 64 (signed 32 0x80000000)).
Proof.
  cbv zeta. split.
  - split; [reflexivity |]. split; [reflexivity |].
    intros hs. eexists. eexists. split; reflexivity.
  - split; [reflexivity |]. split; [reflexivity |].
    intros hs. eexists. eexists. split; reflexivity.
Qed.

(* ===================================================================== *)
(** * Misaligned jump and branch targets *)
(* ===================================================================== *)

(** [jalr] clears bit 0 of its target and tests bit 1. *)
Lemma jalr_bit1 w x :
  0 <= w -> Z.land (wrap w (-2)) 3 = 2 -> Z.land (wrap w (-2)) 2 = 2 ->
  Z.land 2 (Z.ones w) = 2 ->
  Z.land (Z.land x (wrap w (-2))) 3 <> 0 ->
  eval_cond w TCG_COND_NE (wrap w (Z.land (wrap w (Z.land x (wrap w (-2)))) 2)) 0 = true.
Proof.
  intros Hw E3 E2 Eo H. unfold eval_cond. rewrite wrap_wrap, wrap_land_r by assumption.
  rewrite <- Z.land_assoc, E3 in H. rewrite <- Z.land_assoc, E2.
  apply negb_true_iff, Z.eqb_neq. intro E. apply H.
  unfold wrap in E. rewrite <- Z.land_ones, <- Z.land_assoc, Eo in E by assumption.
  rewrite E. apply Z.mod_0_l. apply Z.pow_nonzero; lia.
Qed.

Lemma jalr_misaligned_64 x :
  Z.land (Z.land x (wrap 64 (-2))) 3 <> 0 ->
  eval_cond 64 TCG_COND_NE
    (wrap 64 (Z.land (wrap 64 (Z.land x 18446744073709551614)) 2)) 0 = true.
Proof. apply (jalr_bit1 64); [lia | reflexivity ..]. Qed.

Lemma jalr_misaligned_32 x :
  Z.land (Z.land x (wrap 32 (-2))) 3 <> 0 ->
  eval_cond 32 TCG_COND_NE
    (wrap 32 (Z.land (wrap 32 (Z.land x 4294967294)) 2)) 0 = true.
Proof. apply (jalr_bit1 32); [lia | reflexivity ..]. Qed.

(** What the code does with a misaligned target.  With the compressed
    extension disabled, a [jal], a [jalr] or a taken conditional branch
    whose target has one of its two low bits set raises
    instruction-address-misaligned; the program counter of the exception is
    the address of the jump or branch itself, and so is the bad address
    handed to [raise_exception_mbadaddr]. *)
Theorem misaligned_jump_raises hs c (rv64 : bool) tenv j m :
  riscv_has_ext tenv RISCV_FEATURE_RVC = false ->
  Z.land (jump_target (if rv64 then 64 else 32) (ctx_pc c) m j) 0x3 <> 0 ->
  jump_taken (if rv64 then 64 else 32) m j = true ->
  run hs (emitted (gen_jump rv64 tenv j) (start c)) m
  = Raised (misaligned_at (if rv64 then 64 else 32) (env m) (ctx_pc c)) (mem m).
Proof.
  intros Hrvc Ht Hk. open_ctx c.
  destruct j as [rd imm | rd rs1 imm | opc rs1 rs2 bimm];
    cbn [gen_jump jump_target jump_taken] in *.
  - apply Z.eqb_neq in Ht.
    unfold gen_jal, gen_goto_tb, use_goto_tb, misaligned_at.
    destruct rv64; translate; unfold run; norm; reflexivity.
  - unfold gen_jalr, gen_get_gpr, reg, misaligned_at in *.
    destruct rv64; destruct (rs1 =? 0) eqn:E1; translate; unfold run; norm;
      rewrite ?wrap_add_l;
      first [ rewrite (jalr_misaligned_64 _ Ht) | rewrite (jalr_misaligned_32 _ Ht) ];
      norm; reflexivity.
  - unfold gen_branch, gen_get_gpr, gen_goto_tb, use_goto_tb, reg, misaligned_at, branch_cond in *.
    unfold OPC_RISC_BEQ, OPC_RISC_BNE, OPC_RISC_BLT, OPC_RISC_BGE, OPC_RISC_BLTU,
      OPC_RISC_BGEU in Hk.
    apply Z.eqb_neq in Ht.
    destruct rv64; destruct (rs1 =? 0) eqn:E1; destruct (rs2 =? 0) eqn:E2; translate.
    all: repeat match goal with H : (?o =? _) = _, K : context [branch_cond] |- _ => fail 1 | H : (?o =? ?k) = _, K : context [?o =? ?k] |- _ => rewrite H in K end.
    all: try discriminate Hk.
    all: unfold run; sym; rewrite ?eval_cond_wrap_l, ?eval_cond_wrap_r, Hk; norm; reflexivity.
Qed.

(** C5 fails on the code in its bad-address part: the exception is raised
    and its program counter is the address of the instruction, but the bad
    address is that address too, not the misaligned target.
    [generate_exception_mbadaddr] passes [cpu_pc] to the helper right after
    overwriting it with [ctx->pc].  At 0x1000 on RV64 without the compressed
    extension, with x1 = 7: [jal x1, +10] has the target 0x100A,
    [jalr x3, 3(x1)] the target 10 and the taken [bne x1, x0, +6] the target
    0x1006; each raises with the bad address 0x1000. *)
Theorem misaligned_badaddr_is_not_target :
  let c := ctx_at 0x1000 0 in
  let raised_at_pc (ops : list tcg_op) :=
    forall hs, exists e,
      run hs ops machine_x1 = Raised e (mem machine_x1)
      /\ exception_index e = RISCV_EXCP_INST_ADDR_MIS
      /\ pc e = 0x1000 /\ badaddr e = 0x1000 in
  (jump_target 64 0x1000 machine_x1 (J_JAL 1 10) = 0x100A
   /\ raised_at_pc (emitted (gen_jal true cpu_x1 1 10) (start c)))
  /\ (jump_target 64 0x1000 machine_x1 (J_JALR 3 1 3) = 10
      /\ raised_at_pc (emitted (gen_jalr true cpu_x1 OPC_RISC_JALR 3 1 3) (start c)))
  /\ (jump_target 64 0x1000 machine_x1 (J_BRANCH OPC_RISC_BNE 1 0 6) = 0x1006
      /\ jump_taken 64 machine_x1 (J_BRANCH OPC_RISC_BNE 1 0 6) = true
      /\ raised_at_pc (emitted (gen_branch true cpu_x1 OPC_RISC_BNE 1 0 6) (start c))).
Proof.
  cbv zeta.
  split; [| split]; (split; [reflexivity |]); try (split; [reflexivity |]).
  all: intros hs; eexists; split; [vm_compute; reflexivity |].
  all: split; [reflexivity |]; split; reflexivity.
Qed.
(* ===================================================================== *)
(** * The FS test of the floating-point instructions *)
(* ===================================================================== *)






(* ===================================================================== *)
(** * An invariant of the translators *)
(* ===================================================================== *)

Section Invariant.

Variable R : Z -> Prop.
Variable n : nat.
Variable op : Z.

(** Appending operations keeps the invariant when they are safe and the
    block state is left other than [BS_NONE] if it was, or if one of them
    raises. *)
Lemma Inv_app s s' l :
  Inv R n op s ->
  gen_opc_buf (tcg s') = gen_opc_buf (tcg s) ++ l ->
  Forall (safe R) l ->
  (ctx_bstate (ctx s) <> BS_NONE -> ctx_bstate (ctx s') <> BS_NONE) ->
  (raises l = true -> ctx_bstate (ctx s') <> BS_NONE) ->
  ctx_opcode (ctx s') = ctx_opcode (ctx s) ->
  Inv R n op s'.
Proof.
  intros (Hn & Hs & Hr & Ho) E Hl Hb Hl' Eo. unfold Inv, appended in *. rewrite E.
  rewrite length_app, skipn_app.
  replace (n - List.length (gen_opc_buf (tcg s)))%nat with 0%nat by lia.
  cbn [skipn]. repeat split.
  - lia.
  - apply Forall_app. now split.
  - unfold raises in *. rewrite existsb_app. intros H.
    apply orb_true_iff in H as [H | H]; auto.
  - congruence.
Qed.

Lemma Inv_same s s' :
  Inv R n op s ->
  gen_opc_buf (tcg s') = gen_opc_buf (tcg s) ->
  ctx_bstate (ctx s') = ctx_bstate (ctx s) ->
  ctx_opcode (ctx s') = ctx_opcode (ctx s) ->
  Inv R n op s'.
Proof.
  intros H E B O. apply (Inv_app s s' []); auto.
  - now rewrite app_nil_r.
  - now rewrite B.
  - discriminate.
Qed.

Lemma keeps_ret {A} (a : A) : keeps R n op (ret a).
Proof. intros s H. exact H. Qed.

Lemma keeps_bind {A B} (m : M A) (f : A -> M B) :
  keeps R n op m -> (forall a, keeps R n op (f a)) -> keeps R n op (bind m f).
Proof.
  intros Hm Hf s H. unfold bind. specialize (Hm s H).
  destruct (m s) as [a s1]. now apply Hf.
Qed.

Lemma keeps_bind_assoc {A B C} (m : M A) (f : A -> M B) (g : B -> M C) :
  keeps R n op (bind m (fun a => bind (f a) g)) -> keeps R n op (bind (bind m f) g).
Proof.
  intros H s Hs. specialize (H s Hs). unfold bind in *.
  destruct (m s) as [a s1]. destruct (f a s1) as [b s2]. exact H.
Qed.

Lemma keeps_ret_bind {A B} (a : A) (f : A -> M B) :
  keeps R n op (f a) -> keeps R n op (bind (ret a) f).
Proof. intros H s Hs. exact (H s Hs). Qed.

Lemma keeps_new_temp {B} (l : bool) (f : TCGv -> M B) :
  (forall k, keeps R n op (f (Temp l k))) -> keeps R n op (bind (new_temp l) f).
Proof.
  intros H s Hs. unfold bind, new_temp. apply H.
  now apply (Inv_same s).
Qed.

Lemma keeps_bind_get_ctx {B} (f : DisasContext -> M B) :
  (forall c, ctx_opcode c = op -> keeps R n op (f c)) -> keeps R n op (bind get_ctx f).
Proof. intros H s Hs. apply (H (ctx s)); [apply Hs | exact Hs]. Qed.

Lemma keeps_get_ctx : keeps R n op get_ctx.
Proof. intros s H. exact H. Qed.

Lemma keeps_gen_new_label : keeps R n op gen_new_label.
Proof. intros s H. now apply (Inv_same s). Qed.

Lemma keeps_tcg_temp_free t : keeps R n op (tcg_temp_free t).
Proof. intros s H. now apply (Inv_same s). Qed.

Lemma keeps_emit o : safe R o -> is_raise o = false -> keeps R n op (emit o).
Proof.
  intros Ho Hr s H. apply (Inv_app s _ [o]); auto.
  cbn [raises existsb]. now rewrite Hr.
Qed.

Lemma keeps_set_bstate v : v <> BS_NONE -> keeps R n op (set_bstate v).
Proof.
  intros Hv s H. apply (Inv_app s _ []); auto.
  cbn. now rewrite app_nil_r.
Qed.

Lemma keeps_set_ctx_pc v : keeps R n op (set_ctx_pc v).
Proof. intros s H. now apply (Inv_same s). Qed.

Lemma keeps_set_ctx_next_pc v : keeps R n op (set_ctx_next_pc v).
Proof. intros s H. now apply (Inv_same s). Qed.

Lemma keeps_set_ctx_tb t : keeps R n op (set_ctx_tb t).
Proof. intros s H. now apply (Inv_same s). Qed.

(** [generate_exception] followed by leaving [BS_NONE]. *)
Lemma keeps_raise_then rv64 excp {A} (k : M A) :
  (forall s, ctx_bstate (ctx (snd (k s))) <> BS_NONE) ->
  (forall s, exists l, gen_opc_buf (tcg (snd (k s))) = gen_opc_buf (tcg s) ++ l
                       /\ Forall (safe R) l
                       /\ ctx_opcode (ctx (snd (k s))) = ctx_opcode (ctx s)) ->
  keeps R n op (bind (generate_exception rv64 excp) (fun _ => k)).
Proof.
  intros Hb Hl s H. unfold bind.
  destruct (generate_exception rv64 excp s) as [u s1] eqn:E.
  destruct (Hl s1) as (l & El & Sl & Ol).
  assert (E1 : gen_opc_buf (tcg s1) = gen_opc_buf (tcg s) ++
            [Mov (tl rv64) cpu_pc (I (ctx_pc (ctx s)));
             Mov 32 (Temp false (nb_temps (tcg s))) (I excp);
             Call "raise_exception" None [V (Temp false (nb_temps (tcg s)))]]).
  { apply (f_equal snd) in E. cbn in E. subst s1. cbn.
    now rewrite <- !app_assoc. }
  apply (Inv_app s _ ([Mov (tl rv64) cpu_pc (I (ctx_pc (ctx s)));
             Mov 32 (Temp false (nb_temps (tcg s))) (I excp);
             Call "raise_exception" None [V (Temp false (nb_temps (tcg s)))]] ++ l) H);
    auto.
  - rewrite El, E1, <- app_assoc. reflexivity.
  - apply Forall_app. split; [| exact Sl].
    repeat constructor; (intros r Hin || intros Hin); cbn in Hin;
      repeat (destruct Hin as [Hin | Hin]; try discriminate Hin); contradiction.
  - rewrite Ol. apply (f_equal snd) in E. cbn in E. now subst s1.
Qed.

Lemma keeps_kill_unknown rv64 excp : keeps R n op (kill_unknown rv64 excp).
Proof.
  unfold kill_unknown. apply keeps_raise_then.
  - intros s. cbn. discriminate.
  - intros s. exists []. cbn. now rewrite app_nil_r.
Qed.

Lemma keeps_raise_branch rv64 excp :
  keeps R n op (bind (generate_exception rv64 excp)
               (fun _ => bind (gen_exit_tb false 0) (fun _ => set_bstate BS_BRANCH))).
Proof.
  apply keeps_raise_then.
  - intros s. cbn. discriminate.
  - intros s. exists [ExitTb false 0]. cbn. split; [reflexivity | split; [| reflexivity]].
    repeat constructor; (intros r [] || intros []).
Qed.

End Invariant.

(** ** Walking through a translator *)

Ltac head_of t :=
  lazymatch t with
  | ?f _ => head_of f
  | _ => t
  end.

Ltac note_cond E :=
  repeat lazymatch type of E with
  | negb _ = true => apply (proj1 (negb_true_iff _)) in E
  | negb _ = false => apply (proj1 (negb_false_iff _)) in E
  | (_ =? _) = false => apply (proj1 (Z.eqb_neq _ _)) in E
  end.

Ltac allowed_tac :=
  match goal with
  | H : allowed _ ?r |- _ ?r => apply H; assumption
  | H : forall r, allowed _ r |- _ ?r => apply H; assumption
  end.

Ltac safe_in Hin :=
  lazymatch type of Hin with
  | _ \/ _ =>
      destruct Hin as [Hin | Hin];
      [ first [ discriminate Hin | injection Hin as <-; allowed_tac ] | safe_in Hin ]
  | False => contradiction
  end.

Ltac unread_in Hin :=
  lazymatch type of Hin with
  | _ \/ _ =>
      destruct Hin as [Hin | Hin];
      [ first [ discriminate Hin | injection Hin as Hin; congruence ] | unread_in Hin ]
  | False => contradiction
  end.

Ltac safe_tac :=
  let r := fresh "r" in
  let Hin := fresh "Hin" in
  split;
  [ intros r Hin; cbn [dests In] in Hin; safe_in Hin
  | intros Hin; cbn [srcs In map] in Hin; unread_in Hin ].

(** Lemmas about whole translators are added to this database as they are
    proved. *)
Create HintDb keeps discriminated.

Ltac keeps_step :=
  cbv beta zeta;
  lazymatch goal with
  | |- keeps _ _ _ (bind (ret _) _) => apply keeps_ret_bind
  | |- keeps _ _ _ (bind (bind _ _) _) => apply keeps_bind_assoc
  | |- keeps _ _ _ (bind (new_temp _) _) => apply keeps_new_temp; intro
  | |- keeps _ _ _ (bind get_ctx _) =>
      let c := fresh "c" in
      let Hc := fresh "Hc" in
      apply keeps_bind_get_ctx; intros c Hc; try rewrite Hc
  | |- keeps _ _ _ (bind (generate_exception _ _)
                      (fun _ => bind (gen_exit_tb false 0)
                                  (fun _ => set_bstate BS_BRANCH))) =>
      apply keeps_raise_branch
  | |- keeps _ _ _ (@bind TCGv _ ?m _) => let h := head_of m in unfold h
  | |- keeps _ _ _ (bind _ _) => apply keeps_bind; [ | intro ]
  | |- keeps _ _ _ (ret _) => apply keeps_ret
  | |- keeps _ _ _ (if ?b then _ else _) =>
      let E := fresh "E" in destruct b eqn:E; note_cond E
  | |- keeps _ _ _ (emit _) => apply keeps_emit; [ safe_tac | reflexivity ]
  | |- keeps _ _ _ get_ctx => apply keeps_get_ctx
  | |- keeps _ _ _ gen_new_label => apply keeps_gen_new_label
  | |- keeps _ _ _ (tcg_temp_free _) => apply keeps_tcg_temp_free
  | |- keeps _ _ _ (set_bstate _) => apply keeps_set_bstate; discriminate
  | |- keeps _ _ _ (set_ctx_pc _) => apply keeps_set_ctx_pc
  | |- keeps _ _ _ (set_ctx_next_pc _) => apply keeps_set_ctx_next_pc
  | |- keeps _ _ _ (set_ctx_tb _) => apply keeps_set_ctx_tb
  | |- keeps _ _ _ (kill_unknown _ _) => apply keeps_kill_unknown
  | |- keeps _ _ _ ?m =>
      first [ solve [ auto 3 with keeps nocore ]
            | let h := head_of m in unfold h ]
  end.

Ltac keeps_go := repeat keeps_step.

Section Translators.

Variable R : Z -> Prop.
Variable n : nat.
Variable op : Z.
Variable rv64 : bool.

Lemma keeps_gen_arith opc rd rs1 rs2 :
  allowed R rd -> keeps R n op (gen_arith rv64 opc rd rs1 rs2).
Proof. intros Hrd. unfold gen_arith. keeps_go. Qed.

#[local] Hint Resolve keeps_gen_arith : keeps.

Lemma keeps_gen_arith_imm opc rd rs1 imm :
  allowed R rd -> keeps R n op (gen_arith_imm rv64 opc rd rs1 imm).
Proof. intros Hrd. unfold gen_arith_imm. keeps_go. Qed.

Lemma keeps_gen_jal env rd imm :
  allowed R rd -> keeps R n op (gen_jal rv64 env rd imm).
Proof. intros Hrd. unfold gen_jal. keeps_go. Qed.

Lemma keeps_gen_jalr env opc rd rs1 imm :
  allowed R rd -> keeps R n op (gen_jalr rv64 env opc rd rs1 imm).
Proof. intros Hrd. unfold gen_jalr. keeps_go. Qed.

Lemma keeps_gen_branch env opc rs1 rs2 bimm :
  keeps R n op (gen_branch rv64 env opc rs1 rs2 bimm).
Proof. unfold gen_branch. keeps_go. Qed.

Lemma keeps_gen_load opc rd rs1 imm :
  allowed R rd -> keeps R n op (gen_load rv64 opc rd rs1 imm).
Proof. intros Hrd. unfold gen_load. keeps_go. Qed.

Lemma keeps_gen_store opc rs1 rs2 imm :
  keeps R n op (gen_store rv64 opc rs1 rs2 imm).
Proof. unfold gen_store. keeps_go. Qed.

Lemma keeps_gen_fp_load opc rd rs1 imm :
  keeps R n op (gen_fp_load rv64 opc rd rs1 imm).
Proof. unfold gen_fp_load. keeps_go. Qed.

Lemma keeps_gen_fp_store opc rs1 rs2 imm :
  keeps R n op (gen_fp_store rv64 opc rs1 rs2 imm).
Proof. unfold gen_fp_store. keeps_go. Qed.

Lemma keeps_gen_atomic opc rd rs1 rs2 :
  allowed R rd -> keeps R n op (gen_atomic rv64 opc rd rs1 rs2).
Proof. intros Hrd. unfold gen_atomic. keeps_go. Qed.

Lemma keeps_gen_fp_fmadd opc rd rs1 rs2 rs3 rm :
  keeps R n op (gen_fp_fmadd rv64 opc rd rs1 rs2 rs3 rm).
Proof. unfold gen_fp_fmadd, gen_fp_fma. keeps_go. Qed.

Lemma keeps_gen_fp_fmsub opc rd rs1 rs2 rs3 rm :
  keeps R n op (gen_fp_fmsub rv64 opc rd rs1 rs2 rs3 rm).
Proof. unfold gen_fp_fmsub, gen_fp_fma. keeps_go. Qed.

Lemma keeps_gen_fp_fnmsub opc rd rs1 rs2 rs3 rm :
  keeps R n op (gen_fp_fnmsub rv64 opc rd rs1 rs2 rs3 rm).
Proof. unfold gen_fp_fnmsub, gen_fp_fma. keeps_go. Qed.

Lemma keeps_gen_fp_fnmadd opc rd rs1 rs2 rs3 rm :
  keeps R n op (gen_fp_fnmadd rv64 opc rd rs1 rs2 rs3 rm).
Proof. unfold gen_fp_fnmadd, gen_fp_fma. keeps_go. Qed.

Lemma keeps_gen_fp_arith opc rd rs1 rs2 rm :
  allowed R rd -> keeps R n op (gen_fp_arith rv64 opc rd rs1 rs2 rm).
Proof. intros Hrd. unfold gen_fp_arith. keeps_go. Qed.

Lemma keeps_gen_system opc rd rs1 csr :
  allowed R rd -> keeps R n op (gen_system rv64 opc rd rs1 csr).
Proof. intros Hrd. unfold gen_system. keeps_go. Qed.

#[local] Hint Resolve keeps_gen_arith_imm keeps_gen_jal keeps_gen_jalr
  keeps_gen_branch keeps_gen_load keeps_gen_store keeps_gen_fp_load
  keeps_gen_fp_store keeps_gen_atomic keeps_gen_fp_fmadd keeps_gen_fp_fmsub
  keeps_gen_fp_fnmsub keeps_gen_fp_fnmadd keeps_gen_fp_arith keeps_gen_system : keeps.

Lemma keeps_decode_RV32_64G env :
  allowed R (GET_RD op) -> keeps R n op (decode_RV32_64G rv64 env).
Proof. intros Hrd. unfold decode_RV32_64G. keeps_go. Qed.

Section AnyRegister.

Hypothesis HR : forall r, allowed R r.

Lemma keeps_decode_RV32_64C0 : keeps R n op (decode_RV32_64C0 rv64).
Proof. unfold decode_RV32_64C0. keeps_go. Qed.

Lemma keeps_decode_RV32_64C1 env : keeps R n op (decode_RV32_64C1 rv64 env).
Proof. unfold decode_RV32_64C1. keeps_go. Qed.

Lemma keeps_decode_RV32_64C2 env : keeps R n op (decode_RV32_64C2 rv64 env).
Proof. unfold decode_RV32_64C2. keeps_go. Qed.

#[local] Hint Resolve keeps_decode_RV32_64C0 keeps_decode_RV32_64C1
  keeps_decode_RV32_64C2 keeps_decode_RV32_64G : keeps.

Lemma keeps_decode_RV32_64C env : keeps R n op (decode_RV32_64C rv64 env).
Proof. unfold decode_RV32_64C. keeps_go. Qed.

#[local] Hint Resolve keeps_decode_RV32_64C : keeps.

Lemma keeps_disas_insn env : keeps R n op (disas_insn rv64 env).
Proof. unfold disas_insn. keeps_go. Qed.

End AnyRegister.

End Translators.

(** ** Running code that writes only some registers *)

Section Frame.

Variable hs : string -> list Z -> CPUState -> helper_result.
Hypothesis Hhs : helpers_keep_gprs hs.
Variable R : Z -> Prop.
Variable r : Z.
Hypothesis Hr : ~ R r.

Lemma write_keeps_gpr m d x :
  (forall r', d = cpu_gpr r' -> R r') ->
  gpr (env (write m d x)) r = gpr (env m) r.
Proof.
  destruct d as [l k | r' | r' |]; cbn; try reflexivity.
  intros H. unfold upd. destruct (r =? r') eqn:E; [| reflexivity].
  apply Z.eqb_eq in E. subst r'. exfalso. now apply Hr, H.
Qed.

Lemma call_helper_keeps_gpr h args e :
  gpr (helper_env (call_helper hs h args e)) r = gpr e r.
Proof.
  unfold call_helper.
  repeat match goal with |- context [String.eqb ?a ?b] => destruct (String.eqb a b) end;
    cbn; try reflexivity.
  apply Hhs.
Qed.

Lemma step_keeps_gpr o m :
  safe R o ->
  match step hs o m with
  | Next m' | Jump m' _ => gpr (env m') r = gpr (env m) r
  | Stop out => gpr_is r (gpr (env m) r) out
  end.
Proof.
  intros [Hd _].
  assert (W : forall m0 d x, In d (dests o) ->
              gpr (env (write m0 d x)) r = gpr (env m0) r).
  { intros m0 d x Hin. apply write_keeps_gpr. intros r' ->. now apply Hd. }
  destruct o; cbn [step]; cbn [dests] in W;
    try (apply W; now left); try reflexivity.
  - destruct (eval_binop _ _ _ _); [apply W; now left | exact Logic.I].
  - rewrite W by (right; now left). rewrite W by now left. reflexivity.
  - destruct (eval_cond _ _ _ _); reflexivity.
  - match goal with
    | |- context [call_helper hs ?h ?a ?e] =>
        pose proof (call_helper_keeps_gpr h a e) as Hc;
        destruct (call_helper hs h a e) as [e' x | e']; cbn in Hc
    end.
    + match goal with
      | |- context [match ?rt with Some _ => _ | None => _ end] =>
          destruct rt as [d |]
      end; [| exact Hc].
      rewrite W by now left. exact Hc.
    + exact Hc.
Qed.

Lemma exec_keeps_gpr ops :
  Forall (safe R) ops ->
  forall seek m, gpr_is r (gpr (env m) r) (exec hs ops seek m).
Proof.
  induction 1 as [| o rest Ho Hrest IH]; intros seek m.
  - destruct seek; cbn; [exact Logic.I | reflexivity].
  - cbn [exec]. destruct seek as [l |].
    + destruct o; try apply IH. destruct (Nat.eqb l l0); apply IH.
    + pose proof (step_keeps_gpr o m Ho) as Hs.
      destruct (step hs o m) as [m' | m' l | out].
      * rewrite <- Hs. apply IH.
      * rewrite <- Hs. apply IH.
      * exact Hs.
Qed.

End Frame.

Lemma Inv_start R c : Inv R 0 (ctx_opcode c) (start c).
Proof.
  unfold Inv, appended. cbn. repeat split; try constructor. discriminate.
Qed.

Lemma Inv_here R s : Inv R (List.length (gen_opc_buf (tcg s))) (ctx_opcode (ctx s)) s.
Proof.
  unfold Inv, appended. rewrite skipn_all. repeat split; try constructor.
  cbn. discriminate.
Qed.

Lemma nonzero_allowed r : allowed (fun x => x <> 0) r.
Proof. intros H. exact H. Qed.


Lemma Inv_bind R n op {A B} (m : M A) (f : A -> M B) s :
  Inv R n op (snd (m s)) -> (forall a, keeps R n op (f a)) ->
  Inv R n op (snd (bind m f s)).
Proof.
  intros H Hf. unfold bind. destruct (m s) as [a s1]. now apply Hf.
Qed.

Lemma Inv_bind_get_ctx R n op {B} (f : DisasContext -> M B) s :
  Inv R n op (snd (f (ctx s) s)) -> Inv R n op (snd (bind get_ctx f s)).
Proof. intros H. exact H. Qed.

Lemma translate_insn_Inv R rv64 ldl_code tenv s :
  (forall r, allowed R r) ->
  Inv R (List.length (gen_opc_buf (tcg s))) (ldl_code (ctx_pc (ctx s)))
      (snd (translate_insn rv64 ldl_code tenv s)).
Proof.
  intros HR. unfold translate_insn.
  pose proof (keeps_disas_insn R) as Hd.
  apply Inv_bind_get_ctx, Inv_bind.
  - apply (Inv_here R (snd (set_ctx_opcode (ldl_code (ctx_pc (ctx s))) s))).
  - intros []. keeps_go.
Qed.

Lemma safe_unused o : safe (fun x => x <> 0) o -> unused_gpr0 o.
Proof. intros [Hd Hs]. split; [| exact Hs]. intros H. now apply Hd in H. Qed.

(* ===================================================================== *)
(** * The destination register of an instruction *)
(* ===================================================================== *)

(** Proves [allowed (dest_only rv64 op) r] for the register [r] a decoder
    arm passes on, from the conditions of the arm. *)
Ltac dest_allowed :=
  let H := fresh "H" in
  intros H; split; [| exact H];
  unfold insn_rd, c_insn_rd; cbv zeta;
  repeat match goal with E : ?b = _ |- context [?b] => rewrite E end;
  first [ reflexivity
        | symmetry; apply Z.eqb_eq; assumption
        | exfalso; apply H; reflexivity ].

Ltac dest_step :=
  cbv beta zeta;
  lazymatch goal with
  | |- keeps _ _ _ (if ?b then _ else _) =>
      let E := fresh "E" in destruct b eqn:E
  | |- keeps _ _ _ (gen_arith_imm _ _ _ _ _) => apply keeps_gen_arith_imm; dest_allowed
  | |- keeps _ _ _ (gen_arith _ _ _ _ _) => apply keeps_gen_arith; dest_allowed
  | |- keeps _ _ _ (gen_load _ _ _ _ _) => apply keeps_gen_load; dest_allowed
  | |- keeps _ _ _ (gen_jal _ _ _ _) => apply keeps_gen_jal; dest_allowed
  | |- keeps _ _ _ (gen_jalr _ _ _ _ _ _) => apply keeps_gen_jalr; dest_allowed
  | |- keeps _ _ _ (gen_system _ _ _ _ _) => apply keeps_gen_system; dest_allowed
  | |- keeps _ _ _ (gen_store _ _ _ _ _) => apply keeps_gen_store
  | |- keeps _ _ _ (gen_fp_load _ _ _ _ _) => apply keeps_gen_fp_load
  | |- keeps _ _ _ (gen_fp_store _ _ _ _ _) => apply keeps_gen_fp_store
  | |- keeps _ _ _ (gen_branch _ _ _ _ _ _) => apply keeps_gen_branch
  | |- keeps ?R _ _ (tcg_gen_movi_tl _ (cpu_gpr ?r) _) =>
      let Ha := fresh "Ha" in
      assert (Ha : allowed R r) by dest_allowed;
      repeat match goal with E : negb (_ =? _) = true |- _ => note_cond E end;
      unfold tcg_gen_movi_tl; apply keeps_emit; [ safe_tac | reflexivity ]
  | |- keeps _ _ _ (bind get_ctx _) =>
      let c := fresh "c" in
      let Hc := fresh "Hc" in
      apply keeps_bind_get_ctx; intros c Hc; try rewrite Hc
  | |- keeps _ _ _ (kill_unknown _ _) => apply keeps_kill_unknown
  | |- keeps _ _ _ (ret _) => apply keeps_ret
  end.

Section Destination.

Variable n : nat.
Variable op : Z.
Variable rv64 : bool.

Hypothesis Hc : (extract32 op 0 2 =? 3) = false.

Lemma keeps_dest_C0 :
  (extract32 op 0 2 =? 0) = true ->
  keeps (dest_only rv64 op) n op (decode_RV32_64C0 rv64).
Proof.
  intros Q0. unfold decode_RV32_64C0, to_long, to_ulong.
  destruct rv64; repeat dest_step.
Qed.

Lemma keeps_dest_C1 env :
  (extract32 op 0 2 =? 0) = false -> (extract32 op 0 2 =? 1) = true ->
  keeps (dest_only rv64 op) n op (decode_RV32_64C1 rv64 env).
Proof.
  intros Q0 Q1. unfold decode_RV32_64C1, to_long, to_ulong.
  destruct rv64; repeat dest_step.
Qed.

Lemma keeps_dest_C2 env :
  (extract32 op 0 2 =? 0) = false -> (extract32 op 0 2 =? 1) = false ->
  (extract32 op 0 2 =? 2) = true ->
  keeps (dest_only rv64 op) n op (decode_RV32_64C2 rv64 env).
Proof.
  intros Q0 Q1 Q2. unfold decode_RV32_64C2, to_long, to_ulong.
  destruct rv64; repeat dest_step.
Qed.

Lemma keeps_dest_C env :
  keeps (dest_only rv64 op) n op (decode_RV32_64C rv64 env).
Proof.
  unfold decode_RV32_64C.
  apply keeps_bind_get_ctx; intros c Hop; rewrite Hop; cbv zeta.
  destruct (extract32 op 0 2 =? 0) eqn:Q0; [now apply keeps_dest_C0 |].
  destruct (extract32 op 0 2 =? 1) eqn:Q1; [now apply keeps_dest_C1 |].
  destruct (extract32 op 0 2 =? 2) eqn:Q2; [now apply keeps_dest_C2 |].
  apply keeps_ret.
Qed.

End Destination.

Lemma keeps_dest_disas_insn n op rv64 env :
  keeps (dest_only rv64 op) n op (disas_insn rv64 env).
Proof.
  unfold disas_insn.
  apply keeps_bind_get_ctx; intros c Hop; rewrite Hop.
  destruct (extract32 op 0 2 =? 3) eqn:Q; cbn [negb].
  - assert (Ha : allowed (dest_only rv64 op) (GET_RD op)).
    { intros H. split; [| exact H]. unfold insn_rd. now rewrite Q. }
    pose proof (keeps_decode_RV32_64G (dest_only rv64 op) n op rv64 env Ha) as Hg.
    keeps_go.
  - pose proof (keeps_dest_C n op rv64 Q env) as Hg.
    keeps_go.
Qed.

(** C3.  No operation emitted for an instruction writes or reads the
    placeholder of register 0, so running the code of any instruction
    leaves gpr[0] as it was (zero stays zero); the code of an instruction,
    full-size or compressed, changes no general-purpose register other than
    the destination the instruction names, and none at all when that
    destination is x0; a read of register 0 is the constant 0 and a write
    to it emits nothing.  The helpers called from generated code are
    assumed not to write the general-purpose registers themselves. *)
Theorem register_zero_invariant hs rv64 tenv c m :
  helpers_keep_gprs hs ->
  Forall unused_gpr0 (emitted (disas_insn rv64 tenv) (start c))
  /\ gpr_is 0 (gpr (env m) 0) (run hs (emitted (disas_insn rv64 tenv) (start c)) m)
  /\ (forall r, r <> insn_rd rv64 (ctx_opcode c) ->
                gpr_is r (gpr (env m) r)
                  (run hs (emitted (disas_insn rv64 tenv) (start c)) m))
  /\ (insn_rd rv64 (ctx_opcode c) = 0 ->
      forall r, gpr_is r (gpr (env m) r)
                  (run hs (emitted (disas_insn rv64 tenv) (start c)) m))
  /\ (GET_RD (ctx_opcode c) = 0 ->
      forall r, gpr_is r (gpr (env m) r)
                  (run hs (emitted (decode_RV32_64G rv64 tenv) (start c)) m))
  /\ (forall l k, run hs (emitted (gen_get_gpr rv64 (Temp l k) 0) (start c)) m
                  = Fallthrough (write m (Temp l k) 0))
  /\ (forall t, emitted (gen_set_gpr rv64 0 t) (start c) = []).
Proof.
  intros Hhs.
  assert (A : Forall (safe (fun x => x <> 0))
                (emitted (disas_insn rv64 tenv) (start c))).
  { apply (keeps_disas_insn _ 0 _ rv64 nonzero_allowed tenv (start c) (Inv_start _ c)). }
  assert (D : Forall (safe (dest_only rv64 (ctx_opcode c)))
                (emitted (disas_insn rv64 tenv) (start c))).
  { apply (keeps_dest_disas_insn 0 (ctx_opcode c) rv64 tenv (start c) (Inv_start _ c)). }
  assert (Z0 : gpr_is 0 (gpr (env m) 0)
                 (run hs (emitted (disas_insn rv64 tenv) (start c)) m)).
  { apply (exec_keeps_gpr hs Hhs (fun x => x <> 0)); [| exact A].
    intros H. now apply H. }
  assert (O : forall r, r <> insn_rd rv64 (ctx_opcode c) ->
                gpr_is r (gpr (env m) r)
                  (run hs (emitted (disas_insn rv64 tenv) (start c)) m)).
  { intros r Hr.
    apply (exec_keeps_gpr hs Hhs (dest_only rv64 (ctx_opcode c))); [| exact D].
    intros [E _]. contradiction. }
  repeat split.
  - eapply Forall_impl; [| exact A]. apply safe_unused.
  - exact Z0.
  - exact O.
  - intros Hrd r. destruct (Z.eq_dec r 0) as [-> | Hr]; [exact Z0 |].
    apply O. now rewrite Hrd.
  - intros Hrd r.
    apply (exec_keeps_gpr hs Hhs (fun x => x = GET_RD (ctx_opcode c) /\ x <> 0)).
    + rewrite Hrd. intros [E1 E2]. contradiction.
    + assert (Ha : allowed (fun x => x = GET_RD (ctx_opcode c) /\ x <> 0)
                     (GET_RD (ctx_opcode c))) by (intros H; now split).
      apply (keeps_decode_RV32_64G _ 0 (ctx_opcode c) rv64 tenv Ha (start c)
               (Inv_start _ c)).
Qed.

(** C10.  [kill_unknown] leaves the block state at [BS_STOP] after the
    raise it appends; and when the operations appended for one instruction
    contain a raise emitted by [generate_exception], as every path through
    [kill_unknown] does, the block state after the instruction is not
    [BS_NONE] and the loop of [gen_intermediate_code] ends with that
    instruction, whatever fuel is left: no further instruction is
    translated into the block. *)
Theorem illegal_instruction_ends_block rv64 ldl_code opc_max fuel tenv max_insns s :
  process_breakpoints tenv (ctx_pc (ctx s)) = false ->
  raises (appended (List.length (gen_opc_buf (tcg s)))
            (snd (translate_insn rv64 ldl_code tenv s))) = true ->
  (forall excp s0,
     ctx_bstate (ctx (snd (kill_unknown rv64 excp s0))) = BS_STOP
     /\ raises (appended (List.length (gen_opc_buf (tcg s0)))
                  (snd (kill_unknown rv64 excp s0))) = true)
  /\ ctx_bstate (ctx (snd (translate_insn rv64 ldl_code tenv s))) <> BS_NONE
  /\ translate_loop rv64 ldl_code opc_max fuel tenv max_insns s
     = stops_after (snd (translate_insn rv64 ldl_code tenv s)).
Proof.
  intros Hbp Hr.
  assert (B : ctx_bstate (ctx (snd (translate_insn rv64 ldl_code tenv s))) <> BS_NONE).
  { destruct (translate_insn_Inv (fun x => x <> 0) rv64 ldl_code tenv s nonzero_allowed)
      as (_ & _ & H & _).
    now apply H. }
  split; [| split; [exact B |]].
  - intros excp s0. split; [reflexivity |].
    unfold appended. cbn. rewrite <- !app_assoc, skipn_app, skipn_all, Nat.sub_diag.
    reflexivity.
  - apply Z.eqb_neq in B. unfold stops_after.
    destruct fuel; cbn [translate_loop]; rewrite Hbp; cbv zeta; rewrite B; reflexivity.
Qed.
(* ===================================================================== *)
(** * The vector helpers *)
(* ===================================================================== *)

Lemma MIN_le_r x y : MIN x y <= y.
Proof. unfold MIN. destruct (x <? y) eqn:E; [apply Z.ltb_lt in E |]; lia. Qed.

Lemma MIN_mono x x' y : x <= x' -> MIN x y <= MIN x' y.
Proof.
  unfold MIN. intros H.
  destruct (x <? y) eqn:E; destruct (x' <? y) eqn:E'; lia.
Qed.

(** C7.  A call of [helper_vsetvl] that passes [require_vec] returns the
    [vl] it stores; for the same CPU state, register numbers, [vtype] value
    and immediate flag, a larger [avl] never gives a smaller [vl]; [vl] is
    at most the [vlmax] stored by the call; [vstart] is zero afterwards,
    whether or not [vill] was set. *)
Theorem helper_vsetvl_monotone rv64 env rd rs1 avl1 avl2 vtype0 is_imm :
  Z.land (mstatus env) MSTATUS_VS <> 0 ->
  avl1 <= avl2 ->
  exists e1 e2,
    helper_vsetvl rv64 env rd rs1 avl1 vtype0 is_imm = HReturn e1 (vl (vec e1))
    /\ helper_vsetvl rv64 env rd rs1 avl2 vtype0 is_imm = HReturn e2 (vl (vec e2))
    /\ vl (vec e1) <= vl (vec e2)
    /\ vlmax (vec e1) = vlmax (vec e2)
    /\ vl (vec e1) <= vlmax (vec e1)
    /\ vstart (vec e1) = 0
    /\ vstart (vec e2) = 0.
Proof.
  intros Hvs Havl. apply Z.eqb_neq in Hvs.
  unfold helper_vsetvl, require_vec. rewrite Hvs. cbn [and_then].
  lazymatch goal with
  | |- exists e1 e2, HReturn ?a _ = _ /\ HReturn ?b _ = _ /\ _ => exists a, b
  end.
  split; [reflexivity |]. split; [reflexivity |].
  cbn [vl vlmax vstart vec set_vec].
  match goal with
  | |- context [MIN avl1 ?x] => generalize x
  end.
  intros vm. repeat split.
  - destruct (is_imm =? 1); [now apply MIN_mono |].
    destruct (vm =? 0); [lia |].
    destruct ((rd =? 0) && (rs1 =? 0)); [lia |].
    destruct ((rs1 =? 0) && negb (rd =? 0)); [lia | now apply MIN_mono].
  - destruct (is_imm =? 1); [apply MIN_le_r |].
    destruct (vm =? 0) eqn:E; [apply Z.eqb_eq in E; lia |].
    destruct ((rd =? 0) && (rs1 =? 0)); [apply MIN_le_r |].
    destruct ((rs1 =? 0) && negb (rd =? 0)); [lia | apply MIN_le_r].
Qed.

(** C8, at an input where the code leaves the range: [helper_vadc_vvm]
    started with [vstart = 1] and [vl = 2] at SEW 8 rewrites element 0 of
    the destination (here from 0 to [vs2[0] + vs1[0]] = 5), while
    [helper_vmv_ivi] on the same state leaves element 0 alone. *)
Theorem vadc_ignores_vstart :
  let e := vcpu 1 2 8 [(32, 5)] in
  velem e 8 1 0 = 0
  /\ (exists e', helper_vadc_vvm any_vreg e 1 2 3 = HReturn e' 0 /\ velem e' 8 1 0 = 5)
  /\ (exists e', helper_vmv_ivi any_vreg e 1 7 = HReturn e' 0
                 /\ velem e' 8 1 0 = 0 /\ velem e' 8 1 1 = 7).
Proof.
  cbv zeta. split; [reflexivity |]. split; eexists; (split; [reflexivity |]).
  - vm_compute. reflexivity.
  - split; vm_compute; reflexivity.
Qed.

(** C9, at inputs where the written bit is not the carry or borrow:
    [helper_vmadc_vvm] at SEW 8 with [a = 0xFF], [b = 0] and carry-in 1
    writes 0 although the sum carries out; [helper_vmsbc_vvm] at SEW 32 with
    [a = b = 0] and borrow-in 1 writes 0 although the difference borrows. *)
Theorem carry_bit_not_exact :
  (let e := vcpu 0 1 8 [(0, 1); (32, 0xFF)] in
   exists e', helper_vmadc_vvm any_vreg e 1 2 3 = HReturn e' 0
              /\ vmask e' 1 0 = false
              /\ carry_out 8 (velem e 8 2 0) (velem e 8 3 0) (mask_bit e 0) = true)
  /\ (let e := vcpu 0 1 32 [(0, 1)] in
      exists e', helper_vmsbc_vvm any_vreg e 1 2 3 = HReturn e' 0
                 /\ vmask e' 1 0 = false
                 /\ borrow_out (velem e 32 2 0) (velem e 32 3 0) (mask_bit e 0) = true).
Proof.
  cbv zeta. split; eexists; (split; [reflexivity |]); split; vm_compute; reflexivity.
Qed.
(* ===================================================================== *)
(** * The theorems at concrete inputs *)
(* ===================================================================== *)

(** [divw x3, x1, x2] on RV64 with x1 = 7 and x2 = 0: division by zero. *)
Lemma gen_arith_divrem_correct_witness :
  exists t,
    run quiet_helpers
        (emitted (gen_arith true (divrem_opc DR_DIV true) 3 1 2) (start (ctx_at 0x1000 0)))
        machine_x1
    = Fallthrough (mkMachine (set_gpr (env machine_x1) 3
                     (divrem_result true DR_DIV true (reg machine_x1 1) (reg machine_x1 2)))
                     (mem machine_x1) t).
Proof.
  apply (gen_arith_divrem_correct quiet_helpers (ctx_at 0x1000 0) true DR_DIV true 3 1 2
           machine_x1); [reflexivity | lia].
Defined.

(** [srai x3, x1, 2] on RV64: the immediate is 0x402. *)
Lemma gen_arith_imm_shift_in_range_witness :
  match riscv_shift_imm 64 SH_SHIFT_RIGHT_I false (reg machine_x1 1) 0x402 with
  | None =>
      run quiet_helpers
          (emitted (gen_arith_imm true (shift_imm_opc SH_SHIFT_RIGHT_I false) 3 1 0x402)
                   (start (ctx_at 0x1000 0))) machine_x1
      = Raised (illegal_at 64 (env machine_x1) 0x1000) (mem machine_x1)
  | Some x =>
      exists t,
        run quiet_helpers
            (emitted (gen_arith_imm true (shift_imm_opc SH_SHIFT_RIGHT_I false) 3 1 0x402)
                     (start (ctx_at 0x1000 0))) machine_x1
        = Fallthrough (mkMachine (set_gpr (env machine_x1) 3 x) (mem machine_x1) t)
  end.
Proof.
  apply (gen_arith_imm_shift_in_range quiet_helpers (ctx_at 0x1000 0) true SH_SHIFT_RIGHT_I
           false 3 1 0x402 machine_x1); [reflexivity | lia | lia].
Defined.

(** [amomax.d x3, x2, (x1)] on RV64. *)
Lemma gen_atomic_full_width_witness :
  exists t,
    run quiet_helpers
        (emitted (gen_atomic true (Z.lor (amo_opc AMO_MAX true) (Z.shiftl 1 25)) 3 1 2)
                 (start (ctx_at 0x1000 0))) machine_x1
    = Fallthrough
        (mkMachine (write_gpr (env machine_x1) 3
                      (amo_rd 64 AMO_MAX true (mem machine_x1) (wrap 64 (reg machine_x1 1))))
                   (amo_mem 64 AMO_MAX true (mem machine_x1) (wrap 64 (reg machine_x1 1))
                      (wrap 64 (reg machine_x1 2))) t).
Proof.
  apply (gen_atomic_full_width quiet_helpers (ctx_at 0x1000 0) true AMO_MAX true 1 3 1 2
           machine_x1); [reflexivity | lia | reflexivity].
Defined.

(** [jal x1, +10] at 0x1000 on RV64 without the compressed extension. *)
Lemma misaligned_jump_raises_witness :
  run quiet_helpers (emitted (gen_jump true cpu_x1 (J_JAL 1 10)) (start (ctx_at 0x1000 0)))
      machine_x1
  = Raised (misaligned_at 64 (env machine_x1) 0x1000) (mem machine_x1).
Proof.
  apply (misaligned_jump_raises quiet_helpers (ctx_at 0x1000 0) true cpu_x1 (J_JAL 1 10)
           machine_x1); [reflexivity | vm_compute; discriminate | reflexivity].
Defined.


(** Where the exception comes from: the code emitted for [fadd.s] is the
    helper call alone, the code emitted for [flw] tests FS itself. *)
Example fs_gate_places :
  emitted (gen_fp_insn true (FP_ARITH OPC_RISC_FADD_S 1 2 3 0)) (start (ctx_at 0x1000 0))
  = [Mov 64 (Temp false 0) (I 0);
     Call "fadd_s" (Some (cpu_fpr 1)) [V (cpu_fpr 2); V (cpu_fpr 3); V (Temp false 0)]]
  /\ raises (emitted (gen_fp_insn true (FP_LOAD OPC_RISC_FLW 1 1 8))
                     (start (ctx_at 0x1000 0))) = true.
Proof. split; reflexivity. Qed.

Lemma quiet_helpers_keep_gprs : helpers_keep_gprs quiet_helpers.
Proof. intros h args e r. reflexivity. Qed.

(** [c.mv x0, x1] (0x8006) on RV64 with the compressed extension. *)
Lemma register_zero_invariant_witness :
  Forall unused_gpr0 (emitted (disas_insn true cpu_rvc) (start (ctx_at 0x1000 0x8006)))
  /\ gpr_is 0 (gpr (env machine_x1) 0)
       (run quiet_helpers
            (emitted (disas_insn true cpu_rvc) (start (ctx_at 0x1000 0x8006))) machine_x1)
  /\ (forall r, r <> insn_rd true (ctx_opcode (ctx_at 0x1000 0x8006)) ->
                gpr_is r (gpr (env machine_x1) r)
                  (run quiet_helpers
                       (emitted (disas_insn true cpu_rvc) (start (ctx_at 0x1000 0x8006)))
                       machine_x1))
  /\ (insn_rd true (ctx_opcode (ctx_at 0x1000 0x8006)) = 0 ->
      forall r, gpr_is r (gpr (env machine_x1) r)
                  (run quiet_helpers
                       (emitted (disas_insn true cpu_rvc) (start (ctx_at 0x1000 0x8006)))
                       machine_x1))
  /\ (GET_RD (ctx_opcode (ctx_at 0x1000 0x8006)) = 0 ->
      forall r, gpr_is r (gpr (env machine_x1) r)
                  (run quiet_helpers
                       (emitted (decode_RV32_64G true cpu_rvc)
                                (start (ctx_at 0x1000 0x8006))) machine_x1))
  /\ (forall l k,
        run quiet_helpers
            (emitted (gen_get_gpr true (Temp l k) 0) (start (ctx_at 0x1000 0x8006)))
            machine_x1
        = Fallthrough (write machine_x1 (Temp l k) 0))
  /\ (forall t, emitted (gen_set_gpr true 0 t) (start (ctx_at 0x1000 0x8006)) = []).
Proof.
  apply (register_zero_invariant quiet_helpers true cpu_rvc (ctx_at 0x1000 0x8006)
           machine_x1).
  intros h args e r. reflexivity.
Defined.

(** The destination of [c.mv x0, x1] is x0, and its code is the addition
    into a temporary alone. *)
Example c_mv_x0 :
  insn_rd true 0x8006 = 0
  /\ emitted (disas_insn true cpu_rvc) (start (ctx_at 0x1000 0x8006))
     = [Mov 64 (Temp false 0) (I 0); Mov 64 (Temp false 1) (V (cpu_gpr 1));
        Bin 64 ADD (Temp false 0) (V (Temp false 0)) (V (Temp false 1))].
Proof. split; reflexivity. Qed.

(** The all-zero word at 0x1000, without the compressed extension: an
    illegal encoding. *)
Lemma illegal_instruction_ends_block_witness :
  (forall excp s0,
     ctx_bstate (ctx (snd (kill_unknown true excp s0))) = BS_STOP
     /\ raises (appended (List.length (gen_opc_buf (tcg s0)))
                  (snd (kill_unknown true excp s0))) = true)
  /\ ctx_bstate (ctx (snd (translate_insn true (fun _ => 0) cpu_x1 (start (ctx_at 0x1000 0)))))
     <> BS_NONE
  /\ translate_loop true (fun _ => 0) 512 5 cpu_x1 10 (start (ctx_at 0x1000 0))
     = stops_after (snd (translate_insn true (fun _ => 0) cpu_x1 (start (ctx_at 0x1000 0)))).
Proof.
  apply (illegal_instruction_ends_block true (fun _ => 0) 512 5 cpu_x1 10
           (start (ctx_at 0x1000 0))); reflexivity.
Defined.

(** SEW 8 and LMUL 1 on 128-bit registers: [vlmax] is 16. *)
Lemma helper_vsetvl_monotone_witness :
  exists e1 e2,
    helper_vsetvl true (vcpu 0 0 8 []) 1 2 3 0 0 = HReturn e1 (vl (vec e1))
    /\ helper_vsetvl true (vcpu 0 0 8 []) 1 2 30 0 0 = HReturn e2 (vl (vec e2))
    /\ vl (vec e1) <= vl (vec e2)
    /\ vlmax (vec e1) = vlmax (vec e2)
    /\ vl (vec e1) <= vlmax (vec e1)
    /\ vstart (vec e1) = 0
    /\ vstart (vec e2) = 0.
Proof.
  apply (helper_vsetvl_monotone true (vcpu 0 0 8 []) 1 2 3 30 0 0);
    [vm_compute; discriminate | lia].
Defined.

Example vsetvl_values :
  vl (vec (helper_env (helper_vsetvl true (vcpu 0 0 8 []) 1 2 3 0 0))) = 3
  /\ vl (vec (helper_env (helper_vsetvl true (vcpu 0 0 8 []) 1 2 30 0 0))) = 16
  /\ vlmax (vec (helper_env (helper_vsetvl true (vcpu 0 0 8 []) 1 2 30 0 0))) = 16.
Proof. repeat split; vm_compute; reflexivity. Qed.
(* ===================================================================== *)
(** * More bit-vector arithmetic *)
(* ===================================================================== *)

Lemma wrap_testbit w x i :
  0 <= w -> 0 <= i -> Z.testbit (wrap w x) i = (i <? w) && Z.testbit x i.
Proof.
  intros Hw Hi. unfold wrap. destruct (i <? w) eqn:E.
  - apply Z.ltb_lt in E. now rewrite Z.mod_pow2_bits_low by lia.
  - apply Z.ltb_ge in E. now rewrite Z.mod_pow2_bits_high by lia.
Qed.

Ltac by_bits :=
  apply Z.bits_inj'; intros i Hi;
  repeat first [ rewrite wrap_testbit by lia | rewrite Z.lxor_spec
               | rewrite Z.lor_spec | rewrite Z.land_spec ];
  repeat match goal with |- context [?a <? ?b] => destruct (a <? b) end;
  repeat match goal with |- context [Z.testbit ?a ?b] => destruct (Z.testbit a b) end;
  reflexivity.

Lemma wrap_lxor_l w a b : 0 <= w -> wrap w (Z.lxor (wrap w a) b) = wrap w (Z.lxor a b).
Proof. intros. by_bits. Qed.
Lemma wrap_lxor_r w a b : 0 <= w -> wrap w (Z.lxor a (wrap w b)) = wrap w (Z.lxor a b).
Proof. intros. by_bits. Qed.
Lemma wrap_lor_l w a b : 0 <= w -> wrap w (Z.lor (wrap w a) b) = wrap w (Z.lor a b).
Proof. intros. by_bits. Qed.
Lemma wrap_lor_r w a b : 0 <= w -> wrap w (Z.lor a (wrap w b)) = wrap w (Z.lor a b).
Proof. intros. by_bits. Qed.
Lemma wrap_land_l' w a b : 0 <= w -> wrap w (Z.land (wrap w a) b) = wrap w (Z.land a b).
Proof. intros. by_bits. Qed.
Lemma wrap_land_r' w a b : 0 <= w -> wrap w (Z.land a (wrap w b)) = wrap w (Z.land a b).
Proof. intros. by_bits. Qed.

Lemma wrap_land_out w x k : 0 <= w -> wrap w (Z.land x k) = Z.land (wrap w x) k.
Proof. intros. by_bits. Qed.

Lemma wrap_sub_l w a b : wrap w (wrap w a - b) = wrap w (a - b).
Proof. unfold wrap. apply Zminus_mod_idemp_l. Qed.
Lemma wrap_sub_r w a b : wrap w (a - wrap w b) = wrap w (a - b).
Proof. unfold wrap. apply Zminus_mod_idemp_r. Qed.
Lemma wrap_mul_l w a b : wrap w (wrap w a * b) = wrap w (a * b).
Proof. unfold wrap. apply Zmult_mod_idemp_l. Qed.
Lemma wrap_mul_r w a b : wrap w (a * wrap w b) = wrap w (a * b).
Proof. unfold wrap. apply Zmult_mod_idemp_r. Qed.

Lemma wrap_b2z w b : 0 < w -> wrap w (b2z b) = b2z b.
Proof.
  intros H. apply wrap_small. pose proof (Z.pow_gt_1 2 w ltac:(lia)) as P.
  apply P in H. destruct b; unfold b2z; lia.
Qed.
Lemma wrap_b2z_32 b : wrap 32 (b2z b) = b2z b. Proof. now apply wrap_b2z. Qed.
Lemma wrap_b2z_64 b : wrap 64 (b2z b) = b2z b. Proof. now apply wrap_b2z. Qed.

Create Rewrite HintDb bvx.
#[export] Hint Rewrite wrap_add_l wrap_add_r wrap_sub_l wrap_sub_r wrap_mul_l wrap_mul_r
  wrap_b2z_32 wrap_b2z_64 : bvx.
#[export] Hint Rewrite wrap_lxor_l wrap_lxor_r wrap_lor_l wrap_lor_r wrap_land_l' wrap_land_r'
  using lia : bvx.

(** Two runs that differ in the value written to [rd] only. *)
Lemma fallthrough_gpr e rd v1 v2 mm t :
  v1 = v2 ->
  Fallthrough (mkMachine (set_gpr e rd v1) mm t)
  = Fallthrough (mkMachine (set_gpr e rd v2) mm t).
Proof. now intros ->. Qed.

Ltac same_value := eexists; apply fallthrough_gpr; autorewrite with bv bvx; try reflexivity.

(** Shift counts: the low five or six bits of the second operand. *)
Lemma land_31 b : Z.land b 31 = wrap 5 b.
Proof. change 31 with (Z.ones 5). unfold wrap. now rewrite Z.land_ones. Qed.
Lemma land_63 b : Z.land b 63 = wrap 6 b.
Proof. change 63 with (Z.ones 6). unfold wrap. now rewrite Z.land_ones. Qed.

Lemma wrap_wrap_ge w1 w2 x : 0 <= w1 <= w2 -> wrap w2 (wrap w1 x) = wrap w1 x.
Proof.
  intros H. apply wrap_small. pose proof (wrap_range w1 x ltac:(lia)) as R.
  pose proof (Z.pow_le_mono_r 2 w1 w2 ltac:(lia) ltac:(lia)). lia.
Qed.

Lemma count_ok w1 w x :
  0 <= w1 -> 2 ^ w1 <= w -> (0 <=? wrap w1 x) && (wrap w1 x <? w) = true.
Proof.
  intros H1 H2. pose proof (wrap_range w1 x H1) as R.
  apply andb_true_iff. split; [apply Z.leb_le | apply Z.ltb_lt]; lia.
Qed.

Lemma count5_64 x : wrap 64 (wrap 5 (wrap 64 x)) = wrap 5 x.
Proof. rewrite wrap_wrap_ge by lia. apply wrap_wrap_le. lia. Qed.
Lemma count6_64 x : wrap 64 (wrap 6 (wrap 64 x)) = wrap 6 x.
Proof. rewrite wrap_wrap_ge by lia. apply wrap_wrap_le. lia. Qed.
Lemma count5_32 x : wrap 32 (wrap 5 (wrap 32 x)) = wrap 5 x.
Proof. rewrite wrap_wrap_ge by lia. apply wrap_wrap_le. lia. Qed.
Lemma count5_ok_64 x : (0 <=? wrap 5 x) && (wrap 5 x <? 64) = true.
Proof. apply count_ok; [lia | now cbn]. Qed.
Lemma count6_ok_64 x : (0 <=? wrap 6 x) && (wrap 6 x <? 64) = true.
Proof. apply count_ok; [lia | now cbn]. Qed.
Lemma count5_ok_32 x : (0 <=? wrap 5 x) && (wrap 5 x <? 32) = true.
Proof. apply count_ok; [lia | now cbn]. Qed.

Lemma wrap_shiftl_low w1 w2 a n :
  0 <= w1 <= w2 -> 0 <= n ->
  wrap w1 (Z.shiftl (wrap w2 a) n) = wrap w1 (Z.shiftl (wrap w1 a) n).
Proof.
  intros Hw Hn. apply Z.bits_inj'; intros i Hi.
  rewrite !wrap_testbit, !Z.shiftl_spec by lia.
  destruct (i <? w1) eqn:E; [| reflexivity]. apply Z.ltb_lt in E. cbn [andb].
  destruct (Z.ltb_spec (i - n) 0) as [L | L].
  - now rewrite !Z.testbit_neg_r by lia.
  - rewrite !wrap_testbit by lia.
    replace (i - n <? w2) with true by (symmetry; apply Z.ltb_lt; lia).
    replace (i - n <? w1) with true by (symmetry; apply Z.ltb_lt; lia).
    reflexivity.
Qed.

Lemma signed_of_wrap w x y : wrap w x = wrap w y -> signed w x = signed w y.
Proof. intros H. unfold signed. now rewrite H. Qed.

Lemma signed32_shl64 a x :
  signed 32 (Z.shiftl (wrap 64 a) (wrap 5 x)) = signed 32 (Z.shiftl (wrap 32 a) (wrap 5 x)).
Proof.
  apply signed_of_wrap, wrap_shiftl_low; [lia |].
  apply (wrap_range 5 x). lia.
Qed.

#[export] Hint Rewrite land_31 land_63 count5_64 count6_64 count5_32
  count5_ok_64 count6_ok_64 count5_ok_32 signed32_shl64 : bvx.

Lemma wrap_shiftr_count w w1 a x :
  0 <= w -> 0 <= w1 ->
  wrap w (Z.shiftr (wrap w a) (wrap w1 x)) = Z.shiftr (wrap w a) (wrap w1 x).
Proof. intros. apply wrap_shiftr; [assumption |]. now apply wrap_range. Qed.

Lemma shiftr_0_l n : Z.shiftr 0 n = 0. Proof. apply Z.shiftr_0_l. Qed.
Lemma shiftl_0_l n : Z.shiftl 0 n = 0. Proof. apply Z.shiftl_0_l. Qed.
Lemma shiftr_0_r a : Z.shiftr a 0 = a. Proof. apply Z.shiftr_0_r. Qed.
Lemma shiftl_0_r a : Z.shiftl a 0 = a. Proof. apply Z.shiftl_0_r. Qed.

#[export] Hint Rewrite shiftr_0_l shiftl_0_l shiftr_0_r shiftl_0_r : bvx.
#[export] Hint Rewrite wrap_shiftr_count using lia : bvx.

Ltac same_value ::=
  eexists; apply fallthrough_gpr;
  repeat (progress (autorewrite with bv bvx; fold_consts)); try reflexivity.

(** ** High words of products *)

Lemma mulhu_range w a b :
  0 <= w -> 0 <= wrap w a * wrap w b / 2 ^ w < 2 ^ w.
Proof.
  intros Hw. pose proof (wrap_range w a Hw) as Ra. pose proof (wrap_range w b Hw) as Rb.
  pose proof (pow2_pos w Hw) as P. split.
  - apply Z.div_pos; nia.
  - apply Z.div_lt_upper_bound; nia.
Qed.

Lemma wrap_mulhu w a b :
  0 <= w -> wrap w (wrap w a * wrap w b / 2 ^ w) = wrap w a * wrap w b / 2 ^ w.
Proof. intros Hw. apply wrap_small. now apply mulhu_range. Qed.

(** The correction [gen_mulhsu] applies to the unsigned high word: when the
    first operand is negative, the second operand is subtracted. *)
Lemma mulhsu_fixup w a b :
  0 < w ->
  wrap w (wrap w a * wrap w b / 2 ^ w - Z.land (Z.shiftr (signed w a) (w - 1)) b)
  = wrap w (signed w a * wrap w b / 2 ^ w).
Proof.
  intros Hw. unfold signed.
  pose proof (wrap_range w a ltac:(lia)) as Ra.
  pose proof (pow2_pos w ltac:(lia)) as P.
  pose proof (pow2_pos (w - 1) ltac:(lia)) as P1.
  pose proof (pow2_succ w Hw) as S.
  set (ua := wrap w a) in *. cbv zeta.
  destruct (ua <? 2 ^ (w - 1)) eqn:E.
  - apply Z.ltb_lt in E.
    rewrite Z.shiftr_div_pow2 by lia. rewrite (Z.div_small ua (2 ^ (w - 1))) by lia.
    now rewrite Z.land_0_l, Z.sub_0_r.
  - apply Z.ltb_ge in E.
    rewrite Z.shiftr_div_pow2 by lia.
    replace ((ua - 2 ^ w) / 2 ^ (w - 1)) with (-1)
      by (apply (Z.div_unique _ _ (-1) (ua - 2 ^ w + 2 ^ (w - 1))); lia).
    rewrite Z.land_m1_l.
    replace ((ua - 2 ^ w) * wrap w b) with (ua * wrap w b + (- wrap w b) * 2 ^ w) by ring.
    rewrite Z_div_plus_full by lia.
    replace (ua * wrap w b / 2 ^ w + - wrap w b) with (ua * wrap w b / 2 ^ w - wrap w b)
      by ring.
    now rewrite wrap_sub_r.
Qed.

Lemma wrap_mulhu_64 a b :
  wrap 64 (wrap 64 a * wrap 64 b / 18446744073709551616)
  = wrap 64 a * wrap 64 b / 18446744073709551616.
Proof. exact (wrap_mulhu 64 a b ltac:(lia)). Qed.
Lemma wrap_mulhu_32 a b :
  wrap 32 (wrap 32 a * wrap 32 b / 4294967296) = wrap 32 a * wrap 32 b / 4294967296.
Proof. exact (wrap_mulhu 32 a b ltac:(lia)). Qed.
Lemma mulhsu_fixup_64 a b :
  wrap 64 (wrap 64 a * wrap 64 b / 18446744073709551616
           - Z.land (Z.shiftr (signed 64 a) 63) b)
  = wrap 64 (signed 64 a * wrap 64 b / 18446744073709551616).
Proof. exact (mulhsu_fixup 64 a b ltac:(lia)). Qed.
Lemma mulhsu_fixup_32 a b :
  wrap 32 (wrap 32 a * wrap 32 b / 4294967296 - Z.land (Z.shiftr (signed 32 a) 31) b)
  = wrap 32 (signed 32 a * wrap 32 b / 4294967296).
Proof. exact (mulhsu_fixup 32 a b ltac:(lia)). Qed.

Lemma mul_0_r a : a * 0 = 0. Proof. apply Z.mul_0_r. Qed.
Lemma mul_0_l a : 0 * a = 0. Proof. apply Z.mul_0_l. Qed.
Lemma land_0_r a : Z.land a 0 = 0. Proof. apply Z.land_0_r. Qed.
Lemma land_0_l a : Z.land 0 a = 0. Proof. apply Z.land_0_l. Qed.

#[export] Hint Rewrite wrap_mulhu_64 wrap_mulhu_32 mulhsu_fixup_64 mulhsu_fixup_32
  mul_0_r mul_0_l land_0_r land_0_l : bvx.

Lemma fallthrough_eq e1 e2 m1 m2 t :
  e1 = e2 -> m1 = m2 ->
  Fallthrough (mkMachine e1 m1 t) = Fallthrough (mkMachine e2 m2 t).
Proof. now intros -> ->. Qed.

Ltac bv_norm := repeat (progress (autorewrite with bv bvx; fold_consts)).

Ltac same_state :=
  eexists; apply fallthrough_eq; bv_norm; try reflexivity.

(** The low 32 bits of a sum, difference or product depend on the low 32
    bits of the operands only. *)
Lemma signed32_add_l a b : signed 32 (wrap 64 a + b) = signed 32 (a + b).
Proof.
  apply signed_of_wrap.
  now rewrite <- wrap_add_l, wrap32_wrap64, wrap_add_l.
Qed.
Lemma signed32_add_r a b : signed 32 (a + wrap 64 b) = signed 32 (a + b).
Proof.
  apply signed_of_wrap.
  now rewrite <- wrap_add_r, wrap32_wrap64, wrap_add_r.
Qed.
Lemma signed32_sub_l a b : signed 32 (wrap 64 a - b) = signed 32 (a - b).
Proof.
  apply signed_of_wrap.
  now rewrite <- wrap_sub_l, wrap32_wrap64, wrap_sub_l.
Qed.
Lemma signed32_sub_r a b : signed 32 (a - wrap 64 b) = signed 32 (a - b).
Proof.
  apply signed_of_wrap.
  now rewrite <- wrap_sub_r, wrap32_wrap64, wrap_sub_r.
Qed.
Lemma signed32_mul_l a b : signed 32 (wrap 64 a * b) = signed 32 (a * b).
Proof.
  apply signed_of_wrap.
  now rewrite <- wrap_mul_l, wrap32_wrap64, wrap_mul_l.
Qed.
Lemma signed32_mul_r a b : signed 32 (a * wrap 64 b) = signed 32 (a * b).
Proof.
  apply signed_of_wrap.
  now rewrite <- wrap_mul_r, wrap32_wrap64, wrap_mul_r.
Qed.

#[export] Hint Rewrite signed32_add_l signed32_add_r signed32_sub_l signed32_sub_r
  signed32_mul_l signed32_mul_r : bvx.

(* ===================================================================== *)
(** * Register-register arithmetic (gen_arith) *)
(* ===================================================================== *)

Ltac arith_case :=
  emitted_ops_vm; unfold run; norm; same_value.

(** ADD, SUB, SLT, SLTU, XOR, OR and AND with [rd] other than x0 write to
    [rd] the result of the operation on the two source registers at the
    register width (x0 reading as zero), and change nothing else. *)
Theorem gen_arith_alu_correct hs c (rv64 : bool) o rd rs1 rs2 m :
  rd <> 0 ->
  exists t,
    run hs (emitted (gen_arith rv64 (alu_opc o) rd rs1 rs2) (start c)) m
    = Fallthrough (mkMachine (set_gpr (env m) rd
                     (riscv_alu (if rv64 then 64 else 32) o (reg m rs1) (reg m rs2)))
                     (mem m) t).
Proof.
  intros H.
  unfold gen_arith, gen_get_gpr, gen_set_gpr, reg, riscv_alu.
  apply Z.eqb_neq in H. rewrite H.
  destruct rv64; destruct o; cbn [alu_opc];
  destruct (rs1 =? 0) eqn:E1; destruct (rs2 =? 0) eqn:E2;
  arith_case.
Qed.

Ltac shift_case :=
  emitted_ops_vm; unfold run;
  repeat (progress (norm; autorewrite with bvx)); same_value.

(** SLL, SRL and SRA shift by the low 5 (RV32) or 6 (RV64) bits of [rs2];
    the W forms, on RV64, shift the low 32 bits of [rs1] by the low 5 bits
    of [rs2] and sign-extend the 32-bit result. *)
Theorem gen_arith_shift_correct hs c (rv64 : bool) o wform rd rs1 rs2 m :
  implb wform rv64 = true -> rd <> 0 ->
  let X := if rv64 then 64 else 32 in
  exists t,
    run hs (emitted (gen_arith rv64 (shift_opc o wform) rd rs1 rs2) (start c)) m
    = Fallthrough (mkMachine (set_gpr (env m) rd
                     (if wform then sext32 X (riscv_shift 32 o (reg m rs1) (reg m rs2))
                      else riscv_shift X o (reg m rs1) (reg m rs2)))
                     (mem m) t).
Proof.
  intros Hw H X. subst X.
  unfold gen_arith, gen_get_gpr, gen_set_gpr, reg, riscv_shift, sext32.
  apply Z.eqb_neq in H. rewrite H.
  destruct rv64, wform; try discriminate Hw; clear Hw;
  destruct o; cbn [shift_opc];
  destruct (rs1 =? 0) eqn:E1; destruct (rs2 =? 0) eqn:E2.
  all: shift_case.
Qed.


(** MUL writes the low half of the product, MULH, MULHSU and MULHU the
    high half of the signed, signed-by-unsigned and unsigned product of
    the two source registers. *)
Theorem gen_arith_mul_correct hs c (rv64 : bool) o rd rs1 rs2 m :
  rd <> 0 ->
  exists t,
    run hs (emitted (gen_arith rv64 (mul_opc o) rd rs1 rs2) (start c)) m
    = Fallthrough (mkMachine (set_gpr (env m) rd
                     (riscv_mul (if rv64 then 64 else 32) o (reg m rs1) (reg m rs2)))
                     (mem m) t).
Proof.
  intros H.
  unfold gen_arith, gen_mulhsu, gen_get_gpr, gen_set_gpr, reg, riscv_mul.
  apply Z.eqb_neq in H. rewrite H.
  destruct rv64; destruct o; cbn [mul_opc];
  destruct (rs1 =? 0) eqn:E1; destruct (rs2 =? 0) eqn:E2.
  all: emitted_ops_vm; unfold run; repeat (progress (norm; autorewrite with bvx)).
  all: same_value.
Qed.


(** ADDW, SUBW and MULW on RV64 write the sign-extended low 32 bits of the
    sum, difference or product; on RV32 they raise the illegal-instruction
    exception at the address of the instruction. *)
Theorem gen_arith_w_correct hs c o rd rs1 rs2 m :
  rd <> 0 ->
  (exists t,
     run hs (emitted (gen_arith true (warith_opc o) rd rs1 rs2) (start c)) m
     = Fallthrough (mkMachine (set_gpr (env m) rd
                      (sext32 64 (riscv_warith o (reg m rs1) (reg m rs2))))
                      (mem m) t))
  /\ run hs (emitted (gen_arith false (warith_opc o) rd rs1 rs2) (start c)) m
     = Raised (illegal_at 32 (env m) (ctx_pc c)) (mem m).
Proof.
  intros H. open_context c.
  unfold gen_arith, gen_get_gpr, gen_set_gpr, kill_unknown, reg, riscv_warith, sext32.
  apply Z.eqb_neq in H. rewrite H.
  split.
  - destruct o; cbn [warith_opc];
    destruct (rs1 =? 0) eqn:E1; destruct (rs2 =? 0) eqn:E2; arith_case.
  - destruct o; cbn [warith_opc];
    destruct (rs1 =? 0) eqn:E1; destruct (rs2 =? 0) eqn:E2;
    translate; unfold run; norm; reflexivity.
Qed.

(** ADDI, SLTI, SLTIU, XORI, ORI and ANDI with [rd] other than x0 write to
    [rd] the result of the operation on [rs1] and the immediate at the
    register width. *)
Theorem gen_arith_imm_alu_correct hs c (rv64 : bool) o rd rs1 imm m :
  rd <> 0 ->
  exists t,
    run hs (emitted (gen_arith_imm rv64 (alui_opc o) rd rs1 imm) (start c)) m
    = Fallthrough (mkMachine (set_gpr (env m) rd
                     (riscv_alu (if rv64 then 64 else 32) (alui_alu o) (reg m rs1) imm))
                     (mem m) t).
Proof.
  intros H.
  unfold gen_arith_imm, gen_get_gpr, gen_set_gpr, reg, riscv_alu.
  apply Z.eqb_neq in H. rewrite H.
  destruct rv64; destruct o; cbn [alui_opc alui_alu];
  destruct (rs1 =? 0) eqn:E1;
  translate; unfold run; norm; same_value.
Qed.

(* ===================================================================== *)
(** * Loads and stores (gen_load, gen_store) *)
(* ===================================================================== *)

Lemma gen_load_runs hs c (rv64 : bool) o rd rs1 imm m :
  implb (load_rv64_only o) rv64 = true ->
  let X := if rv64 then 64 else 32 in
  exists t,
    run hs (emitted (gen_load rv64 (load_opc o) rd rs1 imm) (start c)) m
    = Fallthrough
        (mkMachine (write_gpr (set_pc (env m) (wrap X (ctx_pc c))) rd
                      (riscv_load X o (mem m) (wrap X (reg m rs1 + imm))))
                   (mem m) t).
Proof.
  intros Hw X. subst X. open_context c.
  unfold gen_load, gen_get_gpr, gen_set_gpr, reg, riscv_load, write_gpr.
  destruct rv64, o; try discriminate Hw; clear Hw; cbn [load_opc load_size load_signed];
  destruct (rd =? 0) eqn:Ed; destruct (rs1 =? 0) eqn:E1; cbn [negb];
  translate; unfold run; norm; same_state.
Qed.

Lemma gen_store_runs hs c (rv64 : bool) o rs1 rs2 imm m :
  implb (store_rv64_only o) rv64 = true ->
  let X := if rv64 then 64 else 32 in
  exists t,
    run hs (emitted (gen_store rv64 (store_opc o) rs1 rs2 imm) (start c)) m
    = Fallthrough
        (mkMachine (set_pc (env m) (wrap X (ctx_pc c)))
                   (store_bytes (store_size o) (mem m) (wrap X (reg m rs1 + imm))
                                (wrap X (reg m rs2))) t).
Proof.
  intros Hw X. subst X. open_context c.
  unfold gen_store, gen_get_gpr, reg.
  destruct rv64, o; try discriminate Hw; clear Hw; cbn [store_opc store_size];
  destruct (rs1 =? 0) eqn:E1; destruct (rs2 =? 0) eqn:E2;
  translate; unfold run; norm; same_state.
Qed.

(** A load first sets the program counter to the address of the
    instruction, then writes to [rd] (unless [rd] is x0) the bytes at
    [rs1 + imm], sign- or zero-extended as the instruction says; memory is
    unchanged.  LWU and LD exist on RV64 only. *)
Theorem gen_load_correct hs c (rv64 : bool) o rd rs1 imm m :
  implb (load_rv64_only o) rv64 = true ->
  let X := if rv64 then 64 else 32 in
  exists t,
    run hs (emitted (gen_load rv64 (load_opc o) rd rs1 imm) (start c)) m
    = Fallthrough
        (mkMachine (write_gpr (set_pc (env m) (wrap X (ctx_pc c))) rd
                      (riscv_load X o (mem m) (wrap X (reg m rs1 + imm))))
                   (mem m) t).
Proof. exact (gen_load_runs hs c rv64 o rd rs1 imm m). Qed.

(** A store first sets the program counter to the address of the
    instruction, then writes the low bytes of [rs2] at [rs1 + imm]; no
    register changes.  SD exists on RV64 only. *)
Theorem gen_store_correct hs c (rv64 : bool) o rs1 rs2 imm m :
  implb (store_rv64_only o) rv64 = true ->
  let X := if rv64 then 64 else 32 in
  exists t,
    run hs (emitted (gen_store rv64 (store_opc o) rs1 rs2 imm) (start c)) m
    = Fallthrough
        (mkMachine (set_pc (env m) (wrap X (ctx_pc c)))
                   (store_bytes (store_size o) (mem m) (wrap X (reg m rs1 + imm))
                                (wrap X (reg m rs2))) t).
Proof. exact (gen_store_runs hs c rv64 o rs1 rs2 imm m). Qed.

(** ** Reading back what was stored *)

Lemma store_bytes_other n : forall mm a x y,
  y < a \/ a + Z.of_nat n <= y -> store_bytes n mm a x y = mm y.
Proof.
  induction n as [| k IH]; intros mm a x y H; [reflexivity |].
  cbn [store_bytes]. rewrite IH by lia. unfold upd.
  destruct (y =? a) eqn:E; [apply Z.eqb_eq in E; lia | reflexivity].
Qed.

Lemma load_store_bytes n : forall mm a x,
  load_bytes n (store_bytes n mm a x) a = wrap (8 * Z.of_nat n) x.
Proof.
  induction n as [| k IH]; intros mm a x.
  - cbn. unfold wrap. now rewrite Z.mod_1_r.
  - cbn [load_bytes store_bytes]. rewrite IH.
    rewrite store_bytes_other by lia. unfold upd. rewrite Z.eqb_refl, wrap_wrap.
    unfold wrap. rewrite Z.shiftr_div_pow2 by lia.
    replace (8 * Z.of_nat (S k)) with (8 + 8 * Z.of_nat k) by lia.
    rewrite Z.pow_add_r by lia. change (2 ^ 8) with 256.
    rewrite Z.rem_mul_r by (pose proof (pow2_pos (8 * Z.of_nat k)); lia).
    reflexivity.
Qed.

(** A store followed by a load of the same width from the same base
    register and offset reads back the low bytes of the stored register,
    extended as the load prescribes. *)
Theorem store_then_load hs c1 c2 (rv64 : bool) so lo rd rs1 rs2 imm m :
  implb (store_rv64_only so) rv64 = true ->
  implb (load_rv64_only lo) rv64 = true ->
  load_size lo = store_size so ->
  let X := if rv64 then 64 else 32 in
  exists m1,
    run hs (emitted (gen_store rv64 (store_opc so) rs1 rs2 imm) (start c1)) m
    = Fallthrough m1
    /\ exists t,
         run hs (emitted (gen_load rv64 (load_opc lo) rd rs1 imm) (start c2)) m1
         = Fallthrough
             (mkMachine (write_gpr (set_pc (env m) (wrap X (ctx_pc c2))) rd
                           (load_extend X lo (reg m rs2)))
                        (mem m1) t).
Proof.
  intros Hs Hl Hsz X.
  destruct (gen_store_runs hs c1 rv64 so rs1 rs2 imm m Hs) as [t1 E1].
  cbv zeta in E1. fold X in E1.
  match type of E1 with _ = Fallthrough ?M => set (m1 := M) in * end.
  exists m1. split; [exact E1 |].
  destruct (gen_load_runs hs c2 rv64 lo rd rs1 imm m1 Hl) as [t2 E2].
  cbv zeta in E2. fold X in E2.
  exists t2. rewrite E2. clear E1 E2.
  apply fallthrough_eq; [| reflexivity].
  unfold riscv_load, load_extend.
  replace (reg m1 rs1) with (reg m rs1) by reflexivity.
  subst m1. cbn [mem env].
  rewrite <- Hsz, load_store_bytes.
  assert (W : wrap (8 * Z.of_nat (load_size lo)) (wrap X (reg m rs2))
              = wrap (8 * Z.of_nat (load_size lo)) (reg m rs2)).
  { apply wrap_wrap_le. subst X.
    destruct rv64, so, lo; try discriminate Hs; try discriminate Hsz; cbn; lia. }
  rewrite W, signed_wrap. reflexivity.
Qed.

(* ===================================================================== *)
(** * Jumps and branches that do not trap *)
(* ===================================================================== *)

Lemma exit_eq e1 e2 mm t b :
  e1 = e2 -> Exit (mkMachine e1 mm t) b = Exit (mkMachine e2 mm t) b.
Proof. now intros ->. Qed.

Ltac goes :=
  unfold run; norm;
  repeat match goal with
         | H : (?a =? ?b) = _ |- context [?a =? ?b] => rewrite H
         end;
  first [ reflexivity
        | eexists; apply exit_eq; bv_norm; reflexivity ].

(** JAL whose target is aligned (or with compressed instructions present)
    writes the address of the next instruction to [rd] (unless [rd] is x0)
    and goes to [pc + imm]. *)
Theorem gen_jal_links hs c (rv64 : bool) tenv rd imm m :
  let X := if rv64 then 64 else 32 in
  riscv_has_ext tenv RISCV_FEATURE_RVC = true \/ Z.land (wrap X (ctx_pc c + imm)) 0x3 = 0 ->
  goes_to rv64 c (write_gpr (env m) rd (wrap X (ctx_next_pc c))) (mem m)
          (wrap X (ctx_pc c + imm))
          (run hs (emitted (gen_jal rv64 tenv rd imm) (start c)) m).
Proof.
  intros X H. subst X. open_context c.
  unfold goes_to, write_gpr, gen_jal, gen_goto_tb, use_goto_tb.
  destruct H as [H | H]; [| apply Z.eqb_eq in H].
  - destruct rv64; destruct (rd =? 0) eqn:Ed; translate; goes.
  - destruct rv64; destruct (rd =? 0) eqn:Ed; translate; goes.
Qed.

(** [jalr] passes its alignment test when bit 1 of the target is clear. *)
Lemma land_wrap_2 w y : 2 <= w -> Z.land (wrap w y) 2 = Z.land y 2.
Proof.
  intros Hw. apply Z.bits_inj'; intros i Hi.
  rewrite !Z.land_spec, wrap_testbit by lia.
  destruct (i <? w) eqn:E; [reflexivity |]. apply Z.ltb_ge in E.
  assert (B : Z.testbit 2 i = false).
  { change 2 with (2 ^ 1). rewrite Z.pow2_bits_eqb by lia. apply Z.eqb_neq. lia. }
  now rewrite B, !andb_false_r.
Qed.

Lemma jalr_aligned w x :
  2 <= w ->
  Z.land (Z.land x (wrap w (-2))) 2 = 0 ->
  eval_cond w TCG_COND_NE (wrap w (Z.land (wrap w (Z.land x (wrap w (-2)))) 2)) 0 = false.
Proof.
  intros Hw H. unfold eval_cond.
  rewrite land_wrap_2, H by assumption. reflexivity.
Qed.

Lemma jalr_aligned_64 x :
  Z.land (Z.land x (wrap 64 (-2))) 2 = 0 ->
  eval_cond 64 TCG_COND_NE
    (wrap 64 (Z.land (wrap 64 (Z.land x 18446744073709551614)) 2)) 0 = false.
Proof. apply (jalr_aligned 64). lia. Qed.

Lemma jalr_aligned_32 x :
  Z.land (Z.land x (wrap 32 (-2))) 2 = 0 ->
  eval_cond 32 TCG_COND_NE
    (wrap 32 (Z.land (wrap 32 (Z.land x 4294967294)) 2)) 0 = false.
Proof. apply (jalr_aligned 32). lia. Qed.

Lemma jalr_pc w a imm k :
  0 <= w -> wrap w (Z.land (wrap w a + imm) k) = Z.land (wrap w (a + imm)) k.
Proof. intros. now rewrite wrap_land_out, wrap_add_l. Qed.

Ltac jalr_case :=
  translate; unfold run; norm;
  rewrite ?wrap_add_l;
  try first [ rewrite jalr_aligned_64 by assumption | rewrite jalr_aligned_32 by assumption ];
  norm; eexists; apply exit_eq; bv_norm;
  rewrite ?jalr_pc, ?wrap_land_out by lia; reflexivity.

(** JALR whose target has bit 1 clear (or with compressed instructions
    present) sets the program counter to [rs1 + imm] with bit 0 cleared,
    writes the address of the next instruction to [rd] (unless [rd] is x0)
    and leaves the block unchained. *)
Theorem gen_jalr_links hs c (rv64 : bool) tenv rd rs1 imm m :
  let X := if rv64 then 64 else 32 in
  riscv_has_ext tenv RISCV_FEATURE_RVC = true
  \/ Z.land (jalr_target X (reg m rs1) imm) 0x2 = 0 ->
  exists t,
    run hs (emitted (gen_jalr rv64 tenv OPC_RISC_JALR rd rs1 imm) (start c)) m
    = Exit (mkMachine (write_gpr (set_pc (env m) (jalr_target X (reg m rs1) imm)) rd
                         (wrap X (ctx_next_pc c)))
                      (mem m) t) false.
Proof.
  intros X H. subst X. open_context c.
  unfold write_gpr, jalr_target, gen_jalr, gen_get_gpr, reg in *.
  destruct H as [H | H].
  - destruct rv64; destruct (rd =? 0) eqn:Ed; destruct (rs1 =? 0) eqn:E1; jalr_case.
  - destruct rv64; destruct (rd =? 0) eqn:Ed; destruct (rs1 =? 0) eqn:E1;
      destruct (riscv_has_ext tenv RISCV_FEATURE_RVC) eqn:Er; jalr_case.
Qed.

(** A conditional branch with a legal comparison goes to the target when
    the comparison holds (and the target is aligned or compressed
    instructions exist) and to the next instruction otherwise. *)
Theorem gen_branch_goes hs c (rv64 : bool) tenv opc cnd rs1 rs2 bimm m :
  let X := if rv64 then 64 else 32 in
  branch_cond opc = Some cnd ->
  riscv_has_ext tenv RISCV_FEATURE_RVC = true
  \/ Z.land (wrap X (ctx_pc c + bimm)) 0x3 = 0 ->
  goes_to rv64 c (env m) (mem m)
          (if eval_cond X cnd (reg m rs1) (reg m rs2)
           then wrap X (ctx_pc c + bimm) else ctx_next_pc c)
          (run hs (emitted (gen_branch rv64 tenv opc rs1 rs2 bimm) (start c)) m).
Proof.
  intros X Hc H. subst X. open_context c.
  unfold goes_to, gen_branch, gen_get_gpr, gen_goto_tb, use_goto_tb, reg, branch_cond in *.
  unfold OPC_RISC_BEQ, OPC_RISC_BNE, OPC_RISC_BLT, OPC_RISC_BGE, OPC_RISC_BLTU,
    OPC_RISC_BGEU in Hc.
  destruct H as [H | H];
    [| apply Z.eqb_eq in H; destruct (riscv_has_ext tenv RISCV_FEATURE_RVC) eqn:Er].
  all: destruct rv64; destruct (rs1 =? 0) eqn:E1; destruct (rs2 =? 0) eqn:E2; translate.
  all: repeat match goal with
              | H : (?o =? ?k) = _, K : context [?o =? ?k] |- _ => rewrite H in K
              end.
  all: try discriminate Hc.
  all: injection Hc as <-.
  all: unfold run; sym; rewrite ?eval_cond_wrap_l, ?eval_cond_wrap_r.
  all: repeat match goal with
              | H : eval_cond _ _ _ _ = _ |- _ => rewrite H
              end.
  all: goes.
Qed.

(* ===================================================================== *)
(** * Temporaries and context fields *)
(* ===================================================================== *)

Section Moves.

Variable s0 : TState.

Lemma above_same k s s' :
above s0 k s ->
same_ctx (ctx s) (ctx s') -> temps_in_use (tcg s') = temps_in_use (tcg s) ->
above s0 k s'.
Proof.
intros [(A1 & A2 & A3 & A4 & A5 & A6) T] (B1 & B2 & B3 & B4 & B5 & B6) E.
repeat split; congruence.
Qed.

Lemma same_ctx_refl c : same_ctx c c.
Proof. repeat split. Qed.

Lemma moves_ret {A} (a : A) k : moves s0 k (ret a) k.
Proof. intros s H. exact H. Qed.

Lemma moves_bind {A B} (m : M A) (f : A -> M B) k n1 n :
moves s0 k m n1 -> (forall a, moves s0 n1 (f a) n) -> moves s0 k (bind m f) n.
Proof.
intros Hm Hf s H. unfold bind. specialize (Hm s H).
destruct (m s) as [a s1]. now apply Hf.
Qed.

Lemma moves_bind_assoc {A B C} (m : M A) (f : A -> M B) (g : B -> M C) k n :
moves s0 k (bind m (fun a => bind (f a) g)) n -> moves s0 k (bind (bind m f) g) n.
Proof.
intros H s Hs. specialize (H s Hs). unfold bind in *.
destruct (m s) as [a s1]. destruct (f a s1) as [b s2]. exact H.
Qed.

Lemma moves_ret_bind {A B} (a : A) (f : A -> M B) k n :
moves s0 k (f a) n -> moves s0 k (bind (ret a) f) n.
Proof. intros H s Hs. exact (H s Hs). Qed.

Lemma moves_new_temp {B} (l : bool) (f : TCGv -> M B) k k' n :
k' = k + 1 -> (forall t, moves s0 k' (f t) n) -> moves s0 k (bind (new_temp l) f) n.
Proof.
intros -> H s [C T]. unfold bind, new_temp. apply H. split; [exact C |].
cbn. lia.
Qed.

Lemma moves_tcg_temp_free t k k' : k' = k - 1 -> moves s0 k (tcg_temp_free t) k'.
Proof. intros -> s [C T]. split; [exact C |]. cbn. lia. Qed.

Lemma moves_get_ctx k : moves s0 k get_ctx k.
Proof. intros s H. exact H. Qed.

Lemma moves_gen_new_label k : moves s0 k gen_new_label k.
Proof. intros s H. apply (above_same k s); auto using same_ctx_refl. Qed.

Lemma moves_emit o k : moves s0 k (emit o) k.
Proof. intros s H. apply (above_same k s); auto using same_ctx_refl. Qed.

Lemma moves_set_bstate b k : moves s0 k (set_bstate b) k.
Proof. intros s H. apply (above_same k s); auto. repeat split. Qed.

End Moves.

Lemma above_refl s : above s 0 s.
Proof. split; [apply same_ctx_refl | lia]. Qed.

Lemma balanced_intro {A} (m : M A) : (forall s0, moves s0 0 m 0) -> balanced m.
Proof. intros H s. apply (H s s), above_refl. Qed.

Lemma moves_balanced {A} (m : M A) s0 k : balanced m -> moves s0 k m k.
Proof.
  intros H s [(A1 & A2 & A3 & A4 & A5 & A6) T].
  destruct (H s) as [(B1 & B2 & B3 & B4 & B5 & B6) T'].
  repeat split; try congruence. lia.
Qed.

Ltac moves_step :=
  cbv beta zeta;
  lazymatch goal with
  | |- moves _ _ (bind (ret _) _) _ => apply moves_ret_bind
  | |- moves _ _ (bind (bind _ _) _) _ => apply moves_bind_assoc
  | |- moves _ ?k (bind (new_temp _) _) _ =>
      let k' := eval cbv in (k + 1) in
      apply (moves_new_temp _ _ _ k k'); [ reflexivity | intro ]
  | |- moves _ _ (@bind TCGv _ ?m _) _ => let h := head_of m in unfold h
  | |- moves _ _ (bind _ _) _ => eapply moves_bind; [ | intro ]
  | |- moves _ _ (ret _) _ => apply moves_ret
  | |- moves _ _ (if ?b then _ else _) _ => destruct b
  | |- moves _ _ (emit _) _ => apply moves_emit
  | |- moves _ _ get_ctx _ => apply moves_get_ctx
  | |- moves _ _ gen_new_label _ => apply moves_gen_new_label
  | |- moves _ ?k (tcg_temp_free _) _ =>
      let k' := eval cbv in (k - 1) in
      apply (moves_tcg_temp_free _ _ k k'); reflexivity
  | |- moves _ _ (set_bstate _) _ => apply moves_set_bstate
  | |- moves _ _ ?m _ =>
      first [ solve [ apply moves_balanced; auto 2 with moves nocore ]
            | let h := head_of m in unfold h ]
  end.

Create HintDb moves discriminated.

Ltac moves_go := repeat moves_step.

Ltac balance := apply balanced_intro; intro; moves_go.

Section Balance.

Variable rv64 : bool.

Lemma balanced_kill_unknown excp : balanced (kill_unknown rv64 excp).
Proof. unfold kill_unknown. balance. Qed.

#[local] Hint Resolve balanced_kill_unknown : moves.

Lemma balanced_gen_arith opc rd rs1 rs2 : balanced (gen_arith rv64 opc rd rs1 rs2).
Proof. unfold gen_arith. balance. Qed.

Lemma balanced_gen_arith_imm opc rd rs1 imm :
balanced (gen_arith_imm rv64 opc rd rs1 imm).
Proof. unfold gen_arith_imm. balance. Qed.

Lemma balanced_gen_jal env rd imm : balanced (gen_jal rv64 env rd imm).
Proof. unfold gen_jal. balance. Qed.

Lemma balanced_gen_jalr env opc rd rs1 imm : balanced (gen_jalr rv64 env opc rd rs1 imm).
Proof. unfold gen_jalr. balance. Qed.

Lemma balanced_gen_branch env opc rs1 rs2 bimm :
balanced (gen_branch rv64 env opc rs1 rs2 bimm).
Proof. unfold gen_branch. balance. Qed.

Lemma balanced_gen_load opc rd rs1 imm : balanced (gen_load rv64 opc rd rs1 imm).
Proof. unfold gen_load. balance. Qed.

Lemma balanced_gen_store opc rs1 rs2 imm : balanced (gen_store rv64 opc rs1 rs2 imm).
Proof. unfold gen_store. balance. Qed.

Lemma balanced_gen_fp_load opc rd rs1 imm : balanced (gen_fp_load rv64 opc rd rs1 imm).
Proof. unfold gen_fp_load. balance. Qed.

Lemma balanced_gen_fp_store opc rs1 rs2 imm : balanced (gen_fp_store rv64 opc rs1 rs2 imm).
Proof. unfold gen_fp_store. balance. Qed.

Lemma balanced_gen_atomic opc rd rs1 rs2 : balanced (gen_atomic rv64 opc rd rs1 rs2).
Proof. unfold gen_atomic. balance. Qed.

Lemma balanced_gen_fp_fmadd opc rd rs1 rs2 rs3 rm :
balanced (gen_fp_fmadd rv64 opc rd rs1 rs2 rs3 rm).
Proof. unfold gen_fp_fmadd, gen_fp_fma. balance. Qed.

Lemma balanced_gen_fp_fmsub opc rd rs1 rs2 rs3 rm :
balanced (gen_fp_fmsub rv64 opc rd rs1 rs2 rs3 rm).
Proof. unfold gen_fp_fmsub, gen_fp_fma. balance. Qed.

Lemma balanced_gen_fp_fnmsub opc rd rs1 rs2 rs3 rm :
balanced (gen_fp_fnmsub rv64 opc rd rs1 rs2 rs3 rm).
Proof. unfold gen_fp_fnmsub, gen_fp_fma. balance. Qed.

Lemma balanced_gen_fp_fnmadd opc rd rs1 rs2 rs3 rm :
balanced (gen_fp_fnmadd rv64 opc rd rs1 rs2 rs3 rm).
Proof. unfold gen_fp_fnmadd, gen_fp_fma. balance. Qed.

Lemma balanced_gen_fp_arith opc rd rs1 rs2 rm :
balanced (gen_fp_arith rv64 opc rd rs1 rs2 rm).
Proof. unfold gen_fp_arith. balance. Qed.

Lemma balanced_gen_system opc rd rs1 csr : balanced (gen_system rv64 opc rd rs1 csr).
Proof. unfold gen_system. balance. Qed.

#[local] Hint Resolve balanced_gen_arith balanced_gen_arith_imm balanced_gen_jal
balanced_gen_jalr balanced_gen_branch balanced_gen_load balanced_gen_store
balanced_gen_fp_load balanced_gen_fp_store balanced_gen_atomic balanced_gen_fp_fmadd
balanced_gen_fp_fmsub balanced_gen_fp_fnmsub balanced_gen_fp_fnmadd
balanced_gen_fp_arith balanced_gen_system : moves.

Lemma balanced_decode_RV32_64G env : balanced (decode_RV32_64G rv64 env).
Proof. unfold decode_RV32_64G. balance. Qed.

Lemma balanced_decode_RV32_64C0 : balanced (decode_RV32_64C0 rv64).
Proof. unfold decode_RV32_64C0. balance. Qed.

Lemma balanced_decode_RV32_64C1 env : balanced (decode_RV32_64C1 rv64 env).
Proof. unfold decode_RV32_64C1. balance. Qed.

Lemma balanced_decode_RV32_64C2 env : balanced (decode_RV32_64C2 rv64 env).
Proof. unfold decode_RV32_64C2. balance. Qed.

#[local] Hint Resolve balanced_decode_RV32_64C0 balanced_decode_RV32_64C1
balanced_decode_RV32_64C2 : moves.

Lemma balanced_decode_RV32_64C env : balanced (decode_RV32_64C rv64 env).
Proof. unfold decode_RV32_64C. balance. Qed.

End Balance.


(** ** One instruction *)

Lemma balanced_run {A} (m : M A) s :
  balanced m ->
  same_ctx (ctx s) (ctx (snd (m s)))
  /\ temps_in_use (tcg (snd (m s))) = temps_in_use (tcg s).
Proof. intros H. destruct (H s) as [C T]. split; [exact C | lia]. Qed.

Lemma disas_insn_effect rv64 env s :
  let c := ctx s in
  let r := disas_insn rv64 env s in
  let n := insn_size env (ctx_opcode c) in
  fst r = n
  /\ ctx_pc (ctx (snd r)) = (if n =? 0 then ctx_pc c else wrap (tl rv64) (ctx_pc c + n))
  /\ ctx_tb (ctx (snd r)) = ctx_tb c
  /\ ctx_opcode (ctx (snd r)) = ctx_opcode c
  /\ ctx_singlestep_enabled (ctx (snd r)) = ctx_singlestep_enabled c
  /\ temps_in_use (tcg (snd r)) = temps_in_use (tcg s).
Proof.
  cbv zeta.
  cbv [disas_insn insn_size bind get_ctx set_ctx_next_pc set_ctx_pc set_ctx ret].
  destruct (extract32 (ctx_opcode (ctx s)) 0 2 =? 3) eqn:E; cbn [negb];
    [| destruct (riscv_has_ext env RISCV_FEATURE_RVC) eqn:Er; cbn [negb] ].
  all: match goal with
       | |- context [?m ?s1] =>
           lazymatch type of s1 with TState => idtac end;
           lazymatch m with
           | decode_RV32_64G _ _ =>
               destruct (balanced_run m s1 (balanced_decode_RV32_64G rv64 env))
                 as [(C1 & C2 & C3 & C4 & C5 & C6) T]
           | decode_RV32_64C _ _ =>
               destruct (balanced_run m s1 (balanced_decode_RV32_64C rv64 env))
                 as [(C1 & C2 & C3 & C4 & C5 & C6) T]
           | kill_unknown _ _ =>
               destruct (balanced_run m s1 (balanced_kill_unknown rv64 _))
                 as [(C1 & C2 & C3 & C4 & C5 & C6) T]
           end;
           destruct (m s1) as [u s2]
       end.
  all: cbn in *; repeat split; congruence.
Qed.

(** [disas_insn] returns 4 for a full-size instruction and 2 for a
    compressed one (0, with an exception generated, when compressed
    instructions are absent), advances the context's program counter by
    that size, and leaves the block, the opcode, the single-step flag and
    the count of live temporaries as they were. *)
Theorem disas_insn_advances rv64 env s :
  let c := ctx s in
  let r := disas_insn rv64 env s in
  let n := insn_size env (ctx_opcode c) in
  fst r = n
  /\ ctx_pc (ctx (snd r)) = (if n =? 0 then ctx_pc c else wrap (tl rv64) (ctx_pc c + n))
  /\ ctx_tb (ctx (snd r)) = ctx_tb c
  /\ ctx_opcode (ctx (snd r)) = ctx_opcode c
  /\ ctx_singlestep_enabled (ctx (snd r)) = ctx_singlestep_enabled c
  /\ temps_in_use (tcg (snd r)) = temps_in_use (tcg s).
Proof. exact (disas_insn_effect rv64 env s). Qed.


(** [translate_insn] accounts one instruction and leaves no temporary
    behind. *)
Lemma translate_insn_counts rv64 ldl_code env s :
  let s1 := snd (translate_insn rv64 ldl_code env s) in
  icount s1 = icount s + 1
  /\ temps_in_use (tcg s1) = temps_in_use (tcg s)
  /\ ctx_singlestep_enabled (ctx s1) = ctx_singlestep_enabled (ctx s).
Proof.
  cbv zeta. unfold icount.
  cbv [translate_insn bind get_ctx set_ctx_opcode set_ctx_tb set_ctx].
  match goal with
  | |- context [disas_insn rv64 env ?s1] =>
      pose proof (disas_insn_effect rv64 env s1) as H;
      cbv zeta in H; destruct H as (_ & _ & Htb & _ & Hss & Ht);
      destruct (disas_insn rv64 env s1) as [n s2]
  end.
  cbn in *. rewrite Htb, Hss, Ht. cbn. repeat split.
Qed.

(** ** The whole block *)

Lemma translate_loop_completes rv64 ldl_code opc_max env max_insns fuel : forall s,
  temps_in_use (tcg s) = 0 ->
  max_insns - icount s <= Z.of_nat fuel + 1 ->
  exists s',
    translate_loop rv64 ldl_code opc_max fuel env max_insns s = Translated s'
    /\ temps_in_use (tcg s') = 0
    /\ icount s <= icount s' <= Z.max (icount s + 1) max_insns.
Proof.
  induction fuel as [| fuel IH]; intros s Ht Hf.
  all: cbn [translate_loop].
  all: destruct (process_breakpoints env (ctx_pc (ctx s))).
  all: try (eexists; split; [reflexivity |];
            split; [ cbn; lia | unfold icount; cbn; lia ]).
  all: destruct (translate_insn_counts rv64 ldl_code env s) as (Hi & Ht1 & _);
    cbv zeta in Hi, Ht1;
    set (s1 := snd (translate_insn rv64 ldl_code env s)) in *;
    rewrite Ht1, Ht; cbn [Z.eqb negb].
  all: repeat match goal with
       | |- exists s', (if ?b then _ else _) = _ /\ _ => destruct b eqn:?
       end.
  all: try (eexists; split; [reflexivity |];
            split; [ cbn; lia | unfold icount in *; cbn; lia ]).
  all: match goal with
       | H : (_ <=? tb_icount _) = false |- _ => apply Z.leb_gt in H
       end; unfold icount in *.
  - lia.
  - destruct (IH s1) as (s' & E & T & I); [lia | lia |].
    exists s'. split; [exact E |]. split; [exact T | lia].
Qed.

Lemma gen_block_exit_icount rv64 env s :
  icount (snd (gen_block_exit rv64 env s)) = icount s.
Proof.
  unfold icount, gen_block_exit, gen_goto_tb, when, gen_helper, tcg_gen_movi_tl,
    gen_exit_tb, tcg_gen_goto_tb.
  cbv [bind get_ctx].
  repeat match goal with
         | |- context [if ?b then _ else _] => destruct b
         end; reflexivity.
Qed.

(** [gen_intermediate_code] always completes: the check for leaked
    temporaries never fires, and the block holds at most [max_insns]
    instructions (one, when [max_insns] allows none). *)
Theorem gen_intermediate_code_completes rv64 ldl_code mmu opc_max env tb max_insns :
  exists s',
    gen_intermediate_code rv64 ldl_code mmu opc_max env tb max_insns = Translated s'
    /\ tb_icount tb <= icount s' <= Z.max (tb_icount tb + 1) max_insns.
Proof.
  unfold gen_intermediate_code.
  set (s := start (create_disas_context mmu env tb)).
  destruct (translate_loop_completes rv64 ldl_code opc_max env max_insns
              (Z.to_nat (max_insns - tb_icount tb)) s) as (s1 & E & _ & I).
  - reflexivity.
  - unfold icount, s. cbn. lia.
  - rewrite E. eexists. split; [reflexivity |].
    rewrite gen_block_exit_icount. exact I.
Qed.

(* ===================================================================== *)
(** * The decoder of 32-bit encodings (decode_RV32_64G) *)
(* ===================================================================== *)

Ltac split_known H :=
  unfold known_major in H; cbn [existsb app] in H;
  repeat match type of H with
         | (_ || _) = false =>
             let H1 := fresh "K" in
             apply orb_false_iff in H; destruct H as [H1 H]
         end.

Ltac majors_in_hyps :=
  cbv [OPC_RISC_LUI OPC_RISC_AUIPC OPC_RISC_JAL OPC_RISC_JALR
       OPC_RISC_BRANCH OPC_RISC_LOAD OPC_RISC_STORE OPC_RISC_ARITH_IMM
       OPC_RISC_ARITH OPC_RISC_FENCE OPC_RISC_SYSTEM OPC_RISC_ARITH_IMM_W
       OPC_RISC_ARITH_W OPC_RISC_ATOMIC OPC_RISC_FP_LOAD OPC_RISC_FP_STORE
       OPC_RISC_FMADD OPC_RISC_FMSUB OPC_RISC_FNMSUB OPC_RISC_FNMADD
       OPC_RISC_FP_ARITH] in *.

Ltac known_conds :=
  repeat match goal with
         | H : ?b = true |- context [?b] => rewrite H
         | H : ?b = false |- context [?b] => rewrite H
         end.

Ltac decode :=
  repeat (progress (compute_ops; known_conds; cbn [negb andb orb when])).

Lemma emitted_get_ctx {A} (f : DisasContext -> M A) s :
  emitted (bind get_ctx f) s = emitted (f (ctx s)) s.
Proof. reflexivity. Qed.

(** Enters the arm of [decode_RV32_64G] the hypotheses select. *)
Ltac enter_arm :=
  unfold decode_RV32_64G; rewrite emitted_get_ctx;
  cbn [ctx start ctx_opcode ctx_pc ctx_next_pc]; cbv zeta;
  known_conds; cbn [negb andb orb].

(** An instruction word whose major opcode has no arm in
    [decode_RV32_64G] raises the illegal-instruction exception at the
    address of the instruction. *)
Theorem unknown_major_is_illegal hs c (rv64 : bool) tenv m :
  known_major rv64 (MASK_OP_MAJOR (ctx_opcode c)) = false ->
  run hs (emitted (decode_RV32_64G rv64 tenv) (start c)) m
  = Raised (illegal_at (if rv64 then 64 else 32) (env m) (ctx_pc c)) (mem m).
Proof.
  intros H. open_context c.
  destruct rv64; split_known H; clear H; enter_arm;
    unfold kill_unknown; decode; unfold run; norm; reflexivity.
Qed.

(** Enters the arm of the major opcode given by [H]. *)
Ltac enter_major H :=
  unfold decode_RV32_64G; rewrite emitted_get_ctx;
  cbn [ctx start ctx_opcode ctx_pc ctx_next_pc]; cbv zeta;
  rewrite H; unfold_opcs; fold_consts; cbn [negb andb orb].

(** LUI writes to [rd] the 20-bit immediate shifted left by 12 and
    sign-extended, AUIPC that value plus the address of the instruction,
    both truncated to the register width; with [rd = x0] nothing is
    written.  Neither touches the program counter or memory. *)
Theorem decode_lui_auipc hs c (rv64 : bool) tenv m :
  let X := if rv64 then 64 else 32 in
  let opcode := ctx_opcode c in
  let op := MASK_OP_MAJOR opcode in
  op = OPC_RISC_LUI \/ op = OPC_RISC_AUIPC ->
  exists t,
    run hs (emitted (decode_RV32_64G rv64 tenv) (start c)) m
    = Fallthrough
        (mkMachine (write_gpr (env m) (GET_RD opcode)
                      (wrap X (upper_imm opcode
                               + (if op =? OPC_RISC_AUIPC then ctx_pc c else 0))))
                   (mem m) t).
Proof.
  cbv zeta. open_context c. destruct m as [e mm t0]. unfold write_gpr, upper_imm.
  intros [H | H]; rewrite H;
    change (OPC_RISC_LUI =? OPC_RISC_AUIPC) with false;
    change (OPC_RISC_AUIPC =? OPC_RISC_AUIPC) with true;
    cbv iota; rewrite ?Z.add_0_r;
    enter_major H;
    destruct (GET_RD c_opcode =? 0) eqn:Ed; destruct rv64;
    decode; unfold run; norm; eexists; reflexivity.
Qed.

(* ===================================================================== *)
(** * Bit-field extraction (extract32, sextract64) *)
(* ===================================================================== *)

Lemma low_mask length : 0 <= length -> Z.shiftl 1 length - 1 = Z.ones length.
Proof. intros H. rewrite Z.shiftl_1_l, Z.ones_equiv. lia. Qed.

(** For a 32-bit [value], a [start] below 32 and a [length] below 32 (the
    arguments for which the C shifts are defined), [extract32] is the
    [length]-bit field that starts at bit [start]. *)
Theorem extract32_field value start length :
  0 <= value < 2 ^ 32 -> 0 <= start < 32 -> 0 <= length < 32 ->
  extract32 value start length = wrap length (Z.shiftr value start)
  /\ 0 <= extract32 value start length < 2 ^ length.
Proof.
  intros _ Hs Hl. unfold extract32.
  assert (E : wrap 32 (Z.shiftl 1 length - 1) = Z.ones length).
  { rewrite low_mask by lia. apply wrap_small. rewrite Z.ones_equiv.
    pose proof (pow2_pos length ltac:(lia)).
    pose proof (Z.pow_lt_mono_r 2 length 32 ltac:(lia) ltac:(lia) ltac:(lia)). lia. }
  rewrite E, Z.land_ones by lia. fold (wrap length (Z.shiftr value start)).
  split; [reflexivity | apply wrap_range; lia].
Qed.

Lemma high_mask_disjoint length u :
  0 < length < 64 -> 0 <= u < 2 ^ length -> Z.land u (2 ^ 64 - 2 ^ length) = 0.
Proof.
  intros Hl Hu.
  replace (2 ^ 64 - 2 ^ length) with (Z.shiftl (2 ^ (64 - length) - 1) length).
  - apply Z.bits_inj'; intros i Hi. rewrite Z.land_spec, Z.bits_0.
    destruct (Z.ltb_spec i length) as [L | L].
    + rewrite Z.shiftl_spec_low by lia. apply andb_false_r.
    + rewrite <- (wrap_small length u Hu), wrap_testbit by lia.
      replace (i <? length) with false by (symmetry; apply Z.ltb_ge; lia).
      reflexivity.
  - rewrite Z.shiftl_mul_pow2 by lia.
    rewrite Z.mul_sub_distr_r, <- Z.pow_add_r by lia.
    replace (64 - length + length) with 64 by lia. lia.
Qed.

(** For a 64-bit [value], a [start] below 64 and a [length] from 1 to 30
    (the arguments for which the C shifts, one of them on [int], are
    defined), [sextract64] is the field read as a two's complement number
    of [length] bits, as a 64-bit value. *)
Theorem sextract64_sign_extends value start length :
  0 <= value < 2 ^ 64 -> 0 <= start < 64 -> 0 < length < 31 ->
  sextract64 value start length = wrap 64 (signed length (Z.shiftr value start)).
Proof.
  intros _ Hs Hl. unfold sextract64, signed. cbv zeta.
  rewrite low_mask, Z.land_ones by lia.
  fold (wrap length (Z.shiftr value start)).
  set (u := wrap length (Z.shiftr value start)).
  pose proof (wrap_range length (Z.shiftr value start) ltac:(lia)) as R. fold u in R.
  pose proof (pow2_succ length ltac:(lia)) as S.
  pose proof (pow2_pos (length - 1) ltac:(lia)) as P.
  pose proof (Z.pow_lt_mono_r 2 length 64 ltac:(lia) ltac:(lia) ltac:(lia)) as B.
  rewrite Z.shiftr_div_pow2 by lia.
  destruct (Z.ltb_spec u (2 ^ (length - 1))) as [L | L].
  - rewrite Z.div_small by lia. cbn [Z.eqb negb].
    symmetry. apply wrap_small. lia.
  - replace (u / 2 ^ (length - 1) =? 0) with false.
    2:{ symmetry. apply Z.eqb_neq. intro E. apply Z.div_small_iff in E; lia. }
    cbn [negb].
    assert (M : wrap 64 (Z.lnot (Z.ones length)) = 2 ^ 64 - 2 ^ length).
    { rewrite Z.ones_equiv. unfold Z.lnot.
      replace (Z.pred (- Z.pred (2 ^ length))) with (- 2 ^ length) by lia.
      unfold wrap. rewrite <- (Z_mod_plus_full _ 1).
      rewrite Z.mod_small by lia. lia. }
    rewrite M.
    pose proof (Z.add_lor_land u (2 ^ 64 - 2 ^ length)) as A.
    rewrite high_mask_disjoint in A by lia.
    unfold wrap at 1. rewrite <- (Z_mod_plus_full _ 1).
    rewrite Z.mod_small by lia. lia.
Qed.

(* ===================================================================== *)
(** * Floating-point moves, loads and stores with the unit on *)
(* ===================================================================== *)

(* ===================================================================== *)
(** * Inline floating-point translations with FS on *)
(* ===================================================================== *)

Lemma fs_set w x :
  0 <= w -> Z.land (Z.ones w) MSTATUS_FS = MSTATUS_FS ->
  Z.land x MSTATUS_FS <> 0 ->
  eval_cond w TCG_COND_NE (wrap w (Z.land (wrap w x) MSTATUS_FS)) 0 = true.
Proof.
  intros Hw Ho H.
  assert (E : Z.land (wrap w x) MSTATUS_FS = Z.land x MSTATUS_FS).
  { unfold wrap. now rewrite <- Z.land_ones, <- Z.land_assoc, Ho by assumption. }
  unfold eval_cond.
  rewrite wrap_wrap, wrap_land_out, wrap_wrap, E by assumption.
  replace (wrap w 0) with 0 by (symmetry; apply wrap_small; pose proof (pow2_pos w); lia).
  apply negb_true_iff, Z.eqb_neq. exact H.
Qed.

Lemma fs_set_64 x :
  Z.land x MSTATUS_FS <> 0 ->
  eval_cond 64 TCG_COND_NE (wrap 64 (Z.land (wrap 64 x) MSTATUS_FS)) 0 = true.
Proof. apply fs_set; [lia | reflexivity]. Qed.

Lemma fs_set_32 x :
  Z.land x MSTATUS_FS <> 0 ->
  eval_cond 32 TCG_COND_NE (wrap 32 (Z.land (wrap 32 x) MSTATUS_FS)) 0 = true.
Proof. apply fs_set; [lia | reflexivity]. Qed.

Ltac fs_on FS :=
  first [ rewrite (fs_set_64 _ FS) | rewrite (fs_set_32 _ FS) ].

Lemma fpr_written_set e rd x : fpr_written e rd x (set_fpr e rd x).
Proof.
  exists (upd (fpr e) rd x). split; [reflexivity|].
  intro r. unfold upd. reflexivity.
Qed.

Lemma fpr_written_twice e rd y x :
  fpr_written e rd x (set_fpr (set_fpr e rd y) rd x).
Proof.
  exists (upd (upd (fpr e) rd y) rd x). split; [reflexivity|].
  intro r. unfold upd. destruct (r =? rd); reflexivity.
Qed.

Ltac sign_bits :=
  intros i Hi;
  repeat first [ rewrite wrap_testbit by lia | rewrite Z.lxor_spec
               | rewrite Z.lor_spec | rewrite Z.land_spec
               | rewrite Z.lnot_spec by lia ];
  replace (i <? 64) with true by (symmetry; apply Z.ltb_lt; lia);
  unfold fsgnj_bit; cbn [Z.eqb andb];
  repeat match goal with
         | |- context [Z.testbit ?a ?b] => destruct (Z.testbit a b)
         end;
  reflexivity.

(** With the floating-point unit on, [gen_fsgnj] writes to [fpr[rd]] the
    value of [fpr[rs1]] whose bits inside the mask [min] are replaced by
    those of [fpr[rs2]] (FSGNJ), their complement (FSGNJN) or their
    exclusive or with those of [fpr[rs1]] (FSGNJX); nothing else of the
    CPU state or of memory changes and no exception is raised. *)
Theorem gen_fsgnj_injects hs c (rv64 : bool) rd rs1 rs2 rm min m :
  Z.land (mstatus (env m)) MSTATUS_FS <> 0 ->
  0 <= rm <= 2 ->
  exists e' t x,
    run hs (emitted (gen_fsgnj rv64 rd rs1 rs2 rm min) (start c)) m
    = Fallthrough (mkMachine e' (mem m) t)
    /\ fpr_written (env m) rd x e'
    /\ 0 <= x < 2 ^ 64
    /\ forall i, 0 <= i < 64 ->
         Z.testbit x i
         = fsgnj_bit rm (Z.testbit min i) (Z.testbit (fpr (env m) rs1) i)
                     (Z.testbit (fpr (env m) rs2) i).
Proof.
  intros FS Hrm. open_context c.
  assert (R : rm = 0 \/ rm = 1 \/ rm = 2) by lia.
  unfold gen_fsgnj, check_mstatus_fs, kill_unknown.
  destruct R as [-> | [-> | ->]]; destruct rv64.
  all: translate; unfold run; sym; fs_on FS; sym.
  all: lazymatch goal with
       | |- exists e' t x, Fallthrough (mkMachine (set_fpr ?e ?r ?v) _ ?tt) = _ /\ _ =>
           exists (set_fpr e r v), tt, v
       end.
  all: split; [reflexivity|].
  all: split; [first [apply fpr_written_set | apply fpr_written_twice]|].
  all: split; [apply (wrap_range 64); lia|].
  all: sign_bits.
Qed.

Lemma load_bytes_range n : forall mm a,
  0 <= load_bytes n mm a < 2 ^ (8 * Z.of_nat n).
Proof.
  induction n as [| k IH]; intros mm a; [cbn; lia |].
  cbn [load_bytes]. specialize (IH mm (a + 1)).
  pose proof (wrap_range 8 (mm a) ltac:(lia)) as B.
  change (2 ^ 8) with 256 in B.
  replace (8 * Z.of_nat (S k)) with (8 + 8 * Z.of_nat k) by lia.
  rewrite Z.pow_add_r by lia. change (2 ^ 8) with 256. nia.
Qed.

Lemma load_bytes_range64 n mm a :
  (n <= 8)%nat -> 0 <= load_bytes n mm a < 2 ^ 64.
Proof.
  intro H. pose proof (load_bytes_range n mm a) as B.
  assert (2 ^ (8 * Z.of_nat n) <= 2 ^ 64) by (apply Z.pow_le_mono_r; lia).
  lia.
Qed.

(** With the floating-point unit on, FLW and FLD write to [fpr[rd]] the 4
    or 8 bytes at [gpr[rs1] + imm], zero-extended to 64 bits; the program
    counter, the integer registers and memory are left as they were. *)
Theorem gen_fp_load_correct hs c (rv64 : bool) o rd rs1 imm m :
  Z.land (mstatus (env m)) MSTATUS_FS <> 0 ->
  let X := if rv64 then 64 else 32 in
  exists t,
    run hs (emitted (gen_fp_load rv64 (fp_load_opc o) rd rs1 imm) (start c)) m
    = Fallthrough
        (mkMachine (set_fpr (env m) rd
                      (load_bytes (fp_mem_size o) (mem m) (wrap X (reg m rs1 + imm))))
                   (mem m) t).
Proof.
  intros FS X. subst X. open_context c.
  unfold gen_fp_load, check_mstatus_fs, kill_unknown, gen_get_gpr, reg.
  destruct rv64, o; cbn [fp_load_opc fp_mem_size];
  destruct (rs1 =? 0) eqn:E1;
  translate; unfold run; sym; fs_on FS; norm; same_state.
  all: now rewrite (wrap_small 64) by (apply load_bytes_range64; lia).
Qed.

(** With the floating-point unit on, FSW and FSD store the low 4 or 8
    bytes of [fpr[rs2]] at [gpr[rs1] + imm] and leave the CPU state as it
    was. *)
Theorem gen_fp_store_correct hs c (rv64 : bool) o rs1 rs2 imm m :
  Z.land (mstatus (env m)) MSTATUS_FS <> 0 ->
  let X := if rv64 then 64 else 32 in
  exists t,
    run hs (emitted (gen_fp_store rv64 (fp_store_opc o) rs1 rs2 imm) (start c)) m
    = Fallthrough
        (mkMachine (env m)
                   (store_bytes (fp_mem_size o) (mem m) (wrap X (reg m rs1 + imm))
                                (fpr (env m) rs2)) t).
Proof.
  intros FS X. subst X. open_context c.
  unfold gen_fp_store, check_mstatus_fs, kill_unknown, gen_get_gpr, reg.
  destruct rv64, o; cbn [fp_store_opc fp_mem_size];
  destruct (rs1 =? 0) eqn:E1;
  translate; unfold run; sym; fs_on FS; norm; same_state.
Qed.

(* ===================================================================== *)
(** * System instructions (gen_system) *)
(* ===================================================================== *)

Lemma system_trap_cases csr cause :
  system_trap csr = Some cause ->
  (csr = 0x0 /\ cause = RISCV_EXCP_U_ECALL)
  \/ (csr = 0x1 /\ cause = RISCV_EXCP_BREAKPOINT)
  \/ ((csr = 0x002 \/ csr = 0x202 \/ csr = 0x7b2)
      /\ cause = RISCV_EXCP_ILLEGAL_INST).
Proof.
  unfold system_trap.
  destruct (csr =? 0) eqn:E0; [apply Z.eqb_eq in E0; intros [= <-]; auto |].
  destruct (csr =? 1) eqn:E1; [apply Z.eqb_eq in E1; intros [= <-]; auto |].
  destruct (csr =? 2) eqn:E2; [apply Z.eqb_eq in E2; intros [= <-]; auto 6 |].
  destruct (csr =? 514) eqn:E3; [apply Z.eqb_eq in E3; intros [= <-]; auto 6 |].
  destruct (csr =? 1970) eqn:E4; [apply Z.eqb_eq in E4; intros [= <-]; auto 6 |].
  discriminate.
Qed.

(** ECALL raises the user-level environment-call exception, EBREAK the
    breakpoint exception, and URET, HRET and DRET the illegal-instruction
    exception; each leaves the program counter at the instruction itself
    and changes neither registers nor memory. *)
Theorem gen_system_traps hs c (rv64 : bool) rd rs1 csr cause m :
  system_trap csr = Some cause ->
  let X := if rv64 then 64 else 32 in
  run hs (emitted (gen_system rv64 OPC_RISC_ECALL rd rs1 csr) (start c)) m
  = Raised (set_exception_index (set_pc (env m) (wrap X (ctx_pc c))) cause) (mem m).
Proof.
  intros Hc X. subst X. open_context c.
  apply system_trap_cases in Hc.
  unfold gen_system, generate_exception, kill_unknown, gen_get_gpr.
  destruct Hc as [[-> ->] | [[-> ->] | [[-> | [-> | ->]] ->]]];
  destruct rv64; destruct (rs1 =? 0) eqn:E1;
  translate; unfold run; norm; reflexivity.
Qed.

(** A CSR instruction sets the program counter to its own address, calls
    the CSR helper with the source operand and the CSR number and, when
    the helper returns, writes the returned old value to [rd] (unless [rd]
    is x0), sets the program counter to the next instruction and leaves
    the block unchained. *)
Theorem gen_system_csr hs c (rv64 : bool) o rd rs1 csr e' v m :
  let X := if rv64 then 64 else 32 in
  hs (csr_helper o) (csr_args X o (reg m rs1) rs1 csr)
     (set_pc (env m) (wrap X (ctx_pc c))) = HReturn e' v ->
  exists t,
    run hs (emitted (gen_system rv64 (csr_opc o) rd rs1 csr) (start c)) m
    = Exit (mkMachine (set_pc (write_gpr e' rd (wrap X v)) (wrap X (ctx_next_pc c)))
                      (mem m) t) false.
Proof.
  intros X Hh. subst X. open_context c.
  unfold gen_system, generate_exception, kill_unknown, gen_get_gpr, gen_set_gpr,
    write_gpr, reg in *.
  destruct rv64, o; cbn [csr_opc csr_helper csr_args] in *;
  destruct (rs1 =? 0) eqn:E1; destruct (rd =? 0) eqn:Ed; cbn [negb] in *;
  change (wrap 64 0) with 0 in Hh; change (wrap 32 0) with 0 in Hh;
  translate; unfold run; norm; rewrite Hh; norm;
  eexists; reflexivity.
Qed.

(* ===================================================================== *)
(** * A breakpoint at the start of a block (gen_breakpoint) *)
(* ===================================================================== *)

(** When a breakpoint is set at the first address of a block,
    [gen_intermediate_code] translates no instruction, and the code of the
    block raises the debug exception with the program counter at that
    address, whatever the guest code there is. *)
Theorem breakpoint_at_block_start hs (rv64 : bool) ldl_code mmu opc_max cpu tb max_insns m :
  process_breakpoints cpu (tb_pc tb) = true ->
  exists s',
    gen_intermediate_code rv64 ldl_code mmu opc_max cpu tb max_insns = Translated s'
    /\ icount s' = tb_icount tb
    /\ tb_size (ctx_tb (ctx s')) = tb_size tb
    /\ run hs (gen_opc_buf (tcg s')) m
       = Raised (set_exception_index
                   (set_pc (env m) (wrap (if rv64 then 64 else 32) (tb_pc tb)))
                   EXCP_DEBUG) (mem m).
Proof.
  intros Hbp. unfold gen_intermediate_code.
  assert (L : forall fuel,
             translate_loop rv64 ldl_code opc_max fuel cpu max_insns
               (start (create_disas_context mmu cpu tb))
             = Translated (snd (gen_breakpoint rv64
                                  (start (create_disas_context mmu cpu tb))))).
  { intros [| fuel]; cbn [translate_loop]; unfold start at 1 3;
    cbn [ctx create_disas_context ctx_pc]; rewrite Hbp; reflexivity. }
  rewrite L. eexists. split; [reflexivity |].
  assert (K : forall s, ctx_tb (ctx (snd (gen_block_exit rv64 cpu s)))
                       = mkTB (tb_pc (ctx_tb (ctx s))) (tb_size (ctx_tb (ctx s)))
                              (tb_icount (ctx_tb (ctx s))) (tb_prev_size (ctx_tb (ctx s)))
                              (tb_original_size (ctx_tb (ctx s)))
                              (tb_search_pc (ctx_tb (ctx s))) get_disas_flags).
  { intros [c0 g0].
    unfold gen_block_exit, gen_goto_tb, when, gen_helper, tcg_gen_movi_tl,
      gen_exit_tb, tcg_gen_goto_tb.
    cbv [bind get_ctx].
    repeat match goal with
           | |- context [if ?b then _ else _] => destruct b
           end; reflexivity. }
  unfold icount. rewrite K. cbn [tb_icount tb_size].
  split; [reflexivity |]. split; [reflexivity |].
  match goal with
  | |- run _ (gen_opc_buf (tcg (snd (gen_block_exit ?r ?e (snd (gen_breakpoint ?r ?s0)))))) _ = _ =>
      change (gen_opc_buf (tcg (snd (gen_block_exit r e (snd (gen_breakpoint r s0))))))
        with (emitted (bind (gen_breakpoint r) (fun _ => gen_block_exit r e)) s0)
  end.
  destruct tb as [t_pc t_size t_icount t_prev t_orig t_search t_flags].
  unfold create_disas_context. cbn [tb_pc] in *.
  unfold gen_block_exit, gen_breakpoint, generate_exception, gen_goto_tb.
  destruct rv64; destruct (env_singlestep_enabled cpu) eqn:Es;
  translate; unfold run; norm; reflexivity.
Qed.

(* ===================================================================== *)
(** * Vector moves (helper_vmv_ivi) *)
(* ===================================================================== *)

Lemma load_bytes_ext n : forall f g a,
  (forall y, a <= y < a + Z.of_nat n -> f y = g y) ->
  load_bytes n f a = load_bytes n g a.
Proof.
  induction n as [| k IH]; intros f g a H; [reflexivity |].
  cbn [load_bytes]. rewrite (H a) by lia.
  rewrite (IH f g (a + 1)); [reflexivity |]. intros y Hy. apply H. lia.
Qed.

Lemma supported_eew_bytes w :
  supported_eew w -> 0 < w / 8 /\ 8 * Z.of_nat (Z.to_nat (w / 8)) = w.
Proof. intros [-> | [-> | [-> | ->]]]; split; reflexivity. Qed.

Lemma switch_eew_supported w arm e :
  supported_eew w -> switch_eew w arm e = HReturn (arm w) 0.
Proof. intros [-> | [-> | [-> | ->]]]; reflexivity. Qed.

Lemma fill_loop w vd imm base n :
  supported_eew w ->
  forall i e,
  V_ e vd = base ->
  exists e',
    vloop n i (fun ei e => switch_eew w (fun w => set_velem e w vd ei imm) e) e
    = HReturn e' 0
    /\ only_vbytes_changed e e'
    /\ (forall y, y < base + i * (w / 8) \/ base + (i + Z.of_nat n) * (w / 8) <= y ->
                  v (vec e') y = v (vec e) y)
    /\ (forall j, i <= j < i + Z.of_nat n ->
                  load_bytes (Z.to_nat (w / 8)) (v (vec e')) (base + j * (w / 8))
                  = wrap w imm).
Proof.
  intros Hw. destruct (supported_eew_bytes w Hw) as [Kpos K8].
  set (k := w / 8) in *.
  induction n as [| n IH]; intros i e Hb.
  - exists e. split; [reflexivity |].
    split; [destruct e as [? ? ? ? ? ? ? ? ? []]; reflexivity |].
    split; [reflexivity | intros j Hj; lia].
  - cbn [vloop]. rewrite switch_eew_supported by exact Hw.
    cbn [and_then]. set (e1 := set_velem e w vd i imm).
    destruct (IH (i + 1) e1) as (e' & E & S & F & L); [exact Hb |].
    exists e'. split; [exact E |].
    assert (F1 : forall y, y < base + i * k \/ base + (i + 1) * k <= y ->
                           v (vec e1) y = v (vec e) y).
    { intros y Hy. unfold e1, set_velem. cbn [v vec set_v set_vec].
      rewrite Hb. fold k. apply store_bytes_other.
      rewrite Z2Nat.id by lia. lia. }
    split; [unfold only_vbytes_changed in *; rewrite S; reflexivity |].
    split.
    + intros y Hy. rewrite F by lia. apply F1. lia.
    + intros j Hj. destruct (Z.eq_dec j i) as [-> | Hne].
      * rewrite (load_bytes_ext _ (v (vec e')) (v (vec e1))).
        -- unfold e1, set_velem. cbn [v vec set_v set_vec]. rewrite Hb. fold k.
           rewrite load_store_bytes, K8. reflexivity.
        -- intros y Hy. rewrite Z2Nat.id in Hy by lia. apply F. lia.
      * apply L. lia.
Qed.

(** [helper_vmv_ivi] with a valid destination, a supported element width
    and [vstart] and [vl] in the range of the C loop index (an [int]),
    returns, having set every element of [vd] from [vstart] up to [vl] to
    the immediate truncated to the element width; the bytes of the
    register file outside these elements, and all other CPU state
    ([vstart] included), are left as they were. *)
Theorem helper_vmv_ivi_fills vidx e vd imm :
  vidx e vd = false ->
  supported_eew (vsew (vec e)) ->
  0 <= vstart (vec e) < 2 ^ 31 ->
  0 <= vl (vec e) < 2 ^ 31 ->
  let w := vsew (vec e) in
  let lo := vstart (vec e) in
  let hi := vl (vec e) in
  exists e',
    helper_vmv_ivi vidx e vd imm = HReturn e' 0
    /\ only_vbytes_changed e e'
    /\ (forall i, lo <= i < hi -> velem e' w vd i = wrap w imm)
    /\ (forall y, y < V_ e vd + lo * (w / 8) \/ V_ e vd + Z.max lo hi * (w / 8) <= y ->
                  v (vec e') y = v (vec e) y).
Proof.
  intros Hv Hw _ _ w lo hi.
  unfold helper_vmv_ivi, invalid_then, for_elements. rewrite Hv. cbn [and_then].
  fold w lo hi.
  destruct (fill_loop w vd imm (V_ e vd) (Z.to_nat (hi - lo)) Hw lo e eq_refl)
    as (e' & E & S & F & L).
  exists e'. split; [exact E |]. split; [exact S |]. split.
  - intros i Hi. unfold velem.
    replace (V_ e' vd) with (V_ e vd) by (rewrite S; reflexivity).
    apply L. lia.
  - intros y Hy. apply F. destruct Hy as [Hy | Hy]; [left; exact Hy | right].
    replace (lo + Z.of_nat (Z.to_nat (hi - lo))) with (Z.max lo hi) by lia.
    exact Hy.
Qed.

(** A [vtype] value with a bit set above bit 7 is rejected by
    [helper_vsetvl]: the call sets [vill] and the top bit of [vtype], and
    [vlmax], [vl] and the returned value are zero whatever the requested
    length. *)
Theorem helper_vsetvl_reserved_vtype (rv64 : bool) e rd rs1 avl vtype0 is_imm :
  Z.land (mstatus e) MSTATUS_VS <> 0 ->
  Z.shiftr vtype0 8 <> 0 ->
  0 <= avl ->
  exists e',
    helper_vsetvl rv64 e rd rs1 avl vtype0 is_imm = HReturn e' 0
    /\ vill (vec e') = true
    /\ vlmax (vec e') = 0
    /\ vl (vec e') = 0
    /\ Z.testbit (vtype (vec e')) ((if rv64 then 64 else 32) - 1) = true.
Proof.
  intros Hvs Hr Ha. apply Z.eqb_neq in Hvs, Hr.
  unfold helper_vsetvl, require_vec. rewrite Hvs. cbn [and_then].
  rewrite Hr. cbn [negb]. rewrite !orb_true_r.
  assert (M : MIN avl 0 = 0).
  { unfold MIN. destruct (avl <? 0) eqn:E; [apply Z.ltb_lt in E; lia | reflexivity]. }
  rewrite M. change (0 =? 0) with true. cbv iota.
  assert (V : (if is_imm =? 1 then 0 else 0) = 0) by (destruct (is_imm =? 1); reflexivity).
  rewrite V.
  eexists. split; [reflexivity |]. cbn [vill vlmax vl vtype vec set_vec].
  repeat split.
  rewrite Z.lor_spec. unfold xlen.
  rewrite Z.shiftl_spec by (destruct rv64; lia).
  replace ((if rv64 then 64 else 32) - 1 - ((if rv64 then 64 else 32) - 1)) with 0 by lia.
  apply orb_true_r.
Qed.

(* ===================================================================== *)
(** * The further theorems at concrete inputs *)
(* ===================================================================== *)

(** [sltu x3, x1, x2] on RV64. *)
Lemma gen_arith_alu_correct_witness :
  exists t,
    run quiet_helpers
        (emitted (gen_arith true (alu_opc ALU_SLTU) 3 1 2) (start (ctx_at 0x1000 0)))
        machine_x1
    = Fallthrough (mkMachine (set_gpr (env machine_x1) 3
                     (riscv_alu 64 ALU_SLTU (reg machine_x1 1) (reg machine_x1 2)))
                     (mem machine_x1) t).
Proof.
  apply (gen_arith_alu_correct quiet_helpers (ctx_at 0x1000 0) true ALU_SLTU 3 1 2
           machine_x1); lia.
Defined.

(** [sraw x3, x1, x2] on RV64. *)
Lemma gen_arith_shift_correct_witness :
  exists t,
    run quiet_helpers
        (emitted (gen_arith true (shift_opc SH_SRA true) 3 1 2) (start (ctx_at 0x1000 0)))
        machine_x1
    = Fallthrough (mkMachine (set_gpr (env machine_x1) 3
                     (sext32 64 (riscv_shift 32 SH_SRA (reg machine_x1 1) (reg machine_x1 2))))
                     (mem machine_x1) t).
Proof.
  apply (gen_arith_shift_correct quiet_helpers (ctx_at 0x1000 0) true SH_SRA true 3 1 2
           machine_x1); [reflexivity | lia].
Defined.

(** [mulhsu x3, x1, x2] on RV32. *)
Lemma gen_arith_mul_correct_witness :
  exists t,
    run quiet_helpers
        (emitted (gen_arith false (mul_opc M_MULHSU) 3 1 2) (start (ctx_at 0x1000 0)))
        machine_x1
    = Fallthrough (mkMachine (set_gpr (env machine_x1) 3
                     (riscv_mul 32 M_MULHSU (reg machine_x1 1) (reg machine_x1 2)))
                     (mem machine_x1) t).
Proof.
  apply (gen_arith_mul_correct quiet_helpers (ctx_at 0x1000 0) false M_MULHSU 3 1 2
           machine_x1); lia.
Defined.

(** [subw x3, x1, x2]. *)
Lemma gen_arith_w_correct_witness :
  (exists t,
     run quiet_helpers
         (emitted (gen_arith true (warith_opc W_SUBW) 3 1 2) (start (ctx_at 0x1000 0)))
         machine_x1
     = Fallthrough (mkMachine (set_gpr (env machine_x1) 3
                      (sext32 64 (riscv_warith W_SUBW (reg machine_x1 1) (reg machine_x1 2))))
                      (mem machine_x1) t))
  /\ run quiet_helpers
         (emitted (gen_arith false (warith_opc W_SUBW) 3 1 2) (start (ctx_at 0x1000 0)))
         machine_x1
     = Raised (illegal_at 32 (env machine_x1) (ctx_pc (ctx_at 0x1000 0))) (mem machine_x1).
Proof.
  apply (gen_arith_w_correct quiet_helpers (ctx_at 0x1000 0) W_SUBW 3 1 2 machine_x1); lia.
Defined.

(** [xori x3, x1, -1] on RV64. *)
Lemma gen_arith_imm_alu_correct_witness :
  exists t,
    run quiet_helpers
        (emitted (gen_arith_imm true (alui_opc I_XORI) 3 1 (-1)) (start (ctx_at 0x1000 0)))
        machine_x1
    = Fallthrough (mkMachine (set_gpr (env machine_x1) 3
                     (riscv_alu 64 (alui_alu I_XORI) (reg machine_x1 1) (-1)))
                     (mem machine_x1) t).
Proof.
  apply (gen_arith_imm_alu_correct quiet_helpers (ctx_at 0x1000 0) true I_XORI 3 1 (-1)
           machine_x1); lia.
Defined.

(** [lh x3, 8(x1)] on RV32. *)
Lemma gen_load_correct_witness :
  exists t,
    run quiet_helpers
        (emitted (gen_load false (load_opc L_H) 3 1 8) (start (ctx_at 0x1000 0))) machine_x1
    = Fallthrough
        (mkMachine (write_gpr (set_pc (env machine_x1) (wrap 32 (ctx_pc (ctx_at 0x1000 0)))) 3
                      (riscv_load 32 L_H (mem machine_x1) (wrap 32 (reg machine_x1 1 + 8))))
                   (mem machine_x1) t).
Proof.
  apply (gen_load_correct quiet_helpers (ctx_at 0x1000 0) false L_H 3 1 8 machine_x1).
  reflexivity.
Defined.

(** [sd x1, 8(x2)] on RV64. *)
Lemma gen_store_correct_witness :
  exists t,
    run quiet_helpers
        (emitted (gen_store true (store_opc S_D) 2 1 8) (start (ctx_at 0x1000 0))) machine_x1
    = Fallthrough
        (mkMachine (set_pc (env machine_x1) (wrap 64 (ctx_pc (ctx_at 0x1000 0))))
                   (store_bytes (store_size S_D) (mem machine_x1)
                                (wrap 64 (reg machine_x1 2 + 8))
                                (wrap 64 (reg machine_x1 1))) t).
Proof.
  apply (gen_store_correct quiet_helpers (ctx_at 0x1000 0) true S_D 2 1 8 machine_x1).
  reflexivity.
Defined.

(** [sb x1, 4(x2)] followed by [lb x3, 4(x2)] on RV64. *)
Lemma store_then_load_witness :
  exists m1,
    run quiet_helpers
        (emitted (gen_store true (store_opc S_B) 2 1 4) (start (ctx_at 0x1000 0))) machine_x1
    = Fallthrough m1
    /\ exists t,
         run quiet_helpers
             (emitted (gen_load true (load_opc L_B) 3 2 4) (start (ctx_at 0x1004 0))) m1
         = Fallthrough
             (mkMachine (write_gpr (set_pc (env machine_x1)
                                      (wrap 64 (ctx_pc (ctx_at 0x1004 0)))) 3
                           (load_extend 64 L_B (reg machine_x1 1)))
                        (mem m1) t).
Proof.
  apply (store_then_load quiet_helpers (ctx_at 0x1000 0) (ctx_at 0x1004 0) true S_B L_B
           3 2 1 4 machine_x1); reflexivity.
Defined.

(** [jal x1, +8] at 0x1000 on RV64 without the compressed extension. *)
Lemma gen_jal_links_witness :
  goes_to true (ctx_at 0x1000 0)
          (write_gpr (env machine_x1) 1 (wrap 64 (ctx_next_pc (ctx_at 0x1000 0))))
          (mem machine_x1) (wrap 64 (ctx_pc (ctx_at 0x1000 0) + 8))
          (run quiet_helpers (emitted (gen_jal true cpu_x1 1 8) (start (ctx_at 0x1000 0)))
               machine_x1).
Proof.
  apply (gen_jal_links quiet_helpers (ctx_at 0x1000 0) true cpu_x1 1 8 machine_x1).
  right. reflexivity.
Defined.

(** [jalr x3, 5(x1)] on RV64 with x1 = 7: the target is 12. *)
Lemma gen_jalr_links_witness :
  exists t,
    run quiet_helpers
        (emitted (gen_jalr true cpu_x1 OPC_RISC_JALR 3 1 5) (start (ctx_at 0x1000 0)))
        machine_x1
    = Exit (mkMachine (write_gpr (set_pc (env machine_x1)
                                    (jalr_target 64 (reg machine_x1 1) 5)) 3
                         (wrap 64 (ctx_next_pc (ctx_at 0x1000 0))))
                      (mem machine_x1) t) false.
Proof.
  apply (gen_jalr_links quiet_helpers (ctx_at 0x1000 0) true cpu_x1 3 1 5 machine_x1).
  right. reflexivity.
Defined.

(** [blt x1, x2, +16] at 0x1000 on RV64 with x1 = 7 and x2 = 0: not taken. *)
Lemma gen_branch_goes_witness :
  goes_to true (ctx_at 0x1000 0) (env machine_x1) (mem machine_x1)
          (if eval_cond 64 TCG_COND_LT (reg machine_x1 1) (reg machine_x1 2)
           then wrap 64 (ctx_pc (ctx_at 0x1000 0) + 16)
           else ctx_next_pc (ctx_at 0x1000 0))
          (run quiet_helpers
               (emitted (gen_branch true cpu_x1 OPC_RISC_BLT 1 2 16) (start (ctx_at 0x1000 0)))
               machine_x1).
Proof.
  apply (gen_branch_goes quiet_helpers (ctx_at 0x1000 0) true cpu_x1 OPC_RISC_BLT
           TCG_COND_LT 1 2 16 machine_x1); [reflexivity | right; reflexivity].
Defined.

(** The instruction word 0x0000007F has no arm in the decoder. *)
Lemma unknown_major_is_illegal_witness :
  run quiet_helpers (emitted (decode_RV32_64G true cpu_x1) (start (ctx_at 0x1000 0x7F)))
      machine_x1
  = Raised (illegal_at 64 (env machine_x1) (ctx_pc (ctx_at 0x1000 0x7F))) (mem machine_x1).
Proof.
  apply (unknown_major_is_illegal quiet_helpers (ctx_at 0x1000 0x7F) true cpu_x1 machine_x1).
  reflexivity.
Defined.

(** [lui x5, 0x12345] (0x123452B7) on RV64. *)
Lemma decode_lui_auipc_witness :
  exists t,
    run quiet_helpers
        (emitted (decode_RV32_64G true cpu_x1) (start (ctx_at 0x1000 0x123452B7))) machine_x1
    = Fallthrough
        (mkMachine (write_gpr (env machine_x1) (GET_RD 0x123452B7)
                      (wrap 64 (upper_imm 0x123452B7 + 0)))
                   (mem machine_x1) t).
Proof.
  apply (decode_lui_auipc quiet_helpers (ctx_at 0x1000 0x123452B7) true cpu_x1 machine_x1).
  left. reflexivity.
Defined.

(** The [rd] field of 0x123452B7. *)
Lemma extract32_field_witness :
  extract32 0x123452B7 7 5 = wrap 5 (Z.shiftr 0x123452B7 7)
  /\ 0 <= extract32 0x123452B7 7 5 < 2 ^ 5.
Proof. apply (extract32_field 0x123452B7 7 5); lia. Defined.

(** The 12-bit immediate of 0xFFF00513 ([addi x10, x0, -1]). *)
Lemma sextract64_sign_extends_witness :
  sextract64 0xFFF00513 20 12 = wrap 64 (signed 12 (Z.shiftr 0xFFF00513 20)).
Proof. apply (sextract64_sign_extends 0xFFF00513 20 12); lia. Defined.

(** [fsgnjn.d f1, f2, f3] with the floating-point unit on. *)
Lemma gen_fsgnj_injects_witness :
  exists e' t x,
    run quiet_helpers
        (emitted (gen_fsgnj true 1 2 3 1 (fsgnj_min true)) (start (ctx_at 0x1000 0)))
        machine_fs
    = Fallthrough (mkMachine e' (mem machine_fs) t)
    /\ fpr_written (env machine_fs) 1 x e'
    /\ 0 <= x < 2 ^ 64
    /\ forall i, 0 <= i < 64 ->
         Z.testbit x i
         = fsgnj_bit 1 (Z.testbit (fsgnj_min true) i) (Z.testbit (fpr (env machine_fs) 2) i)
                     (Z.testbit (fpr (env machine_fs) 3) i).
Proof.
  apply (gen_fsgnj_injects quiet_helpers (ctx_at 0x1000 0) true 1 2 3 1 (fsgnj_min true)
           machine_fs); [vm_compute; discriminate | lia].
Defined.

(** [flw f1, 8(x1)] on RV64 with the floating-point unit on. *)
Lemma gen_fp_load_correct_witness :
  exists t,
    run quiet_helpers
        (emitted (gen_fp_load true (fp_load_opc FP_W) 1 1 8) (start (ctx_at 0x1000 0)))
        machine_fs
    = Fallthrough
        (mkMachine (set_fpr (env machine_fs) 1
                      (load_bytes (fp_mem_size FP_W) (mem machine_fs)
                                  (wrap 64 (reg machine_fs 1 + 8))))
                   (mem machine_fs) t).
Proof.
  apply (gen_fp_load_correct quiet_helpers (ctx_at 0x1000 0) true FP_W 1 1 8 machine_fs).
  vm_compute; discriminate.
Defined.

(** [fsd f2, 8(x1)] on RV64 with the floating-point unit on. *)
Lemma gen_fp_store_correct_witness :
  exists t,
    run quiet_helpers
        (emitted (gen_fp_store true (fp_store_opc FP_D) 1 2 8) (start (ctx_at 0x1000 0)))
        machine_fs
    = Fallthrough
        (mkMachine (env machine_fs)
                   (store_bytes (fp_mem_size FP_D) (mem machine_fs)
                                (wrap 64 (reg machine_fs 1 + 8))
                                (fpr (env machine_fs) 2)) t).
Proof.
  apply (gen_fp_store_correct quiet_helpers (ctx_at 0x1000 0) true FP_D 1 2 8 machine_fs).
  vm_compute; discriminate.
Defined.

(** [ebreak] at 0x1000 on RV64. *)
Lemma gen_system_traps_witness :
  run quiet_helpers
      (emitted (gen_system true OPC_RISC_ECALL 0 0 1) (start (ctx_at 0x1000 0))) machine_x1
  = Raised (set_exception_index
              (set_pc (env machine_x1) (wrap 64 (ctx_pc (ctx_at 0x1000 0))))
              RISCV_EXCP_BREAKPOINT) (mem machine_x1).
Proof.
  apply (gen_system_traps quiet_helpers (ctx_at 0x1000 0) true 0 0 1 RISCV_EXCP_BREAKPOINT
           machine_x1).
  reflexivity.
Defined.

(** [csrrs x3, 0x300, x1] on RV64 with a helper that returns 0. *)
Lemma gen_system_csr_witness :
  exists t,
    run quiet_helpers
        (emitted (gen_system true (csr_opc CSRRS) 3 1 0x300) (start (ctx_at 0x1000 0)))
        machine_x1
    = Exit (mkMachine
              (set_pc (write_gpr (set_pc (env machine_x1)
                                    (wrap 64 (ctx_pc (ctx_at 0x1000 0)))) 3 (wrap 64 0))
                      (wrap 64 (ctx_next_pc (ctx_at 0x1000 0))))
              (mem machine_x1) t) false.
Proof.
  apply (gen_system_csr quiet_helpers (ctx_at 0x1000 0) true CSRRS 3 1 0x300
           (set_pc (env machine_x1) (wrap 64 (ctx_pc (ctx_at 0x1000 0)))) 0 machine_x1).
  reflexivity.
Defined.

(** A block at 0x1000 with a breakpoint set there. *)
Lemma breakpoint_at_block_start_witness :
  exists s',
    gen_intermediate_code true (fun _ => 0) (fun _ => 0) 512 cpu_bp
                          (mkTB 0x1000 0 0 0 0 false 0) 10 = Translated s'
    /\ icount s' = 0
    /\ tb_size (ctx_tb (ctx s')) = 0
    /\ run quiet_helpers (gen_opc_buf (tcg s')) machine_x1
       = Raised (set_exception_index (set_pc (env machine_x1) (wrap 64 0x1000)) EXCP_DEBUG)
                (mem machine_x1).
Proof.
  apply (breakpoint_at_block_start quiet_helpers true (fun _ => 0) (fun _ => 0) 512 cpu_bp
           (mkTB 0x1000 0 0 0 0 false 0) 10 machine_x1).
  reflexivity.
Defined.

(** [vmv.v.i v1, 5] at SEW 16 with [vstart = 1] and [vl = 3]. *)
Lemma helper_vmv_ivi_fills_witness :
  exists e',
    helper_vmv_ivi any_vreg (vcpu 1 3 16 []) 1 5 = HReturn e' 0
    /\ only_vbytes_changed (vcpu 1 3 16 []) e'
    /\ (forall i, 1 <= i < 3 -> velem e' 16 1 i = wrap 16 5)
    /\ (forall y, y < V_ (vcpu 1 3 16 []) 1 + 1 * (16 / 8)
                  \/ V_ (vcpu 1 3 16 []) 1 + Z.max 1 3 * (16 / 8) <= y ->
                  v (vec e') y = v (vec (vcpu 1 3 16 [])) y).
Proof.
  apply (helper_vmv_ivi_fills any_vreg (vcpu 1 3 16 []) 1 5);
    [reflexivity | right; left; reflexivity | cbn; lia | cbn; lia].
Defined.

(** [vsetvli] with [vtype = 0x100] and a requested length of 4. *)
Lemma helper_vsetvl_reserved_vtype_witness :
  exists e',
    helper_vsetvl true cpu_vs 3 1 4 0x100 0 = HReturn e' 0
    /\ vill (vec e') = true
    /\ vlmax (vec e') = 0
    /\ vl (vec e') = 0
    /\ Z.testbit (vtype (vec e')) (64 - 1) = true.
Proof.
  apply (helper_vsetvl_reserved_vtype true cpu_vs 3 1 4 0x100 0);
    [vm_compute; discriminate | vm_compute; discriminate | lia].
Defined.

